(** * KB-Tracker: the game-session reconstruction pipeline

    A shallow embedding of
    - [socketParser.ts]  (frame parser: [parseFrame]),
    - [stateDiffer.ts]   (snapshot differencer: [diffSnapshots]),
    - [logParser.ts]     (log text extractor: [parseLogEntries]),
    - [gameRecorder.ts]  (session recorder: [GameRecorder.ingest]),
    - [content.ts]       (content script: the handling of a game state and
                          [handleGameComplete]),
    - [db.ts]            (IndexedDB access: save, read, delete, import and the
                          two statistics queries),
    - [dashboard.ts]     ([buildBaseHpSeries]) and [cardUtils.ts]
                         ([cardImageUrl]),
    over the data shapes of [types.ts], followed by the properties of the
    specification that concern them and by further properties of the code.

    Conventions of the embedding.
    - JS numbers that hold counts (deck sizes, rounds, hit points) are [Z].
    - JS strings are [string]; only code-unit operations are used on them.
    - An optional field ([name?: string]) is an [option]; [a ?? b] is
      [nullish a b].  A field that [types.ts] declares required is a plain
      value, so a defensive fallback on it in the source ([card.id ?? card.uuid],
      [p.numCardsInDeck ?? 0], [p.cardPiles.hand ?? []], [if (!p0.cardPiles)])
      never fires and is recorded in a comment next to the definition.
    - A [Record<string, V>] is an association list in [Object.keys] order.
    - A JS [Map] is an association list in insertion order ([map_set] keeps the
      position of a key that is already present); a JS [Set] that is only
      queried with [has] is the list of its elements.
    - [new Date().toISOString()] is an argument [now] of the function that
      reads the clock.
    - The completion callback is the [completion] field of what [ingest]
      returns: [Some record] when the call invoked it.
    - Module-level state (the settings and the recorders map of [content.ts],
      the IndexedDB database of [db.ts]) is passed explicitly; the [await]s
      of the sources are sequential.
    - JS numbers that hold a rate or an average stay abstract: a type [num]
      with the number of an integer and the quotient of two integers. *)

From Stdlib Require Import List String Ascii ZArith Bool Lia.
From Stdlib Require Import DecimalString.
From Stdlib Require Decimal DecimalZ DecimalPos.
From Stdlib Require DecimalFacts.
From Stdlib Require Import Sorting.Sorted Sorting.Permutation.
Import ListNotations.
Set Warnings "-register-all".
Local Open Scope string_scope.
Local Open Scope list_scope.

(** ** JavaScript values used by the sources *)

Module JS.

(** [o ?? d] *)
Definition nullish {A : Type} (o : option A) (d : A) : A :=
  match o with
  | Some a => a
  | None => d
  end.

(** Truthiness of a string: every string but the empty one. *)
Definition truthy (s : string) : bool := negb (s =? "").

(** Truthiness of [string | null | undefined]. *)
Definition truthy_opt (o : option string) : bool :=
  match o with
  | Some s => truthy s
  | None => false
  end.

(** [Record<string, V>]: the entries in [Object.keys] order. *)
Definition Obj (V : Type) : Type := list (string * V).

Definition keys {V : Type} (o : Obj V) : list string := map fst o.

(** [o[k]]: [None] is [undefined]. *)
Fixpoint get {V : Type} (o : Obj V) (k : string) : option V :=
  match o with
  | [] => None
  | (k', v) :: o' => if k' =? k then Some v else get o' k
  end.

(** [new Set(xs)] queried with [has]. *)
Definition set_has (s : list string) (x : string) : bool :=
  existsb (String.eqb x) s.

(** [Map.prototype.set]: a present key keeps its place and takes the new
    value, a new key goes last. *)
Fixpoint map_set {V : Type} (m : list (string * V)) (k : string) (v : V)
  : list (string * V) :=
  match m with
  | [] => [(k, v)]
  | (k', v') :: m' =>
      if k' =? k then (k, v) :: m' else (k', v') :: map_set m' k v
  end.

Definition map_get {V : Type} (m : list (string * V)) (k : string) : option V :=
  get m k.

Definition map_has {V : Type} (m : list (string * V)) (k : string) : bool :=
  match map_get m k with
  | Some _ => true
  | None => false
  end.

(** [Math.max] and [Math.min] on integers. *)
Definition Math_max (a b : Z) : Z := Z.max a b.
Definition Math_min (a b : Z) : Z := Z.min a b.

(** [String(n)] for an integer [n]. *)
Definition String_of_Z (n : Z) : string :=
  NilZero.string_of_int (Z.to_int n).

End JS.

Notation "o ?? d" := (JS.nullish o d) (at level 45, right associativity).

(** ** [types.ts] *)

Inductive PhaseName : Type := Setup | Action | Regroup.

Definition PhaseName_eqb (a b : PhaseName) : bool :=
  match a, b with
  | Setup, Setup | Action, Action | Regroup, Regroup => true
  | _, _ => false
  end.

Inductive SwuGameFormat : Type := Premier | NextSetPreview | OpenFormat.

(** [{ set: string; number: number }] *)
Definition SetId : Type := (string * Z)%type.

(** [CardSummary]: the fields the modelled code reads. *)
Module CardSummary.
Record t : Type := mk {
  uuid : string;
  id : string;
  name : option string;
  setId : option SetId;
  damage : option Z;
  hp : option Z;
  aspects : option (list string)
}.
End CardSummary.

Module CardPiles.
Record t : Type := mk {
  hand : list CardSummary.t;
  resources : list CardSummary.t;
  groundArena : list CardSummary.t;
  spaceArena : list CardSummary.t;
  discard : list CardSummary.t;
  credits : option (list CardSummary.t)
}.
End CardPiles.

Module PlayerStateSummary.
Record t : Type := mk {
  id : string;
  name : string;
  cardPiles : CardPiles.t;
  leader : CardSummary.t;
  base : CardSummary.t;
  numCardsInDeck : Z;
  availableResources : Z;
  hasInitiative : bool
}.
End PlayerStateSummary.

Inductive GameCardMetric : Type :=
  Played | Resourced | Activated | Drawn | Discarded.

Definition GameCardMetric_eqb (a b : GameCardMetric) : bool :=
  match a, b with
  | Played, Played | Resourced, Resourced | Activated, Activated
  | Drawn, Drawn | Discarded, Discarded => true
  | _, _ => false
  end.

Module CardEvent.
Record t : Type := mk {
  gameId : string;
  roundNumber : Z;
  playerId : string;
  playerName : string;
  cardId : string;
  cardName : string;
  cardSetId : option SetId;
  metric : GameCardMetric;
  count : Z
}.
End CardEvent.

(** Chat and game-log entries. *)
Inductive ChatObjectType : Type := PlayerRef | CardRef.

Module IChatObject.
Record t : Type := mk {
  type : ChatObjectType;
  id : string;
  name : string
}.
End IChatObject.

(** [ChatMessagePart = IChatObject | string | number] *)
Inductive ChatMessagePart : Type :=
| PartObject (o : IChatObject.t)
| PartString (s : string)
| PartNumber (n : Z).

(** [IChatEntry.message]: an alert object, or one of the two array forms. *)
Inductive ChatMessage : Type :=
| AlertMessage (parts : list ChatMessagePart)
| ArrayMessage (parts : list ChatMessagePart).

Module IChatEntry.
Record t : Type := mk {
  date : string;
  message : ChatMessage
}.
End IChatEntry.

Module IGameState.
Record t : Type := mk {
  id : string;
  playerUpdate : string;
  players : JS.Obj PlayerStateSummary.t;
  phase : PhaseName;
  newMessages : list IChatEntry.t;
  gameMode : SwuGameFormat;
  winners : list string
}.
End IGameState.

(** ** [stateDiffer.ts] *)

Module StateDiffer.

Definition uuidSet (cards : list CardSummary.t) : list string :=
  map CardSummary.uuid cards.

Definition byUuid (cards : list CardSummary.t) : list (string * CardSummary.t) :=
  fold_left (fun m c => JS.map_set m (CardSummary.uuid c) c) cards [].

(** [c.name ?? c.id ?? c.uuid]; [id] is a required string, so the chain ends
    at [c.id]. *)
Definition cardLabel (c : CardSummary.t) : string :=
  CardSummary.name c ?? CardSummary.id c.

Definition allArena (p : PlayerStateSummary.t) : list CardSummary.t :=
  CardPiles.groundArena (PlayerStateSummary.cardPiles p)
  ++ CardPiles.spaceArena (PlayerStateSummary.cardPiles p).

Module DiffContext.
Record t : Type := mk {
  gameId : string;
  roundNumber : Z;
  localPlayerId : option string
}.
End DiffContext.

(** The object literal the four card loops push: [cardId: card.id ?? card.uuid]
    ([id] is required), [cardName: cardLabel(card)], [cardSetId: card.setId],
    [count: 1]. *)
Definition cardEvent (ctx : DiffContext.t) (playerId playerName : string)
    (card : CardSummary.t) (m : GameCardMetric) : CardEvent.t :=
  {| CardEvent.gameId := DiffContext.gameId ctx;
     CardEvent.roundNumber := DiffContext.roundNumber ctx;
     CardEvent.playerId := playerId;
     CardEvent.playerName := playerName;
     CardEvent.cardId := CardSummary.id card;
     CardEvent.cardName := cardLabel card;
     CardEvent.cardSetId := CardSummary.setId card;
     CardEvent.metric := m;
     CardEvent.count := 1%Z |}.

(** The synthetic event of the face-down branch. *)
Definition unknownDrawn (ctx : DiffContext.t) (playerId playerName : string)
    (deckDecrease : Z) : CardEvent.t :=
  {| CardEvent.gameId := DiffContext.gameId ctx;
     CardEvent.roundNumber := DiffContext.roundNumber ctx;
     CardEvent.playerId := playerId;
     CardEvent.playerName := playerName;
     CardEvent.cardId := "__unknown__";
     CardEvent.cardName := "(unknown)";
     CardEvent.cardSetId := None;
     CardEvent.metric := Drawn;
     CardEvent.count := deckDecrease |}.

(** The zone sets of one player of one pair of snapshots. *)
Module Zones.
Record t : Type := mk {
  prevHand : list (string * CardSummary.t);
  nextHand : list string;
  leftHand : list (string * CardSummary.t);
  prevArena : list string;
  nextArena : list string;
  prevRes : list string;
  nextRes : list string;
  prevDiscard : list string;
  nextDiscard : list (string * CardSummary.t)
}.
End Zones.

(** Lines 68-85.  The five piles are required arrays, so [p.cardPiles.hand ?? []]
    is [p.cardPiles.hand], and likewise for the others. *)
Definition zones (p0 p1 : PlayerStateSummary.t) : Zones.t :=
  let prevHand := byUuid (CardPiles.hand (PlayerStateSummary.cardPiles p0)) in
  let nextHand := uuidSet (CardPiles.hand (PlayerStateSummary.cardPiles p1)) in
  {| Zones.prevHand := prevHand;
     Zones.nextHand := nextHand;
     Zones.leftHand :=
       filter (fun e => negb (JS.set_has nextHand (fst e))) prevHand;
     Zones.prevArena := uuidSet (allArena p0);
     Zones.nextArena := uuidSet (allArena p1);
     Zones.prevRes := uuidSet (CardPiles.resources (PlayerStateSummary.cardPiles p0));
     Zones.nextRes := uuidSet (CardPiles.resources (PlayerStateSummary.cardPiles p1));
     Zones.prevDiscard := uuidSet (CardPiles.discard (PlayerStateSummary.cardPiles p0));
     Zones.nextDiscard := byUuid (CardPiles.discard (PlayerStateSummary.cardPiles p1)) |}.

(** [!prevArena.has(uuid) && nextArena.has(uuid)] *)
Definition newInArena (z : Zones.t) (uuid : string) : bool :=
  negb (JS.set_has (Zones.prevArena z) uuid) && JS.set_has (Zones.nextArena z) uuid.

(** [!prevRes.has(uuid) && nextRes.has(uuid)] *)
Definition newInRes (z : Zones.t) (uuid : string) : bool :=
  negb (JS.set_has (Zones.prevRes z) uuid) && JS.set_has (Zones.nextRes z) uuid.

(** [nextDiscard.has(uuid) && !prevDiscard.has(uuid)] *)
Definition newInDiscard (z : Zones.t) (uuid : string) : bool :=
  JS.map_has (Zones.nextDiscard z) uuid && negb (JS.set_has (Zones.prevDiscard z) uuid).

(** The test under which a turn of the PLAYED loop pushes an event: the arena
    branch, or the discard branch when the resources branch does not take the
    card first. *)
Definition playedRoute (z : Zones.t) (uuid : string) : bool :=
  newInArena z uuid || (negb (newInRes z uuid) && newInDiscard z uuid).

(** One turn of the PLAYED loop. The state is the events pushed by the loop so
    far and the set [playedFromHandToDiscard]. *)
Definition playedStep (ctx : DiffContext.t) (playerId playerName : string)
    (z : Zones.t) (st : list CardEvent.t * list string)
    (entry : string * CardSummary.t) : list CardEvent.t * list string :=
  let '(events, playedFromHandToDiscard) := st in
  let '(uuid, card) := entry in
  if newInArena z uuid then
    (events ++ [cardEvent ctx playerId playerName card Played],
     playedFromHandToDiscard)
  else if newInRes z uuid then
    st
  else if newInDiscard z uuid then
    match JS.map_get (Zones.nextDiscard z) uuid with
    | Some card2 =>
        (events ++ [cardEvent ctx playerId playerName card2 Played],
         playedFromHandToDiscard ++ [uuid])
    | None => st (* not reached: [nextDiscard.has(uuid)] holds here *)
    end
  else
    st.

Definition playedLoop (ctx : DiffContext.t) (playerId playerName : string)
    (z : Zones.t) : list CardEvent.t * list string :=
  fold_left (playedStep ctx playerId playerName z) (Zones.leftHand z) ([], []).

(** What one turn of the PLAYED loop pushes and what it adds to
    [playedFromHandToDiscard]: the turn run on empty accumulators. *)
Definition playedOf (ctx : DiffContext.t) (playerId playerName : string)
    (z : Zones.t) (entry : string * CardSummary.t) : list CardEvent.t * list string :=
  playedStep ctx playerId playerName z ([], []) entry.

Definition resourcedLoop (ctx : DiffContext.t) (playerId playerName : string)
    (z : Zones.t) : list CardEvent.t :=
  flat_map
    (fun entry : string * CardSummary.t =>
       let '(uuid, card) := entry in
       if newInRes z uuid
       then [cardEvent ctx playerId playerName card Resourced]
       else [])
    (Zones.leftHand z).

Definition discardedLoop (ctx : DiffContext.t) (playerId playerName : string)
    (z : Zones.t) (playedFromHandToDiscard : list string) : list CardEvent.t :=
  flat_map
    (fun entry : string * CardSummary.t =>
       let '(uuid, card) := entry in
       if negb (JS.set_has (Zones.prevDiscard z) uuid)
          && negb (JS.set_has playedFromHandToDiscard uuid)
       then [cardEvent ctx playerId playerName card Discarded]
       else [])
    (Zones.nextDiscard z).

(** [p0.numCardsInDeck - p1.numCardsInDeck] (both required numbers). *)
Definition deckDecrease (p0 p1 : PlayerStateSummary.t) : Z :=
  (PlayerStateSummary.numCardsInDeck p0 - PlayerStateSummary.numCardsInDeck p1)%Z.

Definition newInHand (z : Zones.t) (p1 : PlayerStateSummary.t) : list CardSummary.t :=
  filter (fun c => negb (JS.map_has (Zones.prevHand z) (CardSummary.uuid c)))
         (CardPiles.hand (PlayerStateSummary.cardPiles p1)).

Definition drawnPart (ctx : DiffContext.t) (playerId playerName : string)
    (z : Zones.t) (p0 p1 : PlayerStateSummary.t) : list CardEvent.t :=
  if (0 <? deckDecrease p0 p1)%Z then
    match newInHand z p1 with
    | [] => [unknownDrawn ctx playerId playerName (deckDecrease p0 p1)]
    | cards => map (fun card => cardEvent ctx playerId playerName card Drawn) cards
    end
  else [].

(** The body of the [for (const playerId of ...)] loop once [p0] and [p1] are
    found: the events it pushes, in order. *)
Definition diffPlayer (ctx : DiffContext.t) (playerId : string)
    (p0 p1 : PlayerStateSummary.t) : list CardEvent.t :=
  let playerName := PlayerStateSummary.name p1 in
  let z := zones p0 p1 in
  let '(played, playedFromHandToDiscard) := playedLoop ctx playerId playerName z in
  played
  ++ resourcedLoop ctx playerId playerName z
  ++ discardedLoop ctx playerId playerName z playedFromHandToDiscard
  ++ drawnPart ctx playerId playerName z p0 p1.

(** [ctx.localPlayerId && playerId !== ctx.localPlayerId] *)
Definition skipped (ctx : DiffContext.t) (playerId : string) : bool :=
  match DiffContext.localPlayerId ctx with
  | Some l => JS.truthy l && negb (playerId =? l)
  | None => false
  end.

(** [diffSnapshots(prev, next, ctx)].  A player missing from [prev] is passed
    over ([if (!p0 || !p1) continue]); [cardPiles] is a required field, so the
    guard [if (!p0.cardPiles || !p1.cardPiles)] never fires. *)
Definition diffSnapshots (prev next : IGameState.t) (ctx : DiffContext.t)
  : list CardEvent.t :=
  flat_map
    (fun playerId =>
       if skipped ctx playerId then []
       else
         match JS.get (IGameState.players prev) playerId,
               JS.get (IGameState.players next) playerId with
         | Some p0, Some p1 => diffPlayer ctx playerId p0 p1
         | _, _ => []
         end)
    (JS.keys (IGameState.players next)).

End StateDiffer.

(** ** The differencer with provenance

    A [CardEvent] does not record the instance ([uuid]) it was pushed for: its
    [cardId] is the card type, shared by all copies.  To state properties "per
    uuid", [Traced] repeats the loops of [StateDiffer] and pairs every pushed
    event with the loop variable [uuid] it was pushed for ([None] for the
    synthetic drawn event).  Forgetting the tags gives [diffSnapshots] back
    (lemma [Traced_diffSnapshots_erase]). *)

Module Traced.
Import StateDiffer.

Definition TEvent : Type := (option string * CardEvent.t)%type.

Definition playedStep (ctx : DiffContext.t) (playerId playerName : string)
    (z : Zones.t) (st : list TEvent * list string)
    (entry : string * CardSummary.t) : list TEvent * list string :=
  let '(events, playedFromHandToDiscard) := st in
  let '(uuid, card) := entry in
  if newInArena z uuid then
    (events ++ [(Some uuid, cardEvent ctx playerId playerName card Played)],
     playedFromHandToDiscard)
  else if newInRes z uuid then
    st
  else if newInDiscard z uuid then
    match JS.map_get (Zones.nextDiscard z) uuid with
    | Some card2 =>
        (events ++ [(Some uuid, cardEvent ctx playerId playerName card2 Played)],
         playedFromHandToDiscard ++ [uuid])
    | None => st
    end
  else
    st.

Definition playedLoop (ctx : DiffContext.t) (playerId playerName : string)
    (z : Zones.t) : list TEvent * list string :=
  fold_left (playedStep ctx playerId playerName z) (Zones.leftHand z) ([], []).

Definition playedOf (ctx : DiffContext.t) (playerId playerName : string)
    (z : Zones.t) (entry : string * CardSummary.t) : list TEvent * list string :=
  playedStep ctx playerId playerName z ([], []) entry.

Definition resourcedLoop (ctx : DiffContext.t) (playerId playerName : string)
    (z : Zones.t) : list TEvent :=
  flat_map
    (fun entry : string * CardSummary.t =>
       let '(uuid, card) := entry in
       if newInRes z uuid
       then [(Some uuid, cardEvent ctx playerId playerName card Resourced)]
       else [])
    (Zones.leftHand z).

Definition discardedLoop (ctx : DiffContext.t) (playerId playerName : string)
    (z : Zones.t) (playedFromHandToDiscard : list string) : list TEvent :=
  flat_map
    (fun entry : string * CardSummary.t =>
       let '(uuid, card) := entry in
       if negb (JS.set_has (Zones.prevDiscard z) uuid)
          && negb (JS.set_has playedFromHandToDiscard uuid)
       then [(Some uuid, cardEvent ctx playerId playerName card Discarded)]
       else [])
    (Zones.nextDiscard z).

Definition drawnPart (ctx : DiffContext.t) (playerId playerName : string)
    (z : Zones.t) (p0 p1 : PlayerStateSummary.t) : list TEvent :=
  if (0 <? deckDecrease p0 p1)%Z then
    match newInHand z p1 with
    | [] => [(None, unknownDrawn ctx playerId playerName (deckDecrease p0 p1))]
    | cards =>
        map (fun card => (Some (CardSummary.uuid card),
                          cardEvent ctx playerId playerName card Drawn)) cards
    end
  else [].

Definition diffPlayer (ctx : DiffContext.t) (playerId : string)
    (p0 p1 : PlayerStateSummary.t) : list TEvent :=
  let playerName := PlayerStateSummary.name p1 in
  let z := zones p0 p1 in
  let '(played, playedFromHandToDiscard) := playedLoop ctx playerId playerName z in
  played
  ++ resourcedLoop ctx playerId playerName z
  ++ discardedLoop ctx playerId playerName z playedFromHandToDiscard
  ++ drawnPart ctx playerId playerName z p0 p1.

Definition diffSnapshots (prev next : IGameState.t) (ctx : DiffContext.t)
  : list TEvent :=
  flat_map
    (fun playerId =>
       if skipped ctx playerId then []
       else
         match JS.get (IGameState.players prev) playerId,
               JS.get (IGameState.players next) playerId with
         | Some p0, Some p1 => diffPlayer ctx playerId p0 p1
         | _, _ => []
         end)
    (JS.keys (IGameState.players next)).

(** Is this the event of metric [m] pushed for player [playerId] and instance
    [uuid]? *)
Definition isFor (playerId uuid : string) (m : GameCardMetric) (te : TEvent) : bool :=
  match fst te with
  | Some u => u =? uuid
  | None => false
  end
  && (CardEvent.playerId (snd te) =? playerId)
  && GameCardMetric_eqb (CardEvent.metric (snd te)) m.

(** How many events of metric [m] were pushed for [playerId] and [uuid]. *)
Definition emitted (playerId uuid : string) (m : GameCardMetric)
    (events : list TEvent) : nat :=
  List.length (filter (isFor playerId uuid m) events).

End Traced.

(** The properties of the differencer speak of these. *)

(** Is [e] a [drawn] event of [playerId]? *)
Definition isDrawnOf (playerId : string) (e : CardEvent.t) : bool :=
  GameCardMetric_eqb (CardEvent.metric e) Drawn && (CardEvent.playerId e =? playerId).

(** The [drawn] events of [playerId]. *)
Definition drawnEvents (playerId : string) (events : list CardEvent.t)
  : list CardEvent.t :=
  filter (isDrawnOf playerId) events.

(** The sum of [count] over the [drawn] events of [playerId]. *)
Definition drawnTotal (playerId : string) (events : list CardEvent.t) : Z :=
  fold_right Z.add 0%Z (map CardEvent.count (drawnEvents playerId events)).

(** [uuid] moves from the hand of the player to the ground or space arena:
    in the hand of [p0], not in the hand of [p1], in the arena of [p1] and not
    in the arena of [p0]. *)
Definition movesHandToArena (p0 p1 : PlayerStateSummary.t) (uuid : string) : Prop :=
  In uuid (StateDiffer.uuidSet (CardPiles.hand (PlayerStateSummary.cardPiles p0)))
  /\ ~ In uuid (StateDiffer.uuidSet (CardPiles.hand (PlayerStateSummary.cardPiles p1)))
  /\ In uuid (StateDiffer.uuidSet (StateDiffer.allArena p1))
  /\ ~ In uuid (StateDiffer.uuidSet (StateDiffer.allArena p0)).

(** [uuid] is in the resources (in the discard pile) of [p1] and was not in
    that zone of [p0]. *)
Definition newlyResourced (p0 p1 : PlayerStateSummary.t) (uuid : string) : Prop :=
  In uuid (StateDiffer.uuidSet (CardPiles.resources (PlayerStateSummary.cardPiles p1)))
  /\ ~ In uuid (StateDiffer.uuidSet (CardPiles.resources (PlayerStateSummary.cardPiles p0))).

Definition newlyDiscarded (p0 p1 : PlayerStateSummary.t) (uuid : string) : Prop :=
  In uuid (StateDiffer.uuidSet (CardPiles.discard (PlayerStateSummary.cardPiles p1)))
  /\ ~ In uuid (StateDiffer.uuidSet (CardPiles.discard (PlayerStateSummary.cardPiles p0))).

(** ** The data model of a snapshot *)

(** The zones of a player that the differencer reads; the arena is the ground
    arena and the space arena together. *)
Inductive ZoneName : Type := HandZone | ResourcesZone | ArenaZone | DiscardZone.

Definition zoneUuids (z : ZoneName) (p : PlayerStateSummary.t) : list string :=
  match z with
  | HandZone => StateDiffer.uuidSet (CardPiles.hand (PlayerStateSummary.cardPiles p))
  | ResourcesZone => StateDiffer.uuidSet (CardPiles.resources (PlayerStateSummary.cardPiles p))
  | ArenaZone => StateDiffer.uuidSet (StateDiffer.allArena p)
  | DiscardZone => StateDiffer.uuidSet (CardPiles.discard (PlayerStateSummary.cardPiles p))
  end.

(** The data model of a snapshot: a [uuid] names one physical card instance
    and a zone is a container, so an instance is in at most one zone, of at
    most one player. *)
Definition oneZonePerInstance (s : IGameState.t) : Prop :=
  forall k1 p1 z1 k2 p2 z2 uuid,
    JS.get (IGameState.players s) k1 = Some p1 ->
    JS.get (IGameState.players s) k2 = Some p2 ->
    In uuid (zoneUuids z1 p1) -> In uuid (zoneUuids z2 p2) ->
    k1 = k2 /\ z1 = z2.



(** ** [logParser.ts] *)

Module LogParser.

Definition ACTIVATION_KEYWORDS : list string :=
  ["activated"; "uses"; "used"; "ability"; "epic action"].

Definition isAlertMessage (msg : ChatMessage) : bool :=
  match msg with
  | AlertMessage _ => true
  | ArrayMessage _ => false
  end.

Definition isCardObject (part : ChatMessagePart) : bool :=
  match part with
  | PartObject o =>
      match IChatObject.type o with CardRef => true | PlayerRef => false end
  | _ => false
  end.

Definition isPlayerObject (part : ChatMessagePart) : bool :=
  match part with
  | PartObject o =>
      match IChatObject.type o with PlayerRef => true | CardRef => false end
  | _ => false
  end.

(** [String.prototype.toLowerCase] on the letters A to Z. *)
Definition lowerAscii (c : ascii) : ascii :=
  let n := nat_of_ascii c in
  if (65 <=? n)%nat && (n <=? 90)%nat then ascii_of_nat (n + 32) else c.

Fixpoint toLowerCase (s : string) : string :=
  match s with
  | EmptyString => EmptyString
  | String c s' => String (lowerAscii c) (toLowerCase s')
  end.

(** [String.prototype.includes] *)
Fixpoint includes (s sub : string) : bool :=
  String.prefix sub s
  || match s with
     | EmptyString => false
     | String _ s' => includes s' sub
     end.

(** [typeof p === 'object' ? p.name ?? '' : String(p)]; [name] is required. *)
Definition partText (p : ChatMessagePart) : string :=
  match p with
  | PartObject o => IChatObject.name o
  | PartString s => s
  | PartNumber n => JS.String_of_Z n
  end.

Definition partsToText (parts : list ChatMessagePart) : string :=
  toLowerCase (String.concat " " (map partText parts)).

Definition asObject (p : option ChatMessagePart) : option IChatObject.t :=
  match p with
  | Some (PartObject o) => Some o
  | _ => None
  end.

Definition parseLogEntries (gameId : string) (roundNumber : Z)
    (entries : list IChatEntry.t) : list CardEvent.t :=
  flat_map
    (fun entry =>
       match IChatEntry.message entry with
       | ArrayMessage _ => []
       | AlertMessage parts =>
           let text := partsToText parts in
           let hasActivationKeyword :=
             existsb (fun kw => includes text kw) ACTIVATION_KEYWORDS in
           if negb hasActivationKeyword then []
           else
             match asObject (find isPlayerObject parts),
                   asObject (find isCardObject parts) with
             | Some playerRef, Some cardRef =>
                 [ {| CardEvent.gameId := gameId;
                      CardEvent.roundNumber := roundNumber;
                      CardEvent.playerId := IChatObject.id playerRef;
                      CardEvent.playerName := IChatObject.name playerRef;
                      CardEvent.cardId := IChatObject.id cardRef;
                      CardEvent.cardName := IChatObject.name cardRef;
                      CardEvent.cardSetId := None;
                      CardEvent.metric := Activated;
                      CardEvent.count := 1%Z |} ]
             | _, _ => []
             end
       end)
    entries.

End LogParser.

(** ** Records of [types.ts] that the recorder builds *)

Module GamePlayer.
Record t : Type := mk {
  id : string;
  name : string;
  leaderId : string;
  leaderName : string;
  leaderSetId : option SetId;
  baseId : string;
  baseName : string;
  baseSetId : option SetId;
  baseAspects : option (list string);
  deckSize : Z
}.
End GamePlayer.

Module PlayerSnapshot.
Record t : Type := mk {
  name : string;
  hasInitiative : bool;
  availableResources : Z;
  totalResources : Z;
  credits : Z;
  numCardsInDeck : Z;
  base : CardSummary.t;
  leader : CardSummary.t;
  groundArena : list CardSummary.t;
  spaceArena : list CardSummary.t;
  hand : list CardSummary.t;
  discard : list CardSummary.t
}.
End PlayerSnapshot.

Module BaseHpChange.
Record t : Type := mk { youHp : Z; oppHp : Z }.
End BaseHpChange.

Module RoundSnapshot.
Record t : Type := mk {
  round : Z;
  phase : PhaseName;
  capturedAt : string;
  players : PlayerSnapshot.t * PlayerSnapshot.t;
  logEntries : list IChatEntry.t;
  baseHpChanges : list BaseHpChange.t
}.
End RoundSnapshot.

Module GameRecord.
Record t : Type := mk {
  gameId : string;
  startedAt : string;
  completedAt : string;
  format : SwuGameFormat;
  isLimitedFormat : bool;
  players : GamePlayer.t * GamePlayer.t;
  winner : option string;
  rounds : Z;
  cardEvents : list CardEvent.t;
  rawLog : list IChatEntry.t;
  snapshots : list RoundSnapshot.t
}.
End GameRecord.

(** ** [gameRecorder.ts] *)

Module GameRecorder.

Definition LIMITED_DECK_SIZE_THRESHOLD : Z := 35.

(** [buildPlayer(playerId, state)] with [p = state.players[playerId]], which
    the one caller has found before the call.  [leader] and [base] are
    required, so [p.leader?.id ?? ''] is [p.leader.id]. *)
Definition buildPlayer (playerId : string) (p : PlayerStateSummary.t) : GamePlayer.t :=
  {| GamePlayer.id := playerId;
     GamePlayer.name := PlayerStateSummary.name p;
     GamePlayer.leaderId := CardSummary.id (PlayerStateSummary.leader p);
     GamePlayer.leaderName :=
       CardSummary.name (PlayerStateSummary.leader p)
       ?? CardSummary.id (PlayerStateSummary.leader p);
     GamePlayer.leaderSetId := CardSummary.setId (PlayerStateSummary.leader p);
     GamePlayer.baseId := CardSummary.id (PlayerStateSummary.base p);
     GamePlayer.baseName :=
       CardSummary.name (PlayerStateSummary.base p)
       ?? CardSummary.id (PlayerStateSummary.base p);
     GamePlayer.baseSetId := CardSummary.setId (PlayerStateSummary.base p);
     GamePlayer.baseAspects := CardSummary.aspects (PlayerStateSummary.base p);
     GamePlayer.deckSize := PlayerStateSummary.numCardsInDeck p |}.

(** The private fields of the class. *)
Record t : Type := mk {
  gameId : string;
  startedAt : string;
  prevState : option IGameState.t;
  cardEvents : list CardEvent.t;
  rawLog : list IChatEntry.t;
  players : option (GamePlayer.t * GamePlayer.t);
  isLimitedFormat : bool;
  format : SwuGameFormat;
  roundNumber : Z;
  completed : bool;
  snapshots : list RoundSnapshot.t;
  currentRoundLogs : list IChatEntry.t;
  currentRoundBaseHpChanges : list BaseHpChange.t;
  lastKnownYouHp : option Z;
  lastKnownOppHp : option Z;
  prevPhase : option PhaseName;
  localPlayerId : option string
}.

Definition set_localPlayerId (v_localPlayerId : option string) (r : t) : t :=
  {| gameId := gameId r;
     startedAt := startedAt r;
     prevState := prevState r;
     cardEvents := cardEvents r;
     rawLog := rawLog r;
     players := players r;
     isLimitedFormat := isLimitedFormat r;
     format := format r;
     roundNumber := roundNumber r;
     completed := completed r;
     snapshots := snapshots r;
     currentRoundLogs := currentRoundLogs r;
     currentRoundBaseHpChanges := currentRoundBaseHpChanges r;
     lastKnownYouHp := lastKnownYouHp r;
     lastKnownOppHp := lastKnownOppHp r;
     prevPhase := prevPhase r;
     localPlayerId := v_localPlayerId |}.

Definition set_cardEvents (v_cardEvents : list CardEvent.t) (r : t) : t :=
  {| gameId := gameId r;
     startedAt := startedAt r;
     prevState := prevState r;
     cardEvents := v_cardEvents;
     rawLog := rawLog r;
     players := players r;
     isLimitedFormat := isLimitedFormat r;
     format := format r;
     roundNumber := roundNumber r;
     completed := completed r;
     snapshots := snapshots r;
     currentRoundLogs := currentRoundLogs r;
     currentRoundBaseHpChanges := currentRoundBaseHpChanges r;
     lastKnownYouHp := lastKnownYouHp r;
     lastKnownOppHp := lastKnownOppHp r;
     prevPhase := prevPhase r;
     localPlayerId := localPlayerId r |}.

Definition set_rawLog (v_rawLog : list IChatEntry.t) (r : t) : t :=
  {| gameId := gameId r;
     startedAt := startedAt r;
     prevState := prevState r;
     cardEvents := cardEvents r;
     rawLog := v_rawLog;
     players := players r;
     isLimitedFormat := isLimitedFormat r;
     format := format r;
     roundNumber := roundNumber r;
     completed := completed r;
     snapshots := snapshots r;
     currentRoundLogs := currentRoundLogs r;
     currentRoundBaseHpChanges := currentRoundBaseHpChanges r;
     lastKnownYouHp := lastKnownYouHp r;
     lastKnownOppHp := lastKnownOppHp r;
     prevPhase := prevPhase r;
     localPlayerId := localPlayerId r |}.

Definition set_currentRoundLogs (v_currentRoundLogs : list IChatEntry.t) (r : t) : t :=
  {| gameId := gameId r;
     startedAt := startedAt r;
     prevState := prevState r;
     cardEvents := cardEvents r;
     rawLog := rawLog r;
     players := players r;
     isLimitedFormat := isLimitedFormat r;
     format := format r;
     roundNumber := roundNumber r;
     completed := completed r;
     snapshots := snapshots r;
     currentRoundLogs := v_currentRoundLogs;
     currentRoundBaseHpChanges := currentRoundBaseHpChanges r;
     lastKnownYouHp := lastKnownYouHp r;
     lastKnownOppHp := lastKnownOppHp r;
     prevPhase := prevPhase r;
     localPlayerId := localPlayerId r |}.

Definition set_currentRoundBaseHpChanges (v_currentRoundBaseHpChanges : list BaseHpChange.t) (r : t) : t :=
  {| gameId := gameId r;
     startedAt := startedAt r;
     prevState := prevState r;
     cardEvents := cardEvents r;
     rawLog := rawLog r;
     players := players r;
     isLimitedFormat := isLimitedFormat r;
     format := format r;
     roundNumber := roundNumber r;
     completed := completed r;
     snapshots := snapshots r;
     currentRoundLogs := currentRoundLogs r;
     currentRoundBaseHpChanges := v_currentRoundBaseHpChanges;
     lastKnownYouHp := lastKnownYouHp r;
     lastKnownOppHp := lastKnownOppHp r;
     prevPhase := prevPhase r;
     localPlayerId := localPlayerId r |}.

Definition set_roundNumber (v_roundNumber : Z) (r : t) : t :=
  {| gameId := gameId r;
     startedAt := startedAt r;
     prevState := prevState r;
     cardEvents := cardEvents r;
     rawLog := rawLog r;
     players := players r;
     isLimitedFormat := isLimitedFormat r;
     format := format r;
     roundNumber := v_roundNumber;
     completed := completed r;
     snapshots := snapshots r;
     currentRoundLogs := currentRoundLogs r;
     currentRoundBaseHpChanges := currentRoundBaseHpChanges r;
     lastKnownYouHp := lastKnownYouHp r;
     lastKnownOppHp := lastKnownOppHp r;
     prevPhase := prevPhase r;
     localPlayerId := localPlayerId r |}.

Definition set_snapshots (v_snapshots : list RoundSnapshot.t) (r : t) : t :=
  {| gameId := gameId r;
     startedAt := startedAt r;
     prevState := prevState r;
     cardEvents := cardEvents r;
     rawLog := rawLog r;
     players := players r;
     isLimitedFormat := isLimitedFormat r;
     format := format r;
     roundNumber := roundNumber r;
     completed := completed r;
     snapshots := v_snapshots;
     currentRoundLogs := currentRoundLogs r;
     currentRoundBaseHpChanges := currentRoundBaseHpChanges r;
     lastKnownYouHp := lastKnownYouHp r;
     lastKnownOppHp := lastKnownOppHp r;
     prevPhase := prevPhase r;
     localPlayerId := localPlayerId r |}.

Definition set_lastKnownYouHp (v_lastKnownYouHp : option Z) (r : t) : t :=
  {| gameId := gameId r;
     startedAt := startedAt r;
     prevState := prevState r;
     cardEvents := cardEvents r;
     rawLog := rawLog r;
     players := players r;
     isLimitedFormat := isLimitedFormat r;
     format := format r;
     roundNumber := roundNumber r;
     completed := completed r;
     snapshots := snapshots r;
     currentRoundLogs := currentRoundLogs r;
     currentRoundBaseHpChanges := currentRoundBaseHpChanges r;
     lastKnownYouHp := v_lastKnownYouHp;
     lastKnownOppHp := lastKnownOppHp r;
     prevPhase := prevPhase r;
     localPlayerId := localPlayerId r |}.

Definition set_lastKnownOppHp (v_lastKnownOppHp : option Z) (r : t) : t :=
  {| gameId := gameId r;
     startedAt := startedAt r;
     prevState := prevState r;
     cardEvents := cardEvents r;
     rawLog := rawLog r;
     players := players r;
     isLimitedFormat := isLimitedFormat r;
     format := format r;
     roundNumber := roundNumber r;
     completed := completed r;
     snapshots := snapshots r;
     currentRoundLogs := currentRoundLogs r;
     currentRoundBaseHpChanges := currentRoundBaseHpChanges r;
     lastKnownYouHp := lastKnownYouHp r;
     lastKnownOppHp := v_lastKnownOppHp;
     prevPhase := prevPhase r;
     localPlayerId := localPlayerId r |}.

Definition set_prevPhase (v_prevPhase : option PhaseName) (r : t) : t :=
  {| gameId := gameId r;
     startedAt := startedAt r;
     prevState := prevState r;
     cardEvents := cardEvents r;
     rawLog := rawLog r;
     players := players r;
     isLimitedFormat := isLimitedFormat r;
     format := format r;
     roundNumber := roundNumber r;
     completed := completed r;
     snapshots := snapshots r;
     currentRoundLogs := currentRoundLogs r;
     currentRoundBaseHpChanges := currentRoundBaseHpChanges r;
     lastKnownYouHp := lastKnownYouHp r;
     lastKnownOppHp := lastKnownOppHp r;
     prevPhase := v_prevPhase;
     localPlayerId := localPlayerId r |}.

Definition set_prevState (v_prevState : option IGameState.t) (r : t) : t :=
  {| gameId := gameId r;
     startedAt := startedAt r;
     prevState := v_prevState;
     cardEvents := cardEvents r;
     rawLog := rawLog r;
     players := players r;
     isLimitedFormat := isLimitedFormat r;
     format := format r;
     roundNumber := roundNumber r;
     completed := completed r;
     snapshots := snapshots r;
     currentRoundLogs := currentRoundLogs r;
     currentRoundBaseHpChanges := currentRoundBaseHpChanges r;
     lastKnownYouHp := lastKnownYouHp r;
     lastKnownOppHp := lastKnownOppHp r;
     prevPhase := prevPhase r;
     localPlayerId := localPlayerId r |}.

Definition set_completed (v_completed : bool) (r : t) : t :=
  {| gameId := gameId r;
     startedAt := startedAt r;
     prevState := prevState r;
     cardEvents := cardEvents r;
     rawLog := rawLog r;
     players := players r;
     isLimitedFormat := isLimitedFormat r;
     format := format r;
     roundNumber := roundNumber r;
     completed := v_completed;
     snapshots := snapshots r;
     currentRoundLogs := currentRoundLogs r;
     currentRoundBaseHpChanges := currentRoundBaseHpChanges r;
     lastKnownYouHp := lastKnownYouHp r;
     lastKnownOppHp := lastKnownOppHp r;
     prevPhase := prevPhase r;
     localPlayerId := localPlayerId r |}.

Definition set_players (v_players : option (GamePlayer.t * GamePlayer.t)) (v_isLimitedFormat : bool) (v_format : SwuGameFormat) (r : t) : t :=
  {| gameId := gameId r;
     startedAt := startedAt r;
     prevState := prevState r;
     cardEvents := cardEvents r;
     rawLog := rawLog r;
     players := v_players;
     isLimitedFormat := v_isLimitedFormat;
     format := v_format;
     roundNumber := roundNumber r;
     completed := completed r;
     snapshots := snapshots r;
     currentRoundLogs := currentRoundLogs r;
     currentRoundBaseHpChanges := currentRoundBaseHpChanges r;
     lastKnownYouHp := lastKnownYouHp r;
     lastKnownOppHp := lastKnownOppHp r;
     prevPhase := prevPhase r;
     localPlayerId := localPlayerId r |}.

(** [new GameRecorder(gameId, onComplete)]; [now] is the clock reading of the
    constructor. *)
Definition new (gameId now : string) : t :=
  {| gameId := gameId;
     startedAt := now;
     prevState := None;
     cardEvents := [];
     rawLog := [];
     players := None;
     isLimitedFormat := false;
     format := Premier;
     roundNumber := 0%Z;
     completed := false;
     snapshots := [];
     currentRoundLogs := [];
     currentRoundBaseHpChanges := [];
     lastKnownYouHp := None;
     lastKnownOppHp := None;
     prevPhase := None;
     localPlayerId := None |}.

(** [Math.max(0, (p.base?.hp ?? 30) - (p.base?.damage ?? 0))] *)
Definition baseHp (p : PlayerStateSummary.t) : Z :=
  JS.Math_max 0
    ((CardSummary.hp (PlayerStateSummary.base p) ?? 30)
     - (CardSummary.damage (PlayerStateSummary.base p) ?? 0))%Z.

(** Lines 85-101: identify the local player from [playerUpdate]. *)
Definition resolveLocalPlayer (r : t) (state : IGameState.t) : t :=
  if negb (JS.truthy_opt (localPlayerId r))
     && JS.truthy (IGameState.playerUpdate state)
  then
    let resolved :=
      find
        (fun k =>
           (k =? IGameState.playerUpdate state)
           || match JS.get (IGameState.players state) k with
              | Some p =>
                  (PlayerStateSummary.name p =? IGameState.playerUpdate state)
                  || (PlayerStateSummary.id p =? IGameState.playerUpdate state)
              | None => false
              end)
        (JS.keys (IGameState.players state)) in
    set_localPlayerId resolved r
  else r.

(** [(this.localPlayerId && state.players[this.localPlayerId])
      ? this.localPlayerId : ids[0]] *)
Definition chooseLocalId (r : t) (state : IGameState.t) (ids : list string) : string :=
  match localPlayerId r with
  | Some l =>
      if JS.truthy l
         && match JS.get (IGameState.players state) l with
            | Some _ => true
            | None => false
            end
      then l
      else nth 0 ids ""
  | None => nth 0 ids ""
  end.

(** Lines 103-123: capture the player pair from the first snapshot that has
    two players. *)
Definition capturePlayers (r : t) (state : IGameState.t) : t :=
  match players r with
  | Some _ => r
  | None =>
      let ids := JS.keys (IGameState.players state) in
      if (2 <=? List.length ids)%nat then
        let localId := chooseLocalId r state ids in
        let oppId := find (fun id => negb (id =? localId)) ids ?? nth 1 ids "" in
        match JS.get (IGameState.players state) localId,
              JS.get (IGameState.players state) oppId with
        | Some pl, Some po =>
            let minDeck :=
              JS.Math_min (PlayerStateSummary.numCardsInDeck pl)
                          (PlayerStateSummary.numCardsInDeck po) in
            set_players
              (Some (buildPlayer localId pl, buildPlayer oppId po))
              (minDeck <=? LIMITED_DECK_SIZE_THRESHOLD)%Z
              (IGameState.gameMode state)
              r
        | _, _ => r
        end
      else r
  end.

(** Lines 125-134: accumulate the log entries and the activations parsed from
    them. *)
Definition accumulateLog (r : t) (state : IGameState.t) : t :=
  match IGameState.newMessages state with
  | [] => r
  | newMessages =>
      let logEvents :=
        LogParser.parseLogEntries (gameId r) (JS.Math_max 1 (roundNumber r))
                                  newMessages in
      set_cardEvents (cardEvents r ++ logEvents)
        (set_currentRoundLogs (currentRoundLogs r ++ newMessages)
           (set_rawLog (rawLog r ++ newMessages) r))
  end.

(** [captureSnapshot(state, round)]; [now] is the clock reading. *)
Definition buildPlayerSnapshot (ps : PlayerStateSummary.t) : PlayerSnapshot.t :=
  {| PlayerSnapshot.name := PlayerStateSummary.name ps;
     PlayerSnapshot.hasInitiative := PlayerStateSummary.hasInitiative ps;
     PlayerSnapshot.availableResources := PlayerStateSummary.availableResources ps;
     PlayerSnapshot.totalResources :=
       Z.of_nat (List.length (CardPiles.resources (PlayerStateSummary.cardPiles ps)));
     PlayerSnapshot.credits :=
       option_map (fun c => Z.of_nat (List.length c))
                  (CardPiles.credits (PlayerStateSummary.cardPiles ps)) ?? 0%Z;
     PlayerSnapshot.numCardsInDeck := PlayerStateSummary.numCardsInDeck ps;
     PlayerSnapshot.base := PlayerStateSummary.base ps;
     PlayerSnapshot.leader := PlayerStateSummary.leader ps;
     PlayerSnapshot.groundArena := CardPiles.groundArena (PlayerStateSummary.cardPiles ps);
     PlayerSnapshot.spaceArena := CardPiles.spaceArena (PlayerStateSummary.cardPiles ps);
     PlayerSnapshot.hand := CardPiles.hand (PlayerStateSummary.cardPiles ps);
     PlayerSnapshot.discard := CardPiles.discard (PlayerStateSummary.cardPiles ps) |}.

Definition captureSnapshot (now : string) (r : t) (state : IGameState.t) (round : Z)
  : option RoundSnapshot.t :=
  match players r with
  | None => None
  | Some (localPlayer, oppPlayer) =>
      match JS.get (IGameState.players state) (GamePlayer.id localPlayer),
            JS.get (IGameState.players state) (GamePlayer.id oppPlayer) with
      | Some localState, Some oppState =>
          Some {| RoundSnapshot.round := round;
                  RoundSnapshot.phase := IGameState.phase state;
                  RoundSnapshot.capturedAt := now;
                  RoundSnapshot.players :=
                    (buildPlayerSnapshot localState, buildPlayerSnapshot oppState);
                  RoundSnapshot.logEntries := [];
                  RoundSnapshot.baseHpChanges := [] |}
      | _, _ => None
      end
  end.

(** [snapshots[snapshots.length - 1]] updated in place by [f]; nothing happens
    on the empty array (the source tests [snapshots.length > 0] first). *)
Fixpoint updateLast (f : RoundSnapshot.t -> RoundSnapshot.t)
    (snapshots : list RoundSnapshot.t) : list RoundSnapshot.t :=
  match snapshots with
  | [] => []
  | [s] => [f s]
  | s :: rest => s :: updateLast f rest
  end.

Definition isAction (phase : option PhaseName) : bool :=
  match phase with
  | Some Action => true
  | _ => false
  end.

Definition hasPlayers (r : t) : bool :=
  match players r with
  | Some _ => true
  | None => false
  end.

Definition optZ_eqb (a b : option Z) : bool :=
  match a, b with
  | Some x, Some y => (x =? y)%Z
  | None, None => true
  | _, _ => false
  end.

(** Lines 140-164: a new round begins. *)
Definition startRound (now : string) (r : t) (state : IGameState.t) : t :=
  let r :=
    set_snapshots
      (updateLast
         (fun prev =>
            {| RoundSnapshot.round := RoundSnapshot.round prev;
               RoundSnapshot.phase := RoundSnapshot.phase prev;
               RoundSnapshot.capturedAt := RoundSnapshot.capturedAt prev;
               RoundSnapshot.players := RoundSnapshot.players prev;
               RoundSnapshot.logEntries := currentRoundLogs r;
               RoundSnapshot.baseHpChanges := currentRoundBaseHpChanges r |})
         (snapshots r))
      r in
  let r := set_currentRoundLogs [] r in
  let r := set_currentRoundBaseHpChanges [] r in
  let r := set_roundNumber (JS.Math_max (roundNumber r + 1) 1) r in
  match captureSnapshot now r state (roundNumber r) with
  | None => r
  | Some snap =>
      let r := set_snapshots (snapshots r ++ [snap]) r in
      match players r with
      | None => r
      | Some (localPlayer, oppPlayer) =>
          let localState := JS.get (IGameState.players state) (GamePlayer.id localPlayer) in
          let oppState := JS.get (IGameState.players state) (GamePlayer.id oppPlayer) in
          set_lastKnownOppHp (option_map baseHp oppState)
            (set_lastKnownYouHp (option_map baseHp localState) r)
      end
  end.

(** Lines 165-181: mid-round, detect base HP changes. *)
Definition sampleHp (r : t) (state : IGameState.t) : t :=
  match players r with
  | None => r
  | Some (localPlayer, oppPlayer) =>
      match JS.get (IGameState.players state) (GamePlayer.id localPlayer),
            JS.get (IGameState.players state) (GamePlayer.id oppPlayer) with
      | Some localState, Some oppState =>
          let youHp := baseHp localState in
          let oppHp := baseHp oppState in
          let r :=
            match lastKnownYouHp r with
            | Some lastYou =>
                if negb (youHp =? lastYou)%Z
                   || negb (optZ_eqb (Some oppHp) (lastKnownOppHp r))
                then
                  set_currentRoundBaseHpChanges
                    (currentRoundBaseHpChanges r
                     ++ [ {| BaseHpChange.youHp := youHp;
                             BaseHpChange.oppHp := oppHp |} ])
                    r
                else r
            | None => r
            end in
          set_lastKnownOppHp (Some oppHp) (set_lastKnownYouHp (Some youHp) r)
      | _, _ => r
      end
  end.

(** Lines 136-182: round detection, then [this.prevPhase = state.phase]. *)
Definition trackRound (now : string) (r : t) (state : IGameState.t) : t :=
  let r :=
    if PhaseName_eqb (IGameState.phase state) Action
       && negb (isAction (prevPhase r)) && hasPlayers r
    then startRound now r state
    else if PhaseName_eqb (IGameState.phase state) Action
            && isAction (prevPhase r) && hasPlayers r
    then sampleHp r state
    else r in
  set_prevPhase (Some (IGameState.phase state)) r.

(** Lines 184-199: diff against the previous snapshot, then
    [this.prevState = state].  [diffSnapshots] returns on every input of the
    declared types, so the [catch] branch is never taken. *)
Definition diffStep (r : t) (state : IGameState.t) : t :=
  let r :=
    match prevState r with
    | Some prev =>
        let diffEvents :=
          StateDiffer.diffSnapshots prev state
            {| StateDiffer.DiffContext.gameId := gameId r;
               StateDiffer.DiffContext.roundNumber := roundNumber r;
               StateDiffer.DiffContext.localPlayerId := localPlayerId r |} in
        set_cardEvents (cardEvents r ++ diffEvents) r
    | None => r
    end in
  set_prevState (Some state) r.

(** [finalize(finalState)]: the recorder after it and the record handed to
    [onComplete].  [this.players!] is known at the one call site; [None] stands
    for a call without a player pair, which [ingest] never makes. *)
Definition finalize (now : string) (r : t) (finalState : IGameState.t)
  : t * option GameRecord.t :=
  let r := set_completed true r in
  let r :=
    set_snapshots
      (updateLast
         (fun last =>
            {| RoundSnapshot.round := RoundSnapshot.round last;
               RoundSnapshot.phase := RoundSnapshot.phase last;
               RoundSnapshot.capturedAt := RoundSnapshot.capturedAt last;
               RoundSnapshot.players := RoundSnapshot.players last;
               RoundSnapshot.logEntries :=
                 match currentRoundLogs r with
                 | [] => RoundSnapshot.logEntries last
                 | logs => RoundSnapshot.logEntries last ++ logs
                 end;
               RoundSnapshot.baseHpChanges :=
                 match currentRoundBaseHpChanges r with
                 | [] => RoundSnapshot.baseHpChanges last
                 | changes => RoundSnapshot.baseHpChanges last ++ changes
                 end |})
         (snapshots r))
      r in
  let winners := IGameState.winners finalState in
  let winner :=
    match winners with
    | [w] => Some w
    | _ => None
    end in
  (r,
   match players r with
   | Some both =>
       Some {| GameRecord.gameId := gameId r;
               GameRecord.startedAt := startedAt r;
               GameRecord.completedAt := now;
               GameRecord.format := format r;
               GameRecord.isLimitedFormat := isLimitedFormat r;
               GameRecord.players := both;
               GameRecord.winner := winner;
               GameRecord.rounds := roundNumber r;
               GameRecord.cardEvents := cardEvents r;
               GameRecord.rawLog := rawLog r;
               GameRecord.snapshots := snapshots r |}
   | None => None
   end).

(** What a call of [ingest] leaves: the recorder, the boolean it returns and
    the record it handed to the completion callback, if it called it. *)
Module Result.
Record t' : Type := mk {
  recorder : t;
  returned : bool;
  completion : option GameRecord.t
}.
End Result.

(** Lines 85-199 of [ingest]: everything between the two guards at its top
    and the completion check at its end. *)
Definition observe (now : string) (r : t) (state : IGameState.t) : t :=
  let r := resolveLocalPlayer r state in
  let r := capturePlayers r state in
  let r := accumulateLog r state in
  let r := trackRound now r state in
  diffStep r state.

(** [ingest(state)]; [now] is the clock reading of the call. *)
Definition ingest (now : string) (r : t) (state : IGameState.t) : Result.t' :=
  if completed r then Result.mk r true None
  else if negb (IGameState.id state =? gameId r) then Result.mk r false None
  else
    let r := observe now r state in
    match IGameState.winners state with
    | [] => Result.mk r false None
    | _ :: _ =>
        if hasPlayers r then
          let '(r, record) := finalize now r state in
          Result.mk r true record
        else Result.mk r false None
    end.

(** A recorder fed a sequence of snapshots, each with the clock reading of its
    call: the recorder at the end and the records handed to the completion
    callback, in order. *)
Fixpoint run (r : t) (inputs : list (string * IGameState.t))
  : t * list GameRecord.t :=
  match inputs with
  | [] => (r, [])
  | (now, state) :: rest =>
      let res := ingest now r state in
      let '(r', records) := run (Result.recorder res) rest in
      (r',
       match Result.completion res with
       | Some record => record :: records
       | None => records
       end)
  end.

(** The recorder after the calls. *)
Definition after (r : t) (inputs : list (string * IGameState.t)) : t :=
  fst (run r inputs).

(** The completion callbacks of the calls. *)
Definition completions (r : t) (inputs : list (string * IGameState.t))
  : list GameRecord.t :=
  snd (run r inputs).

(** The player pair is known in this call: it was known before, or the call
    captures it. *)
Definition playersKnown (r : t) (state : IGameState.t) : bool :=
  hasPlayers (capturePlayers (resolveLocalPlayer r state) state).

(** The call begins a round: the snapshot is in the action phase, the previous
    one was not, and the player pair is known (the test of line 139). *)
Definition beginsRound (r : t) (state : IGameState.t) : bool :=
  PhaseName_eqb (IGameState.phase state) Action
  && negb (isAction (prevPhase r))
  && playersKnown r state.

End GameRecorder.

(** ** [socketParser.ts] *)

Module SocketParser.

(** A decoded JSON value, as [JSON.parse] returns it.  [num] is the number
    type of the runtime. *)
Inductive json (num : Type) : Type :=
| JNull
| JBool (b : bool)
| JNum (n : num)
| JStr (s : string)
| JArr (items : list (json num))
| JObj (fields : list (string * json num)).

Arguments JNull {num}.
Arguments JBool {num} b.
Arguments JNum {num} n.
Arguments JStr {num} s.
Arguments JArr {num} items.
Arguments JObj {num} fields.

Inductive FrameType : Type := TEvent | TAck | TError | TOther.

(** [SocketIOFrame]: [{ type; event?; data? }] *)
Record SocketIOFrame (num : Type) : Type := mkFrame {
  type : FrameType;
  event : option string;
  data : option (list (json num))
}.

Arguments mkFrame {num} type event data.
Arguments type {num} s.
Arguments event {num} s.
Arguments data {num} s.

Definition EIO_MESSAGE : ascii := "4".
Definition SIO_EVENT : ascii := "2".
Definition SIO_ACK : ascii := "3".

(** [s.slice(n)] *)
Fixpoint slice (n : nat) (s : string) : string :=
  match n, s with
  | O, _ => s
  | S n', String _ s' => slice n' s'
  | S _, EmptyString => EmptyString
  end.

(** [s.startsWith(c)] for a one-character [c] *)
Definition startsWith (s : string) (c : ascii) : bool :=
  match s with
  | String c' _ => Ascii.eqb c' c
  | EmptyString => false
  end.

(** [\d] *)
Definition isDigit (c : ascii) : bool :=
  let n := nat_of_ascii c in (48 <=? n)%nat && (n <=? 57)%nat.

Fixpoint dropDigits (s : string) : string :=
  match s with
  | String c s' => if isDigit c then dropDigits s' else s
  | EmptyString => EmptyString
  end.

(** [body.replace(/^\d+(?=\[)/, '')]: a non-empty run of digits at the start
    is removed when the character after the longest such run is an opening
    bracket (a shorter run is followed by a digit, so it never matches). *)
Definition stripAckId (body : string) : string :=
  match body with
  | String c _ =>
      if isDigit c && startsWith (dropDigits body) "["
      then dropDigits body
      else body
  | EmptyString => body
  end.

Section Runtime.

(** The runtime: its numbers, [String(n)] on them and [JSON.parse], whose
    [SyntaxError] is [None]. *)
Variable num : Type.
Variable Number_toString : num -> string.
Variable JSON_parse : string -> option (json num).

(** [String(v)] for a decoded value. *)
Fixpoint String_of (v : json num) : string :=
  match v with
  | JNull => "null"
  | JBool true => "true"
  | JBool false => "false"
  | JNum n => Number_toString n
  | JStr s => s
  | JArr items =>
      String.concat ","
        (map (fun x => match x with
                       | JNull => ""
                       | _ => String_of x
                       end) items)
  | JObj _ => "[object Object]"
  end.

Definition parseFrame (raw : string) : option (SocketIOFrame num) :=
  if negb (startsWith raw EIO_MESSAGE) then None
  else
    let sioType := String.get 1 raw in
    if negb (match sioType with Some c => Ascii.eqb c SIO_EVENT | None => false end)
       && negb (match sioType with Some c => Ascii.eqb c SIO_ACK | None => false end)
    then Some (mkFrame TOther None None)
    else
      let body := slice 2 raw in
      let stripped :=
        if startsWith body "/" then
          match String.index 0 "," body with
          | None => None
          | Some commaIdx => Some (slice (commaIdx + 1) body)
          end
        else Some body in
      match stripped with
      | None => None
      | Some body =>
          let body := stripAckId body in
          if negb (startsWith body "[") then None
          else
            match JSON_parse body with
            | Some (JArr parsed) =>
                if match sioType with Some c => Ascii.eqb c SIO_EVENT | None => false end
                then
                  match parsed with
                  | [] => Some (mkFrame TEvent (Some "undefined") (Some []))
                  | event :: data =>
                      Some (mkFrame TEvent (Some (String_of event)) (Some data))
                  end
                else Some (mkFrame TAck None (Some parsed))
            | Some _ => None
            | None => None
            end
      end.

End Runtime.

(** The wire text of an event frame: ["42"] followed by the JSON text of the
    array [[E, P]]; [JSON_stringify] is the encoder of the sending side. *)
Definition encodeEvent {num : Type} (JSON_stringify : json num -> string)
    (E : string) (P : json num) : string :=
  "42" ++ JSON_stringify (JArr [JStr E; P]).

End SocketParser.

(** ** A JSON codec to run the frame parser with

    [JSON.parse] and [JSON.stringify] belong to the runtime, not to the
    repository; [parseFrame] above takes the decoder as a parameter.  [IntJSON]
    is a codec for the JSON texts whose numbers are integers, written without
    white space (as [JSON.stringify] writes them), over byte strings.  It
    instantiates the parameter where a frame is evaluated. *)

Module IntJSON.
Import SocketParser.
Local Open Scope string_scope.

Definition quote : ascii := "034".
Definition backslash : ascii := "092".

Definition hexDigit (n : nat) : ascii :=
  nth n ["0"; "1"; "2"; "3"; "4"; "5"; "6"; "7"; "8"; "9";
         "a"; "b"; "c"; "d"; "e"; "f"]%char "0"%char.

Definition hexValue (c : ascii) : option nat :=
  let n := nat_of_ascii c in
  if (48 <=? n)%nat && (n <=? 57)%nat then Some (n - 48)%nat
  else if (97 <=? n)%nat && (n <=? 102)%nat then Some (n - 87)%nat
  else if (65 <=? n)%nat && (n <=? 70)%nat then Some (n - 55)%nat
  else None.

(** The escape of one character inside a JSON string. *)
Definition escapeChar (c : ascii) : string :=
  let n := nat_of_ascii c in
  if Ascii.eqb c quote then String backslash (String quote "")
  else if Ascii.eqb c backslash then String backslash (String backslash "")
  else if (n =? 8)%nat then String backslash "b"
  else if (n =? 9)%nat then String backslash "t"
  else if (n =? 10)%nat then String backslash "n"
  else if (n =? 12)%nat then String backslash "f"
  else if (n =? 13)%nat then String backslash "r"
  else if (n <? 32)%nat then
    String backslash
      (String "u" (String "0" (String "0"
         (String (hexDigit (n / 16)) (String (hexDigit (n mod 16)) "")))))
  else String c "".

Fixpoint escape (s : string) : string :=
  match s with
  | EmptyString => EmptyString
  | String c s' => escapeChar c ++ escape s'
  end.

Definition quoteString (s : string) : string :=
  String quote (escape s ++ String quote "").

Fixpoint stringify (v : json Z) : string :=
  match v with
  | JNull => "null"
  | JBool true => "true"
  | JBool false => "false"
  | JNum n => JS.String_of_Z n
  | JStr s => quoteString s
  | JArr [] => "[]"
  | JArr (x :: rest) =>
      "[" ++ stringify x
      ++ (fix tail (l : list (json Z)) : string :=
            match l with
            | [] => "]"
            | y :: l' => "," ++ stringify y ++ tail l'
            end) rest
  | JObj [] => "{}"
  | JObj ((k, x) :: rest) =>
      "{" ++ quoteString k ++ ":" ++ stringify x
      ++ (fix tail (l : list (string * json Z)) : string :=
            match l with
            | [] => "}"
            | (k', y) :: l' => "," ++ quoteString k' ++ ":" ++ stringify y ++ tail l'
            end) rest
  end.

(** The text after the first item of an array, and after the first field of
    an object (the two inner loops of [stringify]). *)
Fixpoint arrTail (l : list (json Z)) : string :=
  match l with
  | [] => "]"
  | y :: l' => "," ++ stringify y ++ arrTail l'
  end.

Fixpoint objTail (l : list (string * json Z)) : string :=
  match l with
  | [] => "}"
  | (k, y) :: l' => "," ++ quoteString k ++ ":" ++ stringify y ++ objTail l'
  end.

(** The characters of a string literal after its opening quote, up to and
    with the closing quote: the decoded string and the rest of the input. *)
Fixpoint parseChars (s : string) : option (string * string) :=
  match s with
  | EmptyString => None
  | String c rest =>
      if Ascii.eqb c quote then Some (EmptyString, rest)
      else if Ascii.eqb c backslash then
        match rest with
        | String e rest1 =>
            let simple (d : ascii) :=
              match parseChars rest1 with
              | Some (str, r) => Some (String d str, r)
              | None => None
              end in
            if Ascii.eqb e quote then simple quote
            else if Ascii.eqb e backslash then simple backslash
            else if Ascii.eqb e "/" then simple "/"%char
            else if Ascii.eqb e "b" then simple (ascii_of_nat 8)
            else if Ascii.eqb e "t" then simple (ascii_of_nat 9)
            else if Ascii.eqb e "n" then simple (ascii_of_nat 10)
            else if Ascii.eqb e "f" then simple (ascii_of_nat 12)
            else if Ascii.eqb e "r" then simple (ascii_of_nat 13)
            else if Ascii.eqb e "u" then
              match rest1 with
              | String h1 (String h2 (String h3 (String h4 rest2))) =>
                  match hexValue h1, hexValue h2, hexValue h3, hexValue h4 with
                  | Some 0%nat, Some 0%nat, Some a, Some b =>
                      match parseChars rest2 with
                      | Some (str, r) => Some (String (ascii_of_nat (16 * a + b)) str, r)
                      | None => None
                      end
                  | _, _, _, _ => None
                  end
              | _ => None
              end
            else None
        | EmptyString => None
        end
      else if (nat_of_ascii c <? 32)%nat then None
      else
        match parseChars rest with
        | Some (str, r) => Some (String c str, r)
        | None => None
        end
  end.

(** The longest prefix of digits and the rest. *)
Fixpoint spanDigits (s : string) : string * string :=
  match s with
  | String c rest =>
      if isDigit c then
        let '(ds, r) := spanDigits rest in (String c ds, r)
      else (EmptyString, s)
  | EmptyString => (EmptyString, EmptyString)
  end.

(** An integer literal in the form [String(n)] writes it. *)
Definition parseNumber (s : string) : option (Z * string) :=
  let '(lit, rest) :=
    match s with
    | String "-" s' => let '(ds, r) := spanDigits s' in (String "-" ds, r)
    | _ => spanDigits s
    end in
  match NilZero.int_of_string lit with
  | Some d =>
      if String.eqb (JS.String_of_Z (Z.of_int d)) lit
      then Some (Z.of_int d, rest)
      else None
  | None => None
  end.

(** [expect w s]: [s] without its prefix [w]. *)
Fixpoint expect (w s : string) : option string :=
  match w, s with
  | EmptyString, _ => Some s
  | String a w', String b s' => if Ascii.eqb a b then expect w' s' else None
  | String _ _, EmptyString => None
  end.

Fixpoint parseValue (fuel : nat) (s : string) : option (json Z * string) :=
  match fuel with
  | O => None
  | S fuel =>
      match s with
      | EmptyString => None
      | String c rest =>
          if Ascii.eqb c "n" then option_map (pair JNull) (expect "ull" rest)
          else if Ascii.eqb c "t" then option_map (pair (JBool true)) (expect "rue" rest)
          else if Ascii.eqb c "f" then option_map (pair (JBool false)) (expect "alse" rest)
          else if Ascii.eqb c quote then
            match parseChars rest with
            | Some (str, r) => Some (JStr str, r)
            | None => None
            end
          else if Ascii.eqb c "[" then
            if startsWith rest "]" then Some (JArr [], slice 1 rest)
            else
              match parseValue fuel rest with
              | Some (v, r) =>
                  match parseTail fuel r with
                  | Some (vs, r') => Some (JArr (v :: vs), r')
                  | None => None
                  end
              | None => None
              end
          else if Ascii.eqb c "{" then
            if startsWith rest "}" then Some (JObj [], slice 1 rest)
            else
              match parseField fuel rest with
              | Some (kv, r) =>
                  match parseFieldsTail fuel r with
                  | Some (kvs, r') => Some (JObj (kv :: kvs), r')
                  | None => None
                  end
              | None => None
              end
          else
            match parseNumber s with
            | Some (n, r) => Some (JNum n, r)
            | None => None
            end
      end
  end
with parseTail (fuel : nat) (s : string) : option (list (json Z) * string) :=
  match fuel with
  | O => None
  | S fuel =>
      match s with
      | String c rest =>
          if Ascii.eqb c "]" then Some ([], rest)
          else if Ascii.eqb c "," then
            match parseValue fuel rest with
            | Some (v, r) =>
                match parseTail fuel r with
                | Some (vs, r') => Some (v :: vs, r')
                | None => None
                end
            | None => None
            end
          else None
      | EmptyString => None
      end
  end
with parseField (fuel : nat) (s : string) : option ((string * json Z) * string) :=
  match fuel with
  | O => None
  | S fuel =>
      match s with
      | String c rest =>
          if Ascii.eqb c quote then
            match parseChars rest with
            | Some (k, String colon r) =>
                if Ascii.eqb colon ":" then
                  match parseValue fuel r with
                  | Some (v, r') => Some ((k, v), r')
                  | None => None
                  end
                else None
            | _ => None
            end
          else None
      | EmptyString => None
      end
  end
with parseFieldsTail (fuel : nat) (s : string)
  : option (list (string * json Z) * string) :=
  match fuel with
  | O => None
  | S fuel =>
      match s with
      | String c rest =>
          if Ascii.eqb c "}" then Some ([], rest)
          else if Ascii.eqb c "," then
            match parseField fuel rest with
            | Some (kv, r) =>
                match parseFieldsTail fuel r with
                | Some (kvs, r') => Some (kv :: kvs, r')
                | None => None
                end
            | None => None
            end
          else None
      | EmptyString => None
      end
  end.

(** Fuel that [parseValue] needs for the text of a value. *)
Fixpoint size (v : json Z) : nat :=
  match v with
  | JArr l =>
      (fix sizeItems (l : list (json Z)) : nat :=
         match l with
         | [] => 1
         | x :: l' => S (size x + sizeItems l')
         end) l
  | JObj l =>
      (fix sizeFields (l : list (string * json Z)) : nat :=
         match l with
         | [] => 1
         | (_, x) :: l' => S (S (size x) + sizeFields l')
         end) l
  | _ => 1
  end.

Fixpoint sizeItems (l : list (json Z)) : nat :=
  match l with
  | [] => 1
  | x :: l' => S (size x + sizeItems l')
  end.

Fixpoint sizeFields (l : list (string * json Z)) : nat :=
  match l with
  | [] => 1
  | (_, x) :: l' => S (S (size x) + sizeFields l')
  end.

(** The next character, if any, is not a digit: what may follow a number. *)
Definition noDigitAhead (s : string) : Prop :=
  match s with
  | String c _ => isDigit c = false
  | EmptyString => True
  end.

(** The text of a number starts with a minus sign or a digit. *)
Definition numberStart (c : ascii) : bool := Ascii.eqb c "-" || isDigit c.

(** The decoder: a value that spans the whole text. *)
Definition parse (s : string) : option (json Z) :=
  match parseValue (2 * String.length s + 2) s with
  | Some (v, EmptyString) => Some v
  | _ => None
  end.

(** What the round trip asks of one value: with enough fuel, and followed by
    anything that does not continue a number, its text is read back as it. *)
Definition parsesBack (v : json Z) : Prop :=
  forall fuel rest, (size v <= fuel)%nat -> noDigitAhead rest ->
    parseValue fuel (stringify v ++ rest) = Some (v, rest).

(** The frame parser run on this codec. *)
Definition parseFrame (raw : string) : option (SocketIOFrame Z) :=
  SocketParser.parseFrame Z JS.String_of_Z parse raw.

End IntJSON.

(** ** Concrete snapshots

    The inputs at which the properties below are evaluated. *)

Module Scenario.

Definition card (uuid id : string) : CardSummary.t :=
  CardSummary.mk uuid id None None None None None.

Definition piles (hand resources groundArena spaceArena discard : list CardSummary.t)
  : CardPiles.t :=
  CardPiles.mk hand resources groundArena spaceArena discard None.

Definition player (id name : string) (cardPiles : CardPiles.t) (numCardsInDeck : Z)
  : PlayerStateSummary.t :=
  PlayerStateSummary.mk id name cardPiles (card "leader-1" "leader")
    (card "base-1" "base") numCardsInDeck 0%Z false.

Definition state (id playerUpdate : string)
    (players : JS.Obj PlayerStateSummary.t) (phase : PhaseName)
    (winners : list string) : IGameState.t :=
  IGameState.mk id playerUpdate players phase [] Premier winners.

(** All players are diffed. *)
Definition ctx : StateDiffer.DiffContext.t :=
  StateDiffer.DiffContext.mk "g1" 1%Z None.

Definition u1 : CardSummary.t := card "u1" "han-solo".

(** Deck 40 to 38 while one new card shows in the hand. *)
Definition drawTwoSeeOne_prev : IGameState.t :=
  state "g1" "" [("A", player "pA" "Alice" (piles [] [] [] [] []) 40%Z)] Action [].
Definition drawTwoSeeOne_next : IGameState.t :=
  state "g1" "" [("A", player "pA" "Alice" (piles [u1] [] [] [] []) 38%Z)] Action [].

(** Scenario D: deck 40 to 38, nothing new in the (face-down) hand. *)
Definition faceDown_prev : IGameState.t :=
  state "g1" "" [("B", player "pB" "Bob" (piles [] [] [] [] []) 40%Z)] Action [].
Definition faceDown_next : IGameState.t :=
  state "g1" "" [("B", player "pB" "Bob" (piles [] [] [] [] []) 38%Z)] Action [].

(** A card returns from the discard pile to the hand; the deck stays at 30. *)
Definition returned_prev : IGameState.t :=
  state "g1" "" [("A", player "pA" "Alice" (piles [] [] [] [] [u1]) 30%Z)] Action [].
Definition returned_next : IGameState.t :=
  state "g1" "" [("A", player "pA" "Alice" (piles [u1] [] [] [] []) 30%Z)] Action [].

(** Scenario C: [u1] goes from the hand to the ground arena. *)
Definition deploy_prev : IGameState.t :=
  state "g1" "" [("A", player "pA" "Alice" (piles [u1] [] [] [] []) 30%Z)] Action [].
Definition deploy_next : IGameState.t :=
  state "g1" "" [("A", player "pA" "Alice" (piles [] [] [u1] [] []) 30%Z)] Action [].

(** [u1] leaves the hand and the next snapshot lists it in the ground arena
    and in the discard pile. *)
Definition twoZones_next : IGameState.t :=
  state "g1" "" [("A", player "pA" "Alice" (piles [] [] [u1] [] [u1]) 30%Z)] Action [].

(** Two players, Alice first. *)
Definition twoPlayers : JS.Obj PlayerStateSummary.t :=
  [("A", player "pA" "Alice" (piles [] [] [] [] []) 50%Z);
   ("B", player "pB" "Bob" (piles [] [] [] [] []) 50%Z)].

(** Scenario B: Alice has won; [playerUpdate] names her key. *)
Definition aliceWon : IGameState.t :=
  state "g1" "A" twoPlayers Action ["Alice"].

(** The same with a [playerUpdate] that matches no key, name or id. *)
Definition aliceWon_unresolved : IGameState.t :=
  state "g1" "nobody" twoPlayers Action ["Alice"].

(** A game that ends in the setup phase. *)
Definition wonInSetup : IGameState.t :=
  state "g1" "A" twoPlayers Setup ["Alice"].

(** An action-phase snapshot with one player key, then one with two. *)
Definition actionOnePlayer : IGameState.t :=
  state "g1" "" [("A", player "pA" "Alice" (piles [] [] [] [] []) 50%Z)] Action [].
Definition actionTwoPlayers : IGameState.t :=
  state "g1" "" twoPlayers Action [].

(** The two players of [twoPlayers], Bob's key first. *)
Definition bobFirst : IGameState.t :=
  state "g1" ""
    [("B", player "pB" "Bob" (piles [] [] [] [] []) 50%Z);
     ("A", player "pA" "Alice" (piles [] [] [] [] []) 50%Z)]
    Action [].

(** A game-state payload as it comes off the wire. *)
Definition payload : SocketParser.json Z :=
  SocketParser.JObj
    [("id", SocketParser.JStr "g1");
     ("players", SocketParser.JObj []);
     ("winners", SocketParser.JArr []);
     ("messageOffset", SocketParser.JNum 12%Z)].

(** A recorder for game ["g1"], created at ["t0"]. *)
Definition fresh : GameRecorder.t := GameRecorder.new "g1" "t0".

(** The recorder after Scenario B. *)
Definition finalized : GameRecorder.t :=
  GameRecorder.after fresh [("t1", aliceWon)].

End Scenario.

(** ** What the properties speak of *)

(** [uuid] leaves the hand of the player: in the hand of [p0], not in the
    hand of [p1]. *)
Definition leavesHand (p0 p1 : PlayerStateSummary.t) (uuid : string) : Prop :=
  In uuid (StateDiffer.uuidSet (CardPiles.hand (PlayerStateSummary.cardPiles p0)))
  /\ ~ In uuid (StateDiffer.uuidSet (CardPiles.hand (PlayerStateSummary.cardPiles p1))).

(** [uuid] is in the arena of [p1] and was not in the arena of [p0]. *)
Definition newlyInArena (p0 p1 : PlayerStateSummary.t) (uuid : string) : Prop :=
  In uuid (StateDiffer.uuidSet (StateDiffer.allArena p1))
  /\ ~ In uuid (StateDiffer.uuidSet (StateDiffer.allArena p0)).

(** What the recorder keeps true of itself between two calls of [ingest]. *)
Module RecorderInvariant.

(** A card event of game [g] with a 1-based count and a round number between
    0 and [maxRound]. *)
Definition eventOk (g : string) (maxRound : Z) (e : CardEvent.t) : Prop :=
  CardEvent.gameId e = g
  /\ (1 <= CardEvent.count e)%Z
  /\ (0 <= CardEvent.roundNumber e <= maxRound)%Z.

(** A base HP data point without a negative value. *)
Definition hpOk (c : BaseHpChange.t) : Prop :=
  (0 <= BaseHpChange.youHp c)%Z /\ (0 <= BaseHpChange.oppHp c)%Z.

(** Round snapshots in strictly increasing round order, with rounds between 1
    and [n], and without a negative base HP. *)
Definition snapshotsOk (n : Z) (snaps : list RoundSnapshot.t) : Prop :=
  StronglySorted Z.lt (map RoundSnapshot.round snaps)
  /\ Forall (fun s => (1 <= RoundSnapshot.round s <= n)%Z) snaps
  /\ Forall (fun s => Forall hpOk (RoundSnapshot.baseHpChanges s)) snaps.

(** The limited-format flag is that of the smaller starting deck. *)
Definition limitedOk (isLimitedFormat : bool) (both : GamePlayer.t * GamePlayer.t) : Prop :=
  isLimitedFormat
  = (Z.min (GamePlayer.deckSize (fst both)) (GamePlayer.deckSize (snd both))
     <=? GameRecorder.LIMITED_DECK_SIZE_THRESHOLD)%Z.

Definition holds (r : GameRecorder.t) : Prop :=
  (0 <= GameRecorder.roundNumber r)%Z
  /\ Forall (eventOk (GameRecorder.gameId r) (Z.max 1 (GameRecorder.roundNumber r)))
            (GameRecorder.cardEvents r)
  /\ snapshotsOk (GameRecorder.roundNumber r) (GameRecorder.snapshots r)
  /\ Forall hpOk (GameRecorder.currentRoundBaseHpChanges r)
  /\ (forall both, GameRecorder.players r = Some both ->
        limitedOk (GameRecorder.isLimitedFormat r) both).

(** The same of a finished record. *)
Definition recordOk (record : GameRecord.t) : Prop :=
  (0 <= GameRecord.rounds record)%Z
  /\ Forall (eventOk (GameRecord.gameId record) (Z.max 1 (GameRecord.rounds record)))
            (GameRecord.cardEvents record)
  /\ snapshotsOk (GameRecord.rounds record) (GameRecord.snapshots record)
  /\ limitedOk (GameRecord.isLimitedFormat record) (GameRecord.players record).

End RecorderInvariant.


(** A string of decimal digits ([\d*]). *)
Definition allDigits (s : string) : bool :=
  forallb SocketParser.isDigit (list_ascii_of_string s).

(** ** Further snapshots and runs *)

Module DifferCases.
Import Scenario.

(** Only Alice, the local player, is diffed. *)
Definition localCtx : StateDiffer.DiffContext.t :=
  StateDiffer.DiffContext.mk "g1" 1%Z (Some "A").

Definition u2 : CardSummary.t := card "u2" "chewbacca".

(** Alice and Bob each move a unit from the hand to the ground arena. *)
Definition bothDeploy_prev : IGameState.t :=
  state "g1" ""
    [("A", player "pA" "Alice" (piles [u1] [] [] [] []) 30%Z);
     ("B", player "pB" "Bob" (piles [u2] [] [] [] []) 30%Z)]
    Action [].
Definition bothDeploy_next : IGameState.t :=
  state "g1" ""
    [("A", player "pA" "Alice" (piles [] [] [u1] [] []) 30%Z);
     ("B", player "pB" "Bob" (piles [] [] [u2] [] []) 30%Z)]
    Action [].

(** An event card: [u1] goes from the hand to the discard pile. *)
Definition eventCard_next : IGameState.t :=
  state "g1" "" [("A", player "pA" "Alice" (piles [] [] [] [] [u1]) 30%Z)] Action [].

(** [u1] goes from the hand to the resources. *)
Definition resourced_next : IGameState.t :=
  state "g1" "" [("A", player "pA" "Alice" (piles [] [u1] [] [] []) 30%Z)] Action [].

End DifferCases.

Module RecorderCases.
Import Scenario.

Definition said (date text : string) : IChatEntry.t :=
  IChatEntry.mk date (ArrayMessage [PartString text]).

(** Alice holds [u1]; her starting deck has 30 cards, Bob's 50. *)
Definition holding : JS.Obj PlayerStateSummary.t :=
  [("A", player "pA" "Alice" (piles [u1] [] [] [] []) 30%Z);
   ("B", player "pB" "Bob" (piles [] [] [] [] []) 50%Z)].

(** Alice has put [u1] in the ground arena. *)
Definition deployed : JS.Obj PlayerStateSummary.t :=
  [("A", player "pA" "Alice" (piles [] [] [u1] [] []) 30%Z);
   ("B", player "pB" "Bob" (piles [] [] [] [] []) 50%Z)].

(** A game of one round, with a snapshot of another game in between: the
    action phase begins, Alice deploys [u1], then she wins. *)
Definition oneRound : list (string * IGameState.t) :=
  [("t1", IGameState.mk "g1" "A" holding Action [said "d1" "hello"] Premier []);
   ("t2", IGameState.mk "g2" "A" holding Action [said "d2" "elsewhere"] Premier []);
   ("t3", IGameState.mk "g1" "A" deployed Action [said "d3" "deploy"] Premier []);
   ("t4", IGameState.mk "g1" "A" deployed Action [said "d4" "bye"] Premier ["Alice"]);
   ("t5", IGameState.mk "g1" "A" deployed Action [said "d5" "late"] Premier ["Alice"])].

(** Bob is the local player, and Alice's key comes first. *)
Definition bobLocal : IGameState.t :=
  state "g1" "B" twoPlayers Action [].

End RecorderCases.

(** The format setting of the popup and the dashboard:
    ['premier' | 'limited' | 'eternal']. *)
Inductive FormatMode : Type := ModePremier | ModeLimited | ModeEternal.

(** ** [content.ts] *)

Module Content.

(** The module state of the content script: the two settings and the map
    [recorders] from game id to recorder. *)
Record t : Type := mk {
  trackingEnabled : bool;
  forceFormat : FormatMode;
  recorders : list (string * GameRecorder.t)
}.

(** The state the script is loaded with. *)
Definition initial : t :=
  {| trackingEnabled := true; forceFormat := ModePremier; recorders := [] |}.

Definition set_recorders (v : list (string * GameRecorder.t)) (c : t) : t :=
  {| trackingEnabled := trackingEnabled c;
     forceFormat := forceFormat c;
     recorders := v |}.

(** [Map.prototype.delete] *)
Definition map_delete {V : Type} (m : list (string * V)) (k : string)
  : list (string * V) :=
  filter (fun e => negb (fst e =? k)) m.

(** [handleGameComplete(record)]: the payload of the [GAME_RECORD_SAVED]
    message it sends, [None] when it sends none. *)
Definition handleGameComplete (c : t) (record : GameRecord.t) : option GameRecord.t :=
  if negb (trackingEnabled c) then None
  else
    Some
      match forceFormat c with
      | ModeLimited =>
          {| GameRecord.gameId := GameRecord.gameId record;
             GameRecord.startedAt := GameRecord.startedAt record;
             GameRecord.completedAt := GameRecord.completedAt record;
             GameRecord.format := GameRecord.format record;
             GameRecord.isLimitedFormat := true;
             GameRecord.players := GameRecord.players record;
             GameRecord.winner := GameRecord.winner record;
             GameRecord.rounds := GameRecord.rounds record;
             GameRecord.cardEvents := GameRecord.cardEvents record;
             GameRecord.rawLog := GameRecord.rawLog record;
             GameRecord.snapshots := GameRecord.snapshots record |}
      | ModeEternal =>
          {| GameRecord.gameId := GameRecord.gameId record;
             GameRecord.startedAt := GameRecord.startedAt record;
             GameRecord.completedAt := GameRecord.completedAt record;
             GameRecord.format := OpenFormat;
             GameRecord.isLimitedFormat := GameRecord.isLimitedFormat record;
             GameRecord.players := GameRecord.players record;
             GameRecord.winner := GameRecord.winner record;
             GameRecord.rounds := GameRecord.rounds record;
             GameRecord.cardEvents := GameRecord.cardEvents record;
             GameRecord.rawLog := GameRecord.rawLog record;
             GameRecord.snapshots := GameRecord.snapshots record |}
      | ModePremier => record
      end.

(** Lines 138-145: feed the state to the recorder of its game.  [ingest]
    changes the recorder object that the map holds, and calls
    [handleGameComplete] when it finalizes. *)
Definition feed (now : string) (c : t) (state : IGameState.t)
  : t * option GameRecord.t :=
  let gameId := IGameState.id state in
  match JS.map_get (recorders c) gameId with
  | None => (c, None)
  | Some recorder =>
      let res := GameRecorder.ingest now recorder state in
      let sent :=
        match GameRecorder.Result.completion res with
        | Some record => handleGameComplete c record
        | None => None
        end in
      let held := JS.map_set (recorders c) gameId (GameRecorder.Result.recorder res) in
      (set_recorders
         (if GameRecorder.Result.returned res then map_delete held gameId else held)
         c,
       sent)
  end.

(** Lines 112-145 of the message listener: what it does with a game state.
    [t0] is the clock reading of the constructor of a new recorder, [now] that
    of [ingest].  The result is the new module state and the record sent to
    the background, if one is sent. *)
Definition onGameState (t0 now : string) (c : t) (state : IGameState.t)
  : t * option GameRecord.t :=
  let gameId := IGameState.id state in
  if JS.map_has (recorders c) gameId then
    match JS.map_get (recorders c) gameId with
    | Some rec =>
        if GameRecorder.completed rec
        then (set_recorders (map_delete (recorders c) gameId) c, None)
        else feed now c state
    | None => feed now c state
    end
  else
    match IGameState.winners state with
    | _ :: _ => (c, None)
    | [] =>
        if negb (trackingEnabled c) then (c, None)
        else
          feed now
            (set_recorders
               (JS.map_set (recorders c) gameId (GameRecorder.new gameId t0)) c)
            state
    end.

(** What happens to the content script: a storage change of one of the two
    settings ([trackingEnabled] is [newValue !== false], [formatMode] is
    [newValue || 'premier']), or a game state off the wire with the clock
    readings of its handling. *)
Inductive Event : Type :=
| TrackingChanged (enabled : bool)
| FormatChanged (mode : FormatMode)
| GameState (t0 now : string) (state : IGameState.t).

Definition step (c : t) (e : Event) : t * option GameRecord.t :=
  match e with
  | TrackingChanged enabled =>
      ({| trackingEnabled := enabled;
          forceFormat := forceFormat c;
          recorders := recorders c |}, None)
  | FormatChanged mode =>
      ({| trackingEnabled := trackingEnabled c;
          forceFormat := mode;
          recorders := recorders c |}, None)
  | GameState t0 now state => onGameState t0 now c state
  end.

(** The script after a sequence of events, and the records it sent. *)
Fixpoint run (c : t) (events : list Event) : t * list GameRecord.t :=
  match events with
  | [] => (c, [])
  | e :: rest =>
      let '(c1, sent) := step c e in
      let '(c2, more) := run c1 rest in
      (c2, match sent with Some record => record :: more | None => more end)
  end.

(** Every recorder in the map is stored under its own game id and is not
    finalized, and no game id is there twice. *)
Definition registryOk (c : t) : Prop :=
  NoDup (map fst (recorders c))
  /\ forall k rec, In (k, rec) (recorders c) ->
       GameRecorder.gameId rec = k /\ GameRecorder.completed rec = false.

End Content.

(** ** States of the content script *)

Module ContentCases.

(** The script after the first state of game [g1]: it holds a recorder for
    the game. *)
Definition playing : Content.t :=
  fst (Content.run Content.initial
         [Content.GameState "t0" "t1" Scenario.actionTwoPlayers]).

(** The same after tracking was switched off. *)
Definition switchedOff : Content.t :=
  fst (Content.run Content.initial
         [Content.GameState "t0" "t1" Scenario.actionTwoPlayers;
          Content.TrackingChanged false]).

(** A state of another game. *)
Definition otherGame : IGameState.t :=
  Scenario.state "g2" "" Scenario.twoPlayers Action [].

End ContentCases.

(** ** [dashboard.ts]: the base HP chart *)

Module Dashboard.

(** [Math.max(0, (p.base.hp ?? 30) - (p.base.damage ?? 0))] *)
Definition snapshotHp (p : PlayerSnapshot.t) : Z :=
  JS.Math_max 0
    ((CardSummary.hp (PlayerSnapshot.base p) ?? 30)
     - (CardSummary.damage (PlayerSnapshot.base p) ?? 0))%Z.

(** What [buildBaseHpSeries] returns; a round marker is [{ index, label }]. *)
Module Series.
Record t : Type := mk {
  youValues : list Z;
  oppValues : list Z;
  roundMarkers : list (Z * string)
}.
End Series.

(** One turn of the loop over the snapshots ([baseHpChanges] is a required
    array, so [snap.baseHpChanges ?? []] is [snap.baseHpChanges]). *)
Definition seriesStep (s : Series.t) (snap : RoundSnapshot.t) : Series.t :=
  {| Series.youValues :=
       (Series.youValues s ++ [snapshotHp (fst (RoundSnapshot.players snap))])
       ++ map BaseHpChange.youHp (RoundSnapshot.baseHpChanges snap);
     Series.oppValues :=
       (Series.oppValues s ++ [snapshotHp (snd (RoundSnapshot.players snap))])
       ++ map BaseHpChange.oppHp (RoundSnapshot.baseHpChanges snap);
     Series.roundMarkers :=
       Series.roundMarkers s
       ++ [(Z.of_nat (List.length (Series.youValues s)),
            ("R" ++ JS.String_of_Z (RoundSnapshot.round snap))%string)] |}.

Definition buildBaseHpSeries (snaps : list RoundSnapshot.t) : Series.t :=
  fold_left seriesStep snaps
    {| Series.youValues := []; Series.oppValues := []; Series.roundMarkers := [] |}.

(** What the loop of [buildBaseHpSeries] keeps. *)
Definition seriesOk (s : Series.t) : Prop :=
  List.length (Series.youValues s) = List.length (Series.oppValues s)
  /\ Forall (fun v => (0 <= v)%Z) (Series.youValues s)
  /\ Forall (fun v => (0 <= v)%Z) (Series.oppValues s)
  /\ StronglySorted Z.lt (map fst (Series.roundMarkers s))
  /\ Forall (fun m => (0 <= fst m < Z.of_nat (List.length (Series.youValues s)))%Z)
            (Series.roundMarkers s).

End Dashboard.

(** ** [cardUtils.ts] *)

Module CardUtils.

Definition S3_BASE : string := "https://karabast-data.s3.amazonaws.com".

(** [s.padStart(n, c)] for a pad [c] of one character. *)
Definition padStart (n : nat) (c : ascii) (s : string) : string :=
  (string_of_list_ascii (repeat c (n - String.length s)) ++ s)%string.

(** [cardImageUrl(setId)]; the card number is an integer, and [0] is the
    falsy one. *)
Definition cardImageUrl (setId : option SetId) : option string :=
  match setId with
  | None => None
  | Some (set, number) =>
      if negb (JS.truthy set) || (number =? 0)%Z then None
      else
        let num := padStart 3 "0" (JS.String_of_Z number) in
        Some (S3_BASE ++ "/cards/" ++ set ++ "/standard/large/" ++ num ++ ".webp?v=2")%string
  end.

Definition leaderDeployedImageUrl (setId : option SetId) : option string :=
  match setId with
  | None => None
  | Some (set, number) =>
      if negb (JS.truthy set) || (number =? 0)%Z then None
      else
        let num := padStart 3 "0" (JS.String_of_Z number) in
        Some (S3_BASE ++ "/cards/" ++ set ++ "/standard/large/" ++ num
                ++ "-base.webp?v=2")%string
  end.

Definition CARD_BACK_URL : string := (S3_BASE ++ "/game/swu-cardback.webp")%string.

End CardUtils.

(** ** A game with a hit on a base *)

Module ChartCases.
Import Scenario.

(** A player whose base has 30 hit points and [damage] points of damage. *)
Definition hurt (id name : string) (damage : Z) : PlayerStateSummary.t :=
  PlayerStateSummary.mk id name (piles [] [] [] [] []) (card "leader-1" "leader")
    (CardSummary.mk "base-1" "base" None None (Some damage) (Some 30%Z) None)
    50%Z 0%Z false.

(** Round 1 begins, Bob's base takes 4 points of damage, then Alice wins. *)
Definition oneHit : list (string * IGameState.t) :=
  [("t1", state "g1" "A" [("A", hurt "pA" "Alice" 0%Z); ("B", hurt "pB" "Bob" 0%Z)]
            Action []);
   ("t2", state "g1" "A" [("A", hurt "pA" "Alice" 0%Z); ("B", hurt "pB" "Bob" 4%Z)]
            Action []);
   ("t3", state "g1" "A" [("A", hurt "pA" "Alice" 0%Z); ("B", hurt "pB" "Bob" 4%Z)]
            Action ["Alice"])].

End ChartCases.

(** ** [db.ts]

    The IndexedDB database is the state that the functions of [db.ts] read
    and write; each function is a transformer of it (the [await]s of the
    source are sequential).  An object store with key path [gameId] is the
    list of its rows in key order, as [getAll] returns them; the store
    [card_events], whose keys are auto-incremented, is the list of its rows in
    insertion order, which is its key order. *)

Module Db.

(** [StoredGame = Omit<GameRecord, 'cardEvents' | 'rawLog' | 'snapshots'>] *)
Module StoredGame.
Record t : Type := mk {
  gameId : string;
  startedAt : string;
  completedAt : string;
  format : SwuGameFormat;
  isLimitedFormat : bool;
  hidden : option bool;
  players : GamePlayer.t * GamePlayer.t;
  winner : option string;
  rounds : Z
}.
End StoredGame.

(** An object store with an in-line string key. *)
Definition Store (V : Type) : Type := list (string * V).

(** [store.put(row)] under key [k]: the row takes the place of the row of the
    same key, or its place in key order (strings are ordered by code units). *)
Fixpoint put {V : Type} (s : Store V) (k : string) (v : V) : Store V :=
  match s with
  | [] => [(k, v)]
  | (k', v') :: s' =>
      match String.compare k k' with
      | Lt => (k, v) :: s
      | Eq => (k, v) :: s'
      | Gt => (k', v') :: put s' k v
      end
  end.

(** [store.get(k)] *)
Definition get {V : Type} (s : Store V) (k : string) : option V := JS.get s k.

(** [store.delete(k)] *)
Definition delete {V : Type} (s : Store V) (k : string) : Store V :=
  filter (fun row => negb (fst row =? k)) s.

(** [store.getAll()] and [store.getAllKeys()] *)
Definition getAll {V : Type} (s : Store V) : list V := map snd s.
Definition getAllKeys {V : Type} (s : Store V) : list string := map fst s.

(** The four object stores of [KBTrackerDB]. *)
Record t : Type := mk {
  games : Store StoredGame.t;
  card_events : list CardEvent.t;
  raw_logs : Store (list IChatEntry.t);
  game_snapshots : Store (list RoundSnapshot.t)
}.

(** The database after the [upgrade] of [getDb]. *)
Definition empty : t :=
  {| games := []; card_events := []; raw_logs := []; game_snapshots := [] |}.

(** [index('by_game')] of [card_events] at [gameId]. *)
Definition by_game (events : list CardEvent.t) (gameId : string) : list CardEvent.t :=
  filter (fun e => CardEvent.gameId e =? gameId) events.

(** The header that [saveGameRecord] writes: the listed fields, without
    [hidden]. *)
Definition headerOf (record : GameRecord.t) : StoredGame.t :=
  {| StoredGame.gameId := GameRecord.gameId record;
     StoredGame.startedAt := GameRecord.startedAt record;
     StoredGame.completedAt := GameRecord.completedAt record;
     StoredGame.format := GameRecord.format record;
     StoredGame.isLimitedFormat := GameRecord.isLimitedFormat record;
     StoredGame.hidden := None;
     StoredGame.players := GameRecord.players record;
     StoredGame.winner := GameRecord.winner record;
     StoredGame.rounds := GameRecord.rounds record |}.

Definition saveGameRecord (db : t) (record : GameRecord.t) : t :=
  {| games := put (games db) (GameRecord.gameId record) (headerOf record);
     card_events := card_events db ++ GameRecord.cardEvents record;
     raw_logs := put (raw_logs db) (GameRecord.gameId record) (GameRecord.rawLog record);
     game_snapshots :=
       put (game_snapshots db) (GameRecord.gameId record) (GameRecord.snapshots record) |}.

(** What [getGameDetail] returns: [{ ...header, cardEvents, rawLog }]. *)
Module GameDetail.
Record t : Type := mk {
  header : StoredGame.t;
  cardEvents : list CardEvent.t;
  rawLog : list IChatEntry.t
}.
End GameDetail.

Definition getGameDetail (db : t) (gameId : string) : option GameDetail.t :=
  match get (games db) gameId with
  | None => None
  | Some header =>
      Some {| GameDetail.header := header;
              GameDetail.cardEvents := by_game (card_events db) gameId;
              GameDetail.rawLog := get (raw_logs db) gameId ?? [] |}
  end.

(** [getAllCardEvents(gameId?)] *)
Definition getAllCardEvents (db : t) (gameId : option string) : list CardEvent.t :=
  if JS.truthy_opt gameId
  then by_game (card_events db) (gameId ?? "")
  else card_events db.

Definition getSnapshots (db : t) (gameId : string) : list RoundSnapshot.t :=
  get (game_snapshots db) gameId ?? [].

(** [deleteGame(gameId)]; the cursor loop deletes every row of the index
    [by_game] at [gameId]. *)
Definition deleteGame (db : t) (gameId : string) : t :=
  {| games := delete (games db) gameId;
     card_events := filter (fun e => negb (CardEvent.gameId e =? gameId)) (card_events db);
     raw_logs := delete (raw_logs db) gameId;
     game_snapshots := delete (game_snapshots db) gameId |}.

Definition set_games (v : Store StoredGame.t) (db : t) : t :=
  {| games := v;
     card_events := card_events db;
     raw_logs := raw_logs db;
     game_snapshots := game_snapshots db |}.

Definition updateGameFormat (db : t) (gameId : string) (formatMode : FormatMode) : t :=
  match get (games db) gameId with
  | None => db
  | Some game =>
      let '(limited, format) :=
        match formatMode with
        | ModeLimited => (true, Premier)
        | ModeEternal => (false, OpenFormat)
        | ModePremier => (false, Premier)
        end in
      set_games
        (put (games db) (StoredGame.gameId game)
           {| StoredGame.gameId := StoredGame.gameId game;
              StoredGame.startedAt := StoredGame.startedAt game;
              StoredGame.completedAt := StoredGame.completedAt game;
              StoredGame.format := format;
              StoredGame.isLimitedFormat := limited;
              StoredGame.hidden := StoredGame.hidden game;
              StoredGame.players := StoredGame.players game;
              StoredGame.winner := StoredGame.winner game;
              StoredGame.rounds := StoredGame.rounds game |})
        db
  end.

Definition toggleGameHidden (db : t) (gameId : string) (hidden : bool) : t :=
  match get (games db) gameId with
  | None => db
  | Some game =>
      set_games
        (put (games db) (StoredGame.gameId game)
           {| StoredGame.gameId := StoredGame.gameId game;
              StoredGame.startedAt := StoredGame.startedAt game;
              StoredGame.completedAt := StoredGame.completedAt game;
              StoredGame.format := StoredGame.format game;
              StoredGame.isLimitedFormat := StoredGame.isLimitedFormat game;
              StoredGame.hidden := Some hidden;
              StoredGame.players := StoredGame.players game;
              StoredGame.winner := StoredGame.winner game;
              StoredGame.rounds := StoredGame.rounds game |})
        db
  end.

(** The loop state of [importGames]. *)
Module ImportState.
Record t' : Type := mk {
  db : t;
  existingKeys : list string;
  imported : Z;
  skipped : Z
}.
End ImportState.

(** One turn of the loop of [importGames]. *)
Definition importGame (events : list CardEvent.t)
    (rawLogs : list (string * list IChatEntry.t))
    (snapshots : list (string * list RoundSnapshot.t))
    (st : ImportState.t') (game : StoredGame.t) : ImportState.t' :=
  let gameId := StoredGame.gameId game in
  if JS.set_has (ImportState.existingKeys st) gameId then
    {| ImportState.db := ImportState.db st;
       ImportState.existingKeys := ImportState.existingKeys st;
       ImportState.imported := ImportState.imported st;
       ImportState.skipped := (ImportState.skipped st + 1)%Z |}
  else
    let db := ImportState.db st in
    let gameEvents := filter (fun e => CardEvent.gameId e =? gameId) events in
    let log := find (fun r => fst r =? gameId) rawLogs in
    let snap := find (fun s => fst s =? gameId) snapshots in
    {| ImportState.db :=
         {| games := put (games db) gameId game;
            card_events := card_events db ++ gameEvents;
            raw_logs :=
              match log with
              | Some (k, entries) => put (raw_logs db) k entries
              | None => raw_logs db
              end;
            game_snapshots :=
              match snap with
              | Some (k, snaps) => put (game_snapshots db) k snaps
              | None => game_snapshots db
              end |};
       ImportState.existingKeys := ImportState.existingKeys st ++ [gameId];
       ImportState.imported := (ImportState.imported st + 1)%Z;
       ImportState.skipped := ImportState.skipped st |}.

(** [importGames(games, events, rawLogs, snapshots)]: the database after it
    and the two counts it returns. *)
Definition importGames (db : t) (games : list StoredGame.t) (events : list CardEvent.t)
    (rawLogs : list (string * list IChatEntry.t))
    (snapshots : list (string * list RoundSnapshot.t)) : ImportState.t' :=
  fold_left (importGame events rawLogs snapshots) games
    {| ImportState.db := db;
       ImportState.existingKeys := getAllKeys (Db.games db);
       ImportState.imported := 0%Z;
       ImportState.skipped := 0%Z |}.

(** The games a statistics query works on: not hidden, and of the format the
    filter names (any other filter text keeps all). *)
Definition passesFormat (formatFilter : string) (g : StoredGame.t) : bool :=
  if formatFilter =? "limited" then StoredGame.isLimitedFormat g
  else if formatFilter =? "eternal" then
    match StoredGame.format g with OpenFormat => true | _ => false end
  else if formatFilter =? "premier" then
    negb (StoredGame.isLimitedFormat g)
    && negb match StoredGame.format g with OpenFormat => true | _ => false end
  else true.

Definition visibleGames (db : t) (formatFilter : string) : list StoredGame.t :=
  filter (passesFormat formatFilter)
    (filter (fun g => negb (StoredGame.hidden g ?? false)) (getAll (games db))).

(** [playerName ? g.players.find((p) => p.name === playerName) : g.players[0]] *)
Definition youOf (playerName : option string) (g : StoredGame.t) : option GamePlayer.t :=
  let '(p0, p1) := StoredGame.players g in
  if JS.truthy_opt playerName
  then find (fun p => GamePlayer.name p =? (playerName ?? "")) [p0; p1]
  else Some p0.

(** [playerName ? g.players.find((p) => p.name !== playerName) : g.players[1]] *)
Definition oppOf (playerName : option string) (g : StoredGame.t) : option GamePlayer.t :=
  let '(p0, p1) := StoredGame.players g in
  if JS.truthy_opt playerName
  then find (fun p => negb (GamePlayer.name p =? (playerName ?? ""))) [p0; p1]
  else Some p1.

(** [Array.prototype.sort] with a comparator, which is stable: an insertion
    sort that puts each element behind those it does not precede. *)
Fixpoint insertSorted {A : Type} (cmp : A -> A -> Z) (x : A) (l : list A) : list A :=
  match l with
  | [] => [x]
  | y :: l' => if (cmp y x <=? 0)%Z then y :: insertSorted cmp x l' else x :: l
  end.

Definition Array_sort {A : Type} (cmp : A -> A -> Z) (l : list A) : list A :=
  fold_left (fun sorted x => insertSorted cmp x sorted) l [].

(** [MatchupRow]; [num] is the type of the runtime's numbers that hold a
    rate. *)
Module MatchupRow.
Record t (num : Type) : Type := mk {
  yourLeaderId : string;
  yourLeaderName : string;
  yourLeaderSetId : option SetId;
  opponentLeaderId : string;
  opponentLeaderName : string;
  opponentLeaderSetId : option SetId;
  wins : Z;
  losses : Z;
  draws : Z;
  totalGames : Z;
  winRate : num
}.
Arguments mk {num}.
Arguments yourLeaderId {num}.
Arguments yourLeaderName {num}.
Arguments yourLeaderSetId {num}.
Arguments opponentLeaderId {num}.
Arguments opponentLeaderName {num}.
Arguments opponentLeaderSetId {num}.
Arguments wins {num}.
Arguments losses {num}.
Arguments draws {num}.
Arguments totalGames {num}.
Arguments winRate {num}.
End MatchupRow.

Section Stats.

(** The runtime's numbers for the rates: the number of an integer and the
    quotient of two integers. *)
Variable num : Type.
Variable Number_of : Z -> num.
Variable divide : Z -> Z -> num.

(** The row of a match-up when it is first met. *)
Definition newRow (you opp : GamePlayer.t) : MatchupRow.t num :=
  {| MatchupRow.yourLeaderId := GamePlayer.leaderId you;
     MatchupRow.yourLeaderName := GamePlayer.leaderName you;
     MatchupRow.yourLeaderSetId := GamePlayer.leaderSetId you;
     MatchupRow.opponentLeaderId := GamePlayer.leaderId opp;
     MatchupRow.opponentLeaderName := GamePlayer.leaderName opp;
     MatchupRow.opponentLeaderSetId := GamePlayer.leaderSetId opp;
     MatchupRow.wins := 0%Z;
     MatchupRow.losses := 0%Z;
     MatchupRow.draws := 0%Z;
     MatchupRow.totalGames := 0%Z;
     MatchupRow.winRate := Number_of 0%Z |}.

(** [row.totalGames++], then [draws++] for a game without winner, [wins++]
    for one that [you] won, [losses++] otherwise. *)
Definition countGame (g : StoredGame.t) (you : GamePlayer.t) (row : MatchupRow.t num)
  : MatchupRow.t num :=
  let '(wins, losses, draws) :=
    match StoredGame.winner g with
    | None =>
        (MatchupRow.wins row, MatchupRow.losses row, (MatchupRow.draws row + 1)%Z)
    | Some winner =>
        if winner =? GamePlayer.name you
        then ((MatchupRow.wins row + 1)%Z, MatchupRow.losses row, MatchupRow.draws row)
        else (MatchupRow.wins row, (MatchupRow.losses row + 1)%Z, MatchupRow.draws row)
    end in
  {| MatchupRow.yourLeaderId := MatchupRow.yourLeaderId row;
     MatchupRow.yourLeaderName := MatchupRow.yourLeaderName row;
     MatchupRow.yourLeaderSetId := MatchupRow.yourLeaderSetId row;
     MatchupRow.opponentLeaderId := MatchupRow.opponentLeaderId row;
     MatchupRow.opponentLeaderName := MatchupRow.opponentLeaderName row;
     MatchupRow.opponentLeaderSetId := MatchupRow.opponentLeaderSetId row;
     MatchupRow.wins := wins;
     MatchupRow.losses := losses;
     MatchupRow.draws := draws;
     MatchupRow.totalGames := (MatchupRow.totalGames row + 1)%Z;
     MatchupRow.winRate := MatchupRow.winRate row |}.

(** One turn of the loop over the games: the map from
    [`${you.leaderId}|${opp.leaderId}`] to the row of the match-up, whose row
    object the turn updates in place. *)
Definition matchupStep (playerName : option string)
    (m : list (string * MatchupRow.t num)) (g : StoredGame.t)
  : list (string * MatchupRow.t num) :=
  match youOf playerName g, oppOf playerName g with
  | Some you, Some opp =>
      let key := (GamePlayer.leaderId you ++ "|" ++ GamePlayer.leaderId opp)%string in
      let m :=
        match JS.map_get m key with
        | Some _ => m
        | None => JS.map_set m key (newRow you opp)
        end in
      match JS.map_get m key with
      | Some row => JS.map_set m key (countGame g you row)
      | None => m
      end
  | _, _ => m
  end.

(** [row.winRate = row.totalGames > 0 ? row.wins / row.totalGames : 0] *)
Definition withWinRate (row : MatchupRow.t num) : MatchupRow.t num :=
  {| MatchupRow.yourLeaderId := MatchupRow.yourLeaderId row;
     MatchupRow.yourLeaderName := MatchupRow.yourLeaderName row;
     MatchupRow.yourLeaderSetId := MatchupRow.yourLeaderSetId row;
     MatchupRow.opponentLeaderId := MatchupRow.opponentLeaderId row;
     MatchupRow.opponentLeaderName := MatchupRow.opponentLeaderName row;
     MatchupRow.opponentLeaderSetId := MatchupRow.opponentLeaderSetId row;
     MatchupRow.wins := MatchupRow.wins row;
     MatchupRow.losses := MatchupRow.losses row;
     MatchupRow.draws := MatchupRow.draws row;
     MatchupRow.totalGames := MatchupRow.totalGames row;
     MatchupRow.winRate :=
       if (0 <? MatchupRow.totalGames row)%Z
       then divide (MatchupRow.wins row) (MatchupRow.totalGames row)
       else Number_of 0%Z |}.

Definition getMatchupStats (db : t) (formatFilter : string) (playerName : option string)
  : list (MatchupRow.t num) :=
  let m := fold_left (matchupStep playerName) (visibleGames db formatFilter) [] in
  Array_sort
    (fun a b => (MatchupRow.totalGames b - MatchupRow.totalGames a)%Z)
    (map (fun e => withWinRate (snd e)) m).

End Stats.

(** The games a match-up query counts: those in which it finds both
    players. *)
Definition counted (playerName : option string) (g : StoredGame.t) : bool :=
  match youOf playerName g, oppOf playerName g with
  | Some _, Some _ => true
  | _, _ => false
  end.

(** [CardStats]; [num] is the type of the runtime's numbers that hold a rate
    or an average. *)
Module CardStats.
Record t (num : Type) : Type := mk {
  cardId : string;
  cardName : string;
  cardSetId : option SetId;
  played : Z;
  resourced : Z;
  activated : Z;
  drawn : Z;
  discarded : Z;
  gamesAppeared : Z;
  gamesPlayedIn : Z;
  gamesDrawnIn : Z;
  winRateWhenPlayed : num;
  winRateWhenDrawn : num;
  resourceRate : num;
  playRate : num;
  avgCopiesPerGame : num;
  avgRoundPlayed : num
}.
Arguments mk {num}.
Arguments cardId {num}.
Arguments cardName {num}.
Arguments cardSetId {num}.
Arguments played {num}.
Arguments resourced {num}.
Arguments activated {num}.
Arguments drawn {num}.
Arguments discarded {num}.
Arguments gamesAppeared {num}.
Arguments gamesPlayedIn {num}.
Arguments gamesDrawnIn {num}.
Arguments winRateWhenPlayed {num}.
Arguments winRateWhenDrawn {num}.
Arguments resourceRate {num}.
Arguments playRate {num}.
Arguments avgCopiesPerGame {num}.
Arguments avgRoundPlayed {num}.
End CardStats.

(** The per-card accumulator [Accum] of [getCardStats]: the five totals of
    [stat] (its other fields are set when the loop is over), the five sets of
    game ids and the two sums. *)
Module Accum.
Record t : Type := mk {
  cardId : string;
  cardName : string;
  played : Z;
  resourced : Z;
  activated : Z;
  drawn : Z;
  discarded : Z;
  appearedIn : list string;
  playedIn : list string;
  drawnIn : list string;
  wonWhenPlayed : list string;
  wonWhenDrawn : list string;
  playRoundSum : Z;
  playEventCount : Z;
  firstSetId : option SetId
}.
End Accum.









Section Rates.

Variable num : Type.
Variable Number_of : Z -> num.
Variable divide : Z -> Z -> num.




End Rates.




(** *** What the properties speak of *)

(* definitions part *)

(** The sum of [totalGames] over match-up rows. *)
Definition totalGamesOf {num : Type} (rows : list (MatchupRow.t num)) : Z :=
  fold_right Z.add 0%Z (map MatchupRow.totalGames rows).

(** The filter text of a format mode. *)
Definition filterOf (mode : FormatMode) : string :=
  match mode with
  | ModePremier => "premier"
  | ModeLimited => "limited"
  | ModeEternal => "eternal"
  end.

(* properties part *)

(** What holds of the loop state of [importGames] throughout: with the state
    [st0] it started from, the known keys are the keys of the games store,
    and the rows and the events of the games known at the start are as they
    were. *)
Definition importInv (st0 st : ImportState.t') : Prop :=
  (forall k, In k (ImportState.existingKeys st)
             <-> In k (getAllKeys (games (ImportState.db st))))
  /\ (forall k, In k (ImportState.existingKeys st0) -> In k (ImportState.existingKeys st))
  /\ (forall k, In k (ImportState.existingKeys st0) ->
        get (games (ImportState.db st)) k = get (games (ImportState.db st0)) k
        /\ by_game (card_events (ImportState.db st)) k
           = by_game (card_events (ImportState.db st0)) k).



End Db.
(** ** A database with one recorded game *)

Module DbCases.

(** The database after the record of [RecorderCases.oneRound] is saved. *)
Definition saved : Db.t :=
  fold_left Db.saveGameRecord
    (GameRecorder.completions Scenario.fresh RecorderCases.oneRound) Db.empty.

End DbCases.

(** * Properties *)

(** ** Sets and maps *)

Lemma set_has_In (s : list string) (x : string) :
  JS.set_has s x = true <-> In x s.
Proof.
  unfold JS.set_has. rewrite existsb_exists. split.
  - intros [y [Hy Heq]]. apply String.eqb_eq in Heq. now subst.
  - intros H. exists x. split; [assumption | apply String.eqb_refl].
Qed.

Lemma set_has_not_In (s : list string) (x : string) :
  JS.set_has s x = false <-> ~ In x s.
Proof.
  rewrite <- set_has_In. destruct (JS.set_has s x); split; congruence.
Qed.

Lemma get_In_keys {V : Type} (o : JS.Obj V) (k : string) :
  (exists v, JS.get o k = Some v) <-> In k (JS.keys o).
Proof.
  induction o as [|[k' v'] o IH]; simpl.
  - split; [intros [v Hv]; discriminate | contradiction].
  - destruct (String.eqb_spec k' k) as [->|Hne].
    + split; [now left | intros _; now exists v'].
    + rewrite IH. split; [now right | intros [H|H]; [contradiction | assumption]].
Qed.

Lemma get_In {V : Type} (o : JS.Obj V) (k : string) (v : V) :
  JS.get o k = Some v -> In (k, v) o.
Proof.
  induction o as [|[k' v'] o IH]; simpl; [discriminate|].
  destruct (String.eqb_spec k' k) as [->|Hne].
  - intros [= ->]. now left.
  - intros H. right. now apply IH.
Qed.

Lemma In_get_NoDup {V : Type} (o : JS.Obj V) (k : string) (v : V) :
  NoDup (JS.keys o) -> In (k, v) o -> JS.get o k = Some v.
Proof.
  induction o as [|[k' v'] o IH]; simpl; [contradiction|].
  intros Hnd [Heq|Hin].
  - inversion Heq; subst. now rewrite String.eqb_refl.
  - inversion Hnd as [|? ? Hnotin Hnd']; subst.
    destruct (String.eqb_spec k' k) as [->|Hne].
    + exfalso. apply Hnotin. change (In (fst (k, v)) (map fst o)).
      now apply in_map.
    + now apply IH.
Qed.

Lemma map_has_In {V : Type} (m : list (string * V)) (k : string) :
  JS.map_has m k = true <-> In k (map fst m).
Proof.
  unfold JS.map_has, JS.map_get. rewrite <- (get_In_keys m k).
  destruct (JS.get m k) as [v|]; split; try congruence.
  - intros _. now exists v.
  - intros [v Hv]. discriminate.
Qed.

Lemma map_set_keys {V : Type} (m : list (string * V)) (k : string) (v : V) (k' : string) :
  In k' (map fst (JS.map_set m k v)) <-> k' = k \/ In k' (map fst m).
Proof.
  induction m as [|[k0 v0] m IH]; simpl.
  - split; [intros [H|[]]; now left | intros [H|[]]; now left].
  - destruct (String.eqb_spec k0 k) as [->|Hne]; simpl.
    + intuition congruence.
    + rewrite IH. intuition congruence.
Qed.

Lemma map_set_NoDup {V : Type} (m : list (string * V)) (k : string) (v : V) :
  NoDup (map fst m) -> NoDup (map fst (JS.map_set m k v)).
Proof.
  induction m as [|[k0 v0] m IH]; simpl; intros Hnd.
  - constructor; [intros [] | constructor].
  - inversion Hnd as [|? ? Hnotin Hnd']; subst.
    destruct (String.eqb_spec k0 k) as [->|Hne]; simpl.
    + now constructor.
    + constructor; [|now apply IH].
      rewrite map_set_keys. intros [H|H]; [now apply Hne | contradiction].
Qed.

Lemma byUuid_from_keys (cards : list CardSummary.t) (m : list (string * CardSummary.t))
    (u : string) :
  In u (map fst (fold_left (fun m c => JS.map_set m (CardSummary.uuid c) c) cards m))
  <-> In u (map fst m) \/ In u (StateDiffer.uuidSet cards).
Proof.
  revert m. induction cards as [|c cards IH]; simpl; intros m.
  - tauto.
  - rewrite IH, map_set_keys. intuition congruence.
Qed.

Lemma byUuid_keys (cards : list CardSummary.t) (u : string) :
  In u (map fst (StateDiffer.byUuid cards)) <-> In u (StateDiffer.uuidSet cards).
Proof.
  unfold StateDiffer.byUuid. rewrite byUuid_from_keys. simpl. tauto.
Qed.

Lemma byUuid_NoDup (cards : list CardSummary.t) :
  NoDup (map fst (StateDiffer.byUuid cards)).
Proof.
  unfold StateDiffer.byUuid.
  assert (H : forall m : list (string * CardSummary.t), NoDup (map fst m) ->
    NoDup (map fst (fold_left (fun m c => JS.map_set m (CardSummary.uuid c) c) cards m))).
  { induction cards as [|c cards IH]; simpl; intros m Hm; [assumption|].
    apply IH. now apply map_set_NoDup. }
  apply H. constructor.
Qed.

Lemma NoDup_filter_keys {V : Type} (f : string * V -> bool) (m : list (string * V)) :
  NoDup (map fst m) -> NoDup (map fst (filter f m)).
Proof.
  induction m as [|e m IH]; simpl; intros Hnd; [constructor|].
  inversion Hnd as [|? ? Hnotin Hnd']; subst.
  destruct (f e); simpl; [|now apply IH].
  constructor; [|now apply IH].
  intros Hin. apply Hnotin. apply in_map_iff in Hin as [e' [He' Hin]].
  apply filter_In in Hin as [Hin _]. rewrite <- He'. now apply in_map.
Qed.

(** ** The snapshot differencer *)

Section DifferLoops.
Import StateDiffer.

Variable ctx : DiffContext.t.
Variables playerId playerName : string.
Variable z : Zones.t.

Lemma playedStep_acc (events : list CardEvent.t) (pfd : list string)
    (entry : string * CardSummary.t) :
  playedStep ctx playerId playerName z (events, pfd) entry
  = (events ++ fst (playedOf ctx playerId playerName z entry),
     pfd ++ snd (playedOf ctx playerId playerName z entry)).
Proof.
  destruct entry as [uuid card]. unfold playedOf, playedStep.
  destruct (newInArena z uuid); [simpl; now rewrite app_nil_r|].
  destruct (newInRes z uuid); [simpl; now rewrite !app_nil_r|].
  destruct (newInDiscard z uuid); [|simpl; now rewrite !app_nil_r].
  destruct (JS.map_get (Zones.nextDiscard z) uuid); simpl; now rewrite ?app_nil_r.
Qed.

Lemma playedLoop_from (l : list (string * CardSummary.t))
    (events : list CardEvent.t) (pfd : list string) :
  fold_left (playedStep ctx playerId playerName z) l (events, pfd)
  = (events ++ flat_map (fun e => fst (playedOf ctx playerId playerName z e)) l,
     pfd ++ flat_map (fun e => snd (playedOf ctx playerId playerName z e)) l).
Proof.
  revert events pfd.
  induction l as [|entry l IH]; intros events pfd; cbn [fold_left flat_map].
  - now rewrite !app_nil_r.
  - rewrite playedStep_acc, IH, <- !app_assoc. reflexivity.
Qed.

Lemma playedLoop_flat_map :
  playedLoop ctx playerId playerName z
  = (flat_map (fun e => fst (playedOf ctx playerId playerName z e)) (Zones.leftHand z),
     flat_map (fun e => snd (playedOf ctx playerId playerName z e)) (Zones.leftHand z)).
Proof. unfold playedLoop. now rewrite playedLoop_from. Qed.

(** Every event of a turn of the PLAYED loop is a [played] event of the
    player. *)
Lemma playedOf_events (entry : string * CardSummary.t) (e : CardEvent.t) :
  In e (fst (playedOf ctx playerId playerName z entry)) ->
  CardEvent.metric e = Played /\ CardEvent.playerId e = playerId.
Proof.
  destruct entry as [uuid card]. unfold playedOf, playedStep.
  destruct (newInArena z uuid); simpl.
  - intros [<-|[]]. now split.
  - destruct (newInRes z uuid); simpl; [contradiction|].
    destruct (newInDiscard z uuid); simpl; [|contradiction].
    destruct (JS.map_get (Zones.nextDiscard z) uuid); simpl; [|contradiction].
    intros [<-|[]]. now split.
Qed.

Lemma playedLoop_events (e : CardEvent.t) :
  In e (fst (playedLoop ctx playerId playerName z)) ->
  CardEvent.metric e = Played /\ CardEvent.playerId e = playerId.
Proof.
  rewrite playedLoop_flat_map. simpl. rewrite in_flat_map.
  intros [entry [_ Hin]]. now apply playedOf_events in Hin.
Qed.

Lemma resourcedLoop_events (e : CardEvent.t) :
  In e (resourcedLoop ctx playerId playerName z) ->
  CardEvent.metric e = Resourced /\ CardEvent.playerId e = playerId.
Proof.
  unfold resourcedLoop. rewrite in_flat_map. intros [[uuid card] [_ Hin]].
  destruct (newInRes z uuid); simpl in Hin; [|contradiction].
  destruct Hin as [<-|[]]. now split.
Qed.

Lemma discardedLoop_events (pfd : list string) (e : CardEvent.t) :
  In e (discardedLoop ctx playerId playerName z pfd) ->
  CardEvent.metric e = Discarded /\ CardEvent.playerId e = playerId.
Proof.
  unfold discardedLoop. rewrite in_flat_map. intros [[uuid card] [_ Hin]].
  destruct (negb (JS.set_has (Zones.prevDiscard z) uuid)
            && negb (JS.set_has pfd uuid)); simpl in Hin; [|contradiction].
  destruct Hin as [<-|[]]. now split.
Qed.

Lemma drawnPart_events (p0 p1 : PlayerStateSummary.t) (e : CardEvent.t) :
  In e (drawnPart ctx playerId playerName z p0 p1) ->
  CardEvent.metric e = Drawn /\ CardEvent.playerId e = playerId
  /\ (0 < deckDecrease p0 p1)%Z.
Proof.
  unfold drawnPart. destruct (Z.ltb_spec 0 (deckDecrease p0 p1)) as [Hlt|Hge];
    [|contradiction].
  destruct (newInHand z p1) as [|c cards].
  - intros [<-|[]]. now repeat split.
  - intros Hin. apply in_map_iff in Hin as [card [<- _]]. now repeat split.
Qed.

End DifferLoops.

Lemma diffPlayer_parts (ctx : StateDiffer.DiffContext.t) (playerId : string)
    (p0 p1 : PlayerStateSummary.t) :
  StateDiffer.diffPlayer ctx playerId p0 p1
  = fst (StateDiffer.playedLoop ctx playerId (PlayerStateSummary.name p1)
           (StateDiffer.zones p0 p1))
    ++ StateDiffer.resourcedLoop ctx playerId (PlayerStateSummary.name p1)
         (StateDiffer.zones p0 p1)
    ++ StateDiffer.discardedLoop ctx playerId (PlayerStateSummary.name p1)
         (StateDiffer.zones p0 p1)
         (snd (StateDiffer.playedLoop ctx playerId (PlayerStateSummary.name p1)
                 (StateDiffer.zones p0 p1)))
    ++ StateDiffer.drawnPart ctx playerId (PlayerStateSummary.name p1)
         (StateDiffer.zones p0 p1) p0 p1.
Proof.
  unfold StateDiffer.diffPlayer.
  destruct (StateDiffer.playedLoop ctx playerId (PlayerStateSummary.name p1)
              (StateDiffer.zones p0 p1)) as [played pfd].
  reflexivity.
Qed.

(** The events of one player carry its id; a [drawn] one among them means
    the deck count went down. *)
Lemma diffPlayer_events (ctx : StateDiffer.DiffContext.t) (playerId : string)
    (p0 p1 : PlayerStateSummary.t) (e : CardEvent.t) :
  In e (StateDiffer.diffPlayer ctx playerId p0 p1) ->
  CardEvent.playerId e = playerId
  /\ (CardEvent.metric e = Drawn -> (0 < StateDiffer.deckDecrease p0 p1)%Z).
Proof.
  rewrite diffPlayer_parts, !in_app_iff.
  intros [H|[H|[H|H]]].
  - apply playedLoop_events in H as [Hm Hp]. split; [assumption | congruence].
  - apply resourcedLoop_events in H as [Hm Hp]. split; [assumption | congruence].
  - apply discardedLoop_events in H as [Hm Hp]. split; [assumption | congruence].
  - apply drawnPart_events in H as [Hm [Hp Hd]]. now split.
Qed.

(** An event of [diffSnapshots] comes from the pass over one player that is
    present in both snapshots and not skipped. *)
Lemma diffSnapshots_event (prev next : IGameState.t) (ctx : StateDiffer.DiffContext.t)
    (e : CardEvent.t) :
  In e (StateDiffer.diffSnapshots prev next ctx) ->
  exists playerId p0 p1,
    In playerId (JS.keys (IGameState.players next))
    /\ StateDiffer.skipped ctx playerId = false
    /\ JS.get (IGameState.players prev) playerId = Some p0
    /\ JS.get (IGameState.players next) playerId = Some p1
    /\ In e (StateDiffer.diffPlayer ctx playerId p0 p1).
Proof.
  unfold StateDiffer.diffSnapshots. rewrite in_flat_map.
  intros [playerId [Hkey Hin]].
  destruct (StateDiffer.skipped ctx playerId) eqn:Hskip; [contradiction|].
  destruct (JS.get (IGameState.players prev) playerId) as [p0|] eqn:H0; [|contradiction].
  destruct (JS.get (IGameState.players next) playerId) as [p1|] eqn:H1; [|contradiction].
  now exists playerId, p0, p1.
Qed.

(** A [drawn] event is emitted for a player only when that player is in both
    snapshots and its deck count strictly decreased. *)
Lemma drawn_event_needs_deck_decrease (prev next : IGameState.t)
    (ctx : StateDiffer.DiffContext.t) (e : CardEvent.t) :
  In e (StateDiffer.diffSnapshots prev next ctx) ->
  CardEvent.metric e = Drawn ->
  exists p0 p1,
    JS.get (IGameState.players prev) (CardEvent.playerId e) = Some p0
    /\ JS.get (IGameState.players next) (CardEvent.playerId e) = Some p1
    /\ (PlayerStateSummary.numCardsInDeck p1 < PlayerStateSummary.numCardsInDeck p0)%Z.
Proof.
  intros Hin Hm.
  apply diffSnapshots_event in Hin as [pid [p0 [p1 [_ [_ [H0 [H1 Hin]]]]]]].
  apply diffPlayer_events in Hin as [Hp Hd]. subst pid.
  exists p0, p1. repeat split; try assumption.
  specialize (Hd Hm). unfold StateDiffer.deckDecrease in Hd. lia.
Qed.

Lemma filter_none {A : Type} (f : A -> bool) (l : list A) :
  (forall x, In x l -> f x = false) -> filter f l = [].
Proof.
  induction l as [|a l IH]; simpl; intros H; [reflexivity|].
  rewrite (H a (or_introl eq_refl)). apply IH. intros x Hx. apply H. now right.
Qed.

Lemma filter_all {A : Type} (f : A -> bool) (l : list A) :
  (forall x, In x l -> f x = true) -> filter f l = l.
Proof.
  induction l as [|a l IH]; simpl; intros H; [reflexivity|].
  rewrite (H a (or_introl eq_refl)). f_equal. apply IH. intros x Hx. apply H. now right.
Qed.

Lemma filter_flat_map {A B : Type} (f : B -> bool) (F : A -> list B) (l : list A) :
  filter f (flat_map F l) = flat_map (fun a => filter f (F a)) l.
Proof.
  induction l as [|a l IH]; simpl; [reflexivity|].
  now rewrite filter_app, IH.
Qed.

(** In a list of distinct keys only the key [k] contributes to a [flat_map]
    whose other keys contribute nothing. *)
Lemma flat_map_only_key {B : Type} (G : string -> list B) (k : string) (ks : list string) :
  NoDup ks ->
  (forall k', k' <> k -> G k' = []) ->
  flat_map G ks = if JS.set_has ks k then G k else [].
Proof.
  intros Hnd Hother. unfold JS.set_has.
  induction ks as [|k0 ks IH]; cbn [flat_map existsb]; [reflexivity|].
  inversion Hnd as [|? ? Hnotin Hnd']; subst.
  rewrite (IH Hnd').
  destruct (String.eqb_spec k k0) as [<-|Hne]; cbn [orb].
  - apply set_has_not_In in Hnotin. unfold JS.set_has in Hnotin. rewrite Hnotin.
    now rewrite app_nil_r.
  - rewrite (Hother k0) by congruence. reflexivity.
Qed.

Lemma set_has_keys_get {V : Type} (o : JS.Obj V) (k : string) :
  JS.set_has (JS.keys o) k = match JS.get o k with Some _ => true | None => false end.
Proof.
  destruct (JS.get o k) as [v|] eqn:Hget.
  - apply set_has_In, get_In_keys. now exists v.
  - apply set_has_not_In. intros Hin. apply get_In_keys in Hin as [v Hv]. congruence.
Qed.

Lemma isDrawnOf_true (playerId : string) (e : CardEvent.t) :
  isDrawnOf playerId e = true
  <-> CardEvent.metric e = Drawn /\ CardEvent.playerId e = playerId.
Proof.
  unfold isDrawnOf. rewrite andb_true_iff, String.eqb_eq.
  destruct (CardEvent.metric e); simpl; intuition congruence.
Qed.

(** The [drawn] events of one player's pass are those of its DRAWN block. *)
Lemma drawnEvents_diffPlayer (ctx : StateDiffer.DiffContext.t) (playerId : string)
    (p0 p1 : PlayerStateSummary.t) :
  drawnEvents playerId (StateDiffer.diffPlayer ctx playerId p0 p1)
  = StateDiffer.drawnPart ctx playerId (PlayerStateSummary.name p1)
      (StateDiffer.zones p0 p1) p0 p1.
Proof.
  unfold drawnEvents.
  rewrite diffPlayer_parts, !filter_app.
  rewrite (filter_none _ (fst _)), (filter_none _ (StateDiffer.resourcedLoop _ _ _ _)),
          (filter_none _ (StateDiffer.discardedLoop _ _ _ _ _)), filter_all.
  - reflexivity.
  - intros e He. apply drawnPart_events in He as [Hm [Hp _]]. now apply isDrawnOf_true.
  - intros e He. apply discardedLoop_events in He as [Hm _].
    unfold isDrawnOf. now rewrite Hm.
  - intros e He. apply resourcedLoop_events in He as [Hm _].
    unfold isDrawnOf. now rewrite Hm.
  - intros e He. apply playedLoop_events in He as [Hm _].
    unfold isDrawnOf. now rewrite Hm.
Qed.

Lemma drawnEvents_other_player (ctx : StateDiffer.DiffContext.t)
    (playerId playerId' : string) (p0 p1 : PlayerStateSummary.t) :
  playerId' <> playerId ->
  drawnEvents playerId (StateDiffer.diffPlayer ctx playerId' p0 p1) = [].
Proof.
  intros Hne. apply filter_none. intros e He.
  apply diffPlayer_events in He as [Hp _]. unfold isDrawnOf.
  destruct (GameCardMetric_eqb (CardEvent.metric e) Drawn); [simpl|reflexivity].
  apply String.eqb_neq. congruence.
Qed.

(** The [drawn] events of a player in a whole call. *)
Lemma drawnEvents_diffSnapshots (prev next : IGameState.t)
    (ctx : StateDiffer.DiffContext.t) (playerId : string) :
  NoDup (JS.keys (IGameState.players next)) ->
  drawnEvents playerId (StateDiffer.diffSnapshots prev next ctx)
  = if StateDiffer.skipped ctx playerId then []
    else match JS.get (IGameState.players prev) playerId,
               JS.get (IGameState.players next) playerId with
         | Some p0, Some p1 =>
             StateDiffer.drawnPart ctx playerId (PlayerStateSummary.name p1)
               (StateDiffer.zones p0 p1) p0 p1
         | _, _ => []
         end.
Proof.
  intros Hnd. unfold drawnEvents, StateDiffer.diffSnapshots.
  rewrite filter_flat_map.
  rewrite (flat_map_only_key _ playerId _ Hnd).
  - rewrite set_has_keys_get.
    destruct (StateDiffer.skipped ctx playerId); [now destruct (JS.get _ _)|].
    destruct (JS.get (IGameState.players prev) playerId) as [p0|];
      destruct (JS.get (IGameState.players next) playerId) as [p1|]; try reflexivity.
    apply drawnEvents_diffPlayer.
  - intros k' Hne.
    destruct (StateDiffer.skipped ctx k'); [reflexivity|].
    destruct (JS.get (IGameState.players prev) k') as [p0|]; [|reflexivity].
    destruct (JS.get (IGameState.players next) k') as [p1|]; [|reflexivity].
    now apply drawnEvents_other_player.
Qed.

(** C9. [diffSnapshots] emits drawn events for a player only when that
    player's deck count strictly decreased: when the player is in both
    snapshots and its deck count stayed the same or went up, the call emits no
    drawn event for it, whatever appeared in its hand. *)
Theorem no_drawn_without_deck_decrease (prev next : IGameState.t)
    (ctx : StateDiffer.DiffContext.t) (playerId : string)
    (p0 p1 : PlayerStateSummary.t) :
  JS.get (IGameState.players prev) playerId = Some p0 ->
  JS.get (IGameState.players next) playerId = Some p1 ->
  (PlayerStateSummary.numCardsInDeck p0 <= PlayerStateSummary.numCardsInDeck p1)%Z ->
  drawnEvents playerId (StateDiffer.diffSnapshots prev next ctx) = [].
Proof.
  intros H0 H1 Hdeck. apply filter_none. intros e He.
  destruct (isDrawnOf playerId e) eqn:Hd; [|reflexivity].
  apply isDrawnOf_true in Hd as [Hm Hp].
  destruct (drawn_event_needs_deck_decrease prev next ctx e He Hm)
    as [q0 [q1 [Hq0 [Hq1 Hlt]]]].
  rewrite Hp in Hq0, Hq1. rewrite H0 in Hq0. rewrite H1 in Hq1.
  inversion Hq0; inversion Hq1; subst. lia.
Qed.

(** The deck of Alice stays at 30 and [u1] is new in her hand: no drawn
    event. *)
Lemma no_drawn_without_deck_decrease_witness :
  In "u1" (StateDiffer.uuidSet
             (CardPiles.hand (PlayerStateSummary.cardPiles
                (Scenario.player "pA" "Alice"
                   (Scenario.piles [Scenario.u1] [] [] [] []) 30%Z))))
  /\ drawnEvents "A"
       (StateDiffer.diffSnapshots Scenario.returned_prev Scenario.returned_next
          Scenario.ctx) = [].
Proof.
  split.
  - simpl. now left.
  - apply (no_drawn_without_deck_decrease Scenario.returned_prev Scenario.returned_next
             Scenario.ctx "A"
             (Scenario.player "pA" "Alice" (Scenario.piles [] [] [] [] [Scenario.u1]) 30%Z)
             (Scenario.player "pA" "Alice" (Scenario.piles [Scenario.u1] [] [] [] []) 30%Z)).
    + reflexivity.
    + reflexivity.
    + simpl. lia.
Defined.

Lemma sum_counts_of_cards (ctx : StateDiffer.DiffContext.t) (playerId playerName : string)
    (cards : list CardSummary.t) :
  fold_right Z.add 0%Z
    (map CardEvent.count
       (map (fun card => StateDiffer.cardEvent ctx playerId playerName card Drawn) cards))
  = Z.of_nat (List.length cards).
Proof.
  induction cards as [|c cards IH]; [reflexivity|].
  cbn [map fold_right List.length]. rewrite IH. simpl CardEvent.count. lia.
Qed.

(** X2. What the code computes as the drawn total of a diffed player: the deck
    decrease when nothing new is in the hand, otherwise the number of new
    cards in the hand. *)
Lemma drawnTotal_diffSnapshots (prev next : IGameState.t)
    (ctx : StateDiffer.DiffContext.t) (playerId : string)
    (p0 p1 : PlayerStateSummary.t) :
  NoDup (JS.keys (IGameState.players next)) ->
  StateDiffer.skipped ctx playerId = false ->
  JS.get (IGameState.players prev) playerId = Some p0 ->
  JS.get (IGameState.players next) playerId = Some p1 ->
  drawnTotal playerId (StateDiffer.diffSnapshots prev next ctx)
  = if (0 <? StateDiffer.deckDecrease p0 p1)%Z then
      match StateDiffer.newInHand (StateDiffer.zones p0 p1) p1 with
      | [] => StateDiffer.deckDecrease p0 p1
      | cards => Z.of_nat (List.length cards)
      end
    else 0%Z.
Proof.
  intros Hnd Hskip H0 H1. unfold drawnTotal.
  rewrite (drawnEvents_diffSnapshots prev next ctx playerId Hnd), Hskip, H0, H1.
  unfold StateDiffer.drawnPart.
  destruct (0 <? StateDiffer.deckDecrease p0 p1)%Z; [|reflexivity].
  destruct (StateDiffer.newInHand (StateDiffer.zones p0 p1) p1) as [|c cards] eqn:Hnew.
  - simpl. lia.
  - apply sum_counts_of_cards.
Qed.

(** X1. Scenario D in general: the deck count of a diffed player went down by
    [N > 0] and every uuid of its hand was in its hand before.  Then its
    drawn events are the one synthetic event with [cardId "__unknown__"] and
    [count N]. *)
Theorem drawn_unknown_when_no_new_hand_uuid (prev next : IGameState.t)
    (ctx : StateDiffer.DiffContext.t) (playerId : string)
    (p0 p1 : PlayerStateSummary.t) (N : Z) :
  NoDup (JS.keys (IGameState.players next)) ->
  StateDiffer.skipped ctx playerId = false ->
  JS.get (IGameState.players prev) playerId = Some p0 ->
  JS.get (IGameState.players next) playerId = Some p1 ->
  (0 < N)%Z ->
  (PlayerStateSummary.numCardsInDeck p0 - PlayerStateSummary.numCardsInDeck p1 = N)%Z ->
  (forall c, In c (CardPiles.hand (PlayerStateSummary.cardPiles p1)) ->
             In (CardSummary.uuid c)
                (StateDiffer.uuidSet (CardPiles.hand (PlayerStateSummary.cardPiles p0)))) ->
  drawnEvents playerId (StateDiffer.diffSnapshots prev next ctx)
  = [StateDiffer.unknownDrawn ctx playerId (PlayerStateSummary.name p1) N]
  /\ CardEvent.cardId (StateDiffer.unknownDrawn ctx playerId (PlayerStateSummary.name p1) N)
     = "__unknown__"
  /\ CardEvent.count (StateDiffer.unknownDrawn ctx playerId (PlayerStateSummary.name p1) N)
     = N.
Proof.
  intros Hnd Hskip H0 H1 HN Hdeck Hhand.
  split; [|split; reflexivity].
  rewrite (drawnEvents_diffSnapshots prev next ctx playerId Hnd), Hskip, H0, H1.
  unfold StateDiffer.drawnPart, StateDiffer.deckDecrease. rewrite Hdeck.
  destruct (Z.ltb_spec 0 N) as [_|Hle]; [|lia].
  replace (StateDiffer.newInHand (StateDiffer.zones p0 p1) p1) with (@nil CardSummary.t);
    [reflexivity|].
  symmetry. apply filter_none. intros c Hc.
  apply negb_false_iff, map_has_In. simpl. apply byUuid_keys. now apply Hhand.
Qed.

Lemma drawn_unknown_when_no_new_hand_uuid_witness :
  drawnEvents "B"
    (StateDiffer.diffSnapshots Scenario.faceDown_prev Scenario.faceDown_next Scenario.ctx)
  = [StateDiffer.unknownDrawn Scenario.ctx "B" "Bob" 2%Z]
  /\ CardEvent.cardId (StateDiffer.unknownDrawn Scenario.ctx "B" "Bob" 2%Z) = "__unknown__"
  /\ CardEvent.count (StateDiffer.unknownDrawn Scenario.ctx "B" "Bob" 2%Z) = 2%Z.
Proof.
  apply (drawn_unknown_when_no_new_hand_uuid
           Scenario.faceDown_prev Scenario.faceDown_next Scenario.ctx "B"
           (Scenario.player "pB" "Bob" (Scenario.piles [] [] [] [] []) 40%Z)
           (Scenario.player "pB" "Bob" (Scenario.piles [] [] [] [] []) 38%Z) 2%Z).
  - simpl. constructor; [intros [] | constructor].
  - reflexivity.
  - reflexivity.
  - reflexivity.
  - lia.
  - reflexivity.
  - simpl. intros c [].
Defined.

(** C1, at the input where the code departs from it: Alice's deck count goes
    from 40 to 38 and one new uuid shows in her hand.  The deck decrease is 2;
    the drawn events of the call are one event of count 1, so their counts sum
    to 1. *)
Theorem draw_count_differs_from_deck_decrease :
  StateDiffer.deckDecrease
    (Scenario.player "pA" "Alice" (Scenario.piles [] [] [] [] []) 40%Z)
    (Scenario.player "pA" "Alice" (Scenario.piles [Scenario.u1] [] [] [] []) 38%Z)
  = 2%Z
  /\ drawnEvents "A"
       (StateDiffer.diffSnapshots Scenario.drawTwoSeeOne_prev Scenario.drawTwoSeeOne_next
          Scenario.ctx)
     = [StateDiffer.cardEvent Scenario.ctx "A" "Alice" Scenario.u1 Drawn]
  /\ drawnTotal "A"
       (StateDiffer.diffSnapshots Scenario.drawTwoSeeOne_prev Scenario.drawTwoSeeOne_next
          Scenario.ctx)
     = 1%Z.
Proof. repeat split. Qed.

(** The same input read through [drawnTotal_diffSnapshots]: two cards left
    the deck, one new card is in the hand, and the total is the latter. *)
Lemma drawnTotal_diffSnapshots_witness :
  drawnTotal "A"
    (StateDiffer.diffSnapshots Scenario.drawTwoSeeOne_prev Scenario.drawTwoSeeOne_next
       Scenario.ctx)
  = Z.of_nat (List.length [Scenario.u1]).
Proof.
  assert (Hnd : NoDup (JS.keys (IGameState.players Scenario.drawTwoSeeOne_next))).
  { simpl. constructor; [intros [] | constructor]. }
  exact (drawnTotal_diffSnapshots Scenario.drawTwoSeeOne_prev Scenario.drawTwoSeeOne_next
           Scenario.ctx "A"
           (Scenario.player "pA" "Alice" (Scenario.piles [] [] [] [] []) 40%Z)
           (Scenario.player "pA" "Alice" (Scenario.piles [Scenario.u1] [] [] [] []) 38%Z)
           Hnd eq_refl eq_refl eq_refl).
Defined.

(** X3. Every event of a call carries the game id and the round number of the
    context it was given, the key of its player and that player's name in the
    next snapshot: the differencer computes no round of its own. *)
Theorem diff_events_carry_context (prev next : IGameState.t)
    (ctx : StateDiffer.DiffContext.t) (e : CardEvent.t) :
  In e (StateDiffer.diffSnapshots prev next ctx) ->
  CardEvent.gameId e = StateDiffer.DiffContext.gameId ctx
  /\ CardEvent.roundNumber e = StateDiffer.DiffContext.roundNumber ctx
  /\ exists p1,
       JS.get (IGameState.players next) (CardEvent.playerId e) = Some p1
       /\ CardEvent.playerName e = PlayerStateSummary.name p1.
Proof.
  intros Hin.
  apply diffSnapshots_event in Hin as [pid [p0 [p1 [_ [_ [H0 [H1 Hin]]]]]]].
  assert (Hshape : (exists card m,
                      e = StateDiffer.cardEvent ctx pid (PlayerStateSummary.name p1) card m)
                   \/ (exists n,
                      e = StateDiffer.unknownDrawn ctx pid (PlayerStateSummary.name p1) n)).
  { rewrite diffPlayer_parts, playedLoop_flat_map in Hin. cbn [fst snd] in Hin.
    rewrite !in_app_iff in Hin. destruct Hin as [Hin|[Hin|[Hin|Hin]]].
    - apply in_flat_map in Hin as [[uuid card] [_ Hin]].
      unfold StateDiffer.playedOf, StateDiffer.playedStep in Hin.
      destruct (StateDiffer.newInArena _ uuid); cbn [fst app] in Hin.
      + destruct Hin as [<-|[]]. left. now exists card, Played.
      + destruct (StateDiffer.newInRes _ uuid); cbn [fst] in Hin; [contradiction|].
        destruct (StateDiffer.newInDiscard _ uuid); cbn [fst] in Hin; [|contradiction].
        destruct (JS.map_get _ uuid) as [card2|]; cbn [fst app] in Hin; [|contradiction].
        destruct Hin as [<-|[]]. left. now exists card2, Played.
    - apply in_flat_map in Hin as [[uuid card] [_ Hin]].
      destruct (StateDiffer.newInRes _ uuid); [|contradiction].
      destruct Hin as [<-|[]]. left. now exists card, Resourced.
    - apply in_flat_map in Hin as [[uuid card] [_ Hin]].
      destruct (negb _ && negb _); [|contradiction].
      destruct Hin as [<-|[]]. left. now exists card, Discarded.
    - unfold StateDiffer.drawnPart in Hin.
      destruct (0 <? StateDiffer.deckDecrease p0 p1)%Z; [|contradiction].
      destruct (StateDiffer.newInHand _ p1) as [|c cards].
      + destruct Hin as [<-|[]]. right. now eexists.
      + apply in_map_iff in Hin as [card [<- _]]. left. now exists card, Drawn. }
  destruct Hshape as [[card [m ->]]|[n ->]]; cbn; (split; [reflexivity|]);
    (split; [reflexivity|]); now exists p1.
Qed.

Lemma diff_events_carry_context_witness :
  CardEvent.gameId
    (StateDiffer.cardEvent Scenario.ctx "A" "Alice" Scenario.u1 Played) = "g1"
  /\ CardEvent.roundNumber
       (StateDiffer.cardEvent Scenario.ctx "A" "Alice" Scenario.u1 Played) = 1%Z.
Proof.
  destruct (diff_events_carry_context Scenario.deploy_prev Scenario.deploy_next
              Scenario.ctx
              (StateDiffer.cardEvent Scenario.ctx "A" "Alice" Scenario.u1 Played))
    as [Hg [Hr _]].
  - simpl. now left.
  - split; [exact Hg | exact Hr].
Defined.

(** ** The differencer with provenance *)

Lemma map_flat_map {A B C : Type} (g : B -> C) (F : A -> list B) (l : list A) :
  map g (flat_map F l) = flat_map (fun a => map g (F a)) l.
Proof.
  induction l as [|a l IH]; simpl; [reflexivity|]. now rewrite map_app, IH.
Qed.

Lemma emitted_app (playerId uuid : string) (m : GameCardMetric)
    (a b : list Traced.TEvent) :
  Traced.emitted playerId uuid m (a ++ b)
  = (Traced.emitted playerId uuid m a + Traced.emitted playerId uuid m b)%nat.
Proof. unfold Traced.emitted. now rewrite filter_app, length_app. Qed.

Lemma emitted_none (playerId uuid : string) (m : GameCardMetric)
    (l : list Traced.TEvent) :
  (forall te, In te l -> Traced.isFor playerId uuid m te = false) ->
  Traced.emitted playerId uuid m l = 0%nat.
Proof. intros H. unfold Traced.emitted. now rewrite filter_none. Qed.

(** Over a map with distinct keys, a loop whose turn for key [k] pushes only
    events tagged [k] pushes, for [uuid], what its turn for [uuid] pushes. *)
Lemma emitted_flat_map_key (F : string * CardSummary.t -> list Traced.TEvent)
    (l : list (string * CardSummary.t)) (playerId uuid : string) (m : GameCardMetric) :
  NoDup (map fst l) ->
  (forall k c te, In te (F (k, c)) -> fst te = Some k) ->
  Traced.emitted playerId uuid m (flat_map F l)
  = match JS.get l uuid with
    | Some c => Traced.emitted playerId uuid m (F (uuid, c))
    | None => 0%nat
    end.
Proof.
  intros Hnd Htag. induction l as [|[k c] l IH]; [reflexivity|].
  cbn [flat_map JS.get]. rewrite emitted_app.
  inversion Hnd as [|? ? Hnotin Hnd']; subst. rewrite (IH Hnd').
  destruct (String.eqb_spec k uuid) as [->|Hne].
  - destruct (JS.get l uuid) as [c'|] eqn:Hget; [|lia].
    exfalso. apply Hnotin. apply get_In_keys. now exists c'.
  - rewrite (emitted_none _ _ _ (F (k, c))); [reflexivity|].
    intros te Hte. unfold Traced.isFor. rewrite (Htag k c te Hte).
    apply String.eqb_neq in Hne. now rewrite Hne.
Qed.

Lemma get_filter_key {V : Type} (g : string -> bool) (m : list (string * V)) (k : string) :
  JS.get (filter (fun e => g (fst e)) m) k = if g k then JS.get m k else None.
Proof.
  induction m as [|[k0 v0] m IH]; simpl; [now destruct (g k)|].
  destruct (g k0) eqn:Hg0; simpl.
  - destruct (String.eqb_spec k0 k) as [->|Hne]; [now rewrite Hg0 | assumption].
  - rewrite IH. destruct (String.eqb_spec k0 k) as [->|Hne]; [now rewrite Hg0 | reflexivity].
Qed.

Section TracedLoops.
Import StateDiffer.

Variable ctx : DiffContext.t.
Variables playerId playerName : string.
Variable z : Zones.t.
Hypothesis leftHand_distinct : NoDup (map fst (Zones.leftHand z)).
Hypothesis nextDiscard_distinct : NoDup (map fst (Zones.nextDiscard z)).

Lemma Traced_playedStep_acc (events : list Traced.TEvent) (pfd : list string)
    (entry : string * CardSummary.t) :
  Traced.playedStep ctx playerId playerName z (events, pfd) entry
  = (events ++ fst (Traced.playedOf ctx playerId playerName z entry),
     pfd ++ snd (Traced.playedOf ctx playerId playerName z entry)).
Proof.
  destruct entry as [uuid card]. unfold Traced.playedOf, Traced.playedStep.
  destruct (newInArena z uuid); [simpl; now rewrite app_nil_r|].
  destruct (newInRes z uuid); [simpl; now rewrite !app_nil_r|].
  destruct (newInDiscard z uuid); [|simpl; now rewrite !app_nil_r].
  destruct (JS.map_get (Zones.nextDiscard z) uuid); simpl; now rewrite ?app_nil_r.
Qed.

Lemma Traced_playedLoop_flat_map :
  Traced.playedLoop ctx playerId playerName z
  = (flat_map (fun e => fst (Traced.playedOf ctx playerId playerName z e)) (Zones.leftHand z),
     flat_map (fun e => snd (Traced.playedOf ctx playerId playerName z e)) (Zones.leftHand z)).
Proof.
  unfold Traced.playedLoop.
  assert (H : forall l events pfd,
    fold_left (Traced.playedStep ctx playerId playerName z) l (events, pfd)
    = (events ++ flat_map (fun e => fst (Traced.playedOf ctx playerId playerName z e)) l,
       pfd ++ flat_map (fun e => snd (Traced.playedOf ctx playerId playerName z e)) l)).
  { induction l as [|entry l IH]; intros events pfd; cbn [fold_left flat_map].
    - now rewrite !app_nil_r.
    - rewrite Traced_playedStep_acc, IH, <- !app_assoc. reflexivity. }
  now rewrite H.
Qed.

(** The tagged turn pushes the events of the plain turn and adds the same
    uuids to [playedFromHandToDiscard]. *)
Lemma Traced_playedOf_erase (entry : string * CardSummary.t) :
  map snd (fst (Traced.playedOf ctx playerId playerName z entry))
  = fst (playedOf ctx playerId playerName z entry)
  /\ snd (Traced.playedOf ctx playerId playerName z entry)
     = snd (playedOf ctx playerId playerName z entry).
Proof.
  destruct entry as [uuid card].
  unfold Traced.playedOf, Traced.playedStep, playedOf, playedStep.
  destruct (newInArena z uuid); [now split|].
  destruct (newInRes z uuid); [now split|].
  destruct (newInDiscard z uuid); [|now split].
  destruct (JS.map_get (Zones.nextDiscard z) uuid); now split.
Qed.

(** Has [uuid] left the hand? *)
Lemma inLeftHand_get (uuid : string) :
  JS.map_has (Zones.leftHand z) uuid = true
  <-> exists card, JS.get (Zones.leftHand z) uuid = Some card.
Proof.
  unfold JS.map_has, JS.map_get.
  destruct (JS.get (Zones.leftHand z) uuid) as [c|]; split; try congruence.
  - intros _. now exists c.
  - intros [c Hc]. discriminate.
Qed.

Lemma isFor_cardEvent (uuid k : string) (card : CardSummary.t) (m m' : GameCardMetric) :
  Traced.isFor playerId uuid m (Some k, cardEvent ctx playerId playerName card m')
  = (k =? uuid) && GameCardMetric_eqb m' m.
Proof.
  unfold Traced.isFor. simpl. now rewrite String.eqb_refl, andb_true_r.
Qed.

Lemma emitted_single (uuid k : string) (card : CardSummary.t) (m m' : GameCardMetric) :
  Traced.emitted playerId uuid m [(Some k, cardEvent ctx playerId playerName card m')]
  = if (k =? uuid) && GameCardMetric_eqb m' m then 1%nat else 0%nat.
Proof.
  unfold Traced.emitted. cbn [filter]. rewrite isFor_cardEvent.
  now destruct ((k =? uuid) && GameCardMetric_eqb m' m).
Qed.

Lemma Traced_playedOf_tag (k : string) (c : CardSummary.t) (te : Traced.TEvent) :
  In te (fst (Traced.playedOf ctx playerId playerName z (k, c))) -> fst te = Some k.
Proof.
  unfold Traced.playedOf, Traced.playedStep.
  destruct (newInArena z k); simpl; [now intros [<-|[]]|].
  destruct (newInRes z k); simpl; [contradiction|].
  destruct (newInDiscard z k); simpl; [|contradiction].
  destruct (JS.map_get (Zones.nextDiscard z) k); simpl; [now intros [<-|[]] | contradiction].
Qed.

Lemma newInDiscard_get (uuid : string) :
  newInDiscard z uuid = true ->
  exists card2, JS.map_get (Zones.nextDiscard z) uuid = Some card2.
Proof.
  unfold newInDiscard, JS.map_has. intros H. apply andb_true_iff in H as [H _].
  destruct (JS.map_get (Zones.nextDiscard z) uuid) as [c|]; [now exists c | discriminate].
Qed.

Lemma emitted_playedOf (uuid : string) (card : CardSummary.t) (m : GameCardMetric) :
  Traced.emitted playerId uuid m (fst (Traced.playedOf ctx playerId playerName z (uuid, card)))
  = if playedRoute z uuid && GameCardMetric_eqb Played m then 1%nat else 0%nat.
Proof.
  unfold Traced.playedOf, Traced.playedStep, playedRoute.
  destruct (newInArena z uuid); cbn [fst orb andb].
  - simpl app. now rewrite emitted_single, String.eqb_refl.
  - destruct (newInRes z uuid); cbn [negb andb fst]; [reflexivity|].
    destruct (newInDiscard z uuid) eqn:Hd; cbn [fst]; [|reflexivity].
    destruct (newInDiscard_get uuid Hd) as [card2 ->]. cbn [fst]. simpl app.
    now rewrite emitted_single, String.eqb_refl.
Qed.

(** The [played] part: for a uuid that left the hand, one event when it has a
    route, none otherwise; for any other uuid, none. *)
Lemma emitted_in_played (uuid : string) (m : GameCardMetric) :
  Traced.emitted playerId uuid m (fst (Traced.playedLoop ctx playerId playerName z))
  = if JS.map_has (Zones.leftHand z) uuid && playedRoute z uuid
       && GameCardMetric_eqb Played m
    then 1%nat else 0%nat.
Proof.
  rewrite Traced_playedLoop_flat_map. cbn [fst].
  rewrite (emitted_flat_map_key _ _ _ _ _ leftHand_distinct Traced_playedOf_tag).
  unfold JS.map_has, JS.map_get.
  destruct (JS.get (Zones.leftHand z) uuid) as [card|]; [|reflexivity].
  rewrite emitted_playedOf. now rewrite andb_true_l.
Qed.

Lemma emitted_in_resourced (uuid : string) (m : GameCardMetric) :
  Traced.emitted playerId uuid m (Traced.resourcedLoop ctx playerId playerName z)
  = if JS.map_has (Zones.leftHand z) uuid && newInRes z uuid
       && GameCardMetric_eqb Resourced m
    then 1%nat else 0%nat.
Proof.
  unfold Traced.resourcedLoop.
  rewrite (emitted_flat_map_key _ _ _ _ _ leftHand_distinct).
  - unfold JS.map_has, JS.map_get.
    destruct (JS.get (Zones.leftHand z) uuid) as [card|]; [|reflexivity].
    cbn [andb]. destruct (newInRes z uuid); [|reflexivity].
    now rewrite emitted_single, String.eqb_refl.
  - intros k c te. destruct (newInRes z k); simpl; [now intros [<-|[]] | contradiction].
Qed.

Lemma emitted_in_discarded (pfd : list string) (uuid : string) (m : GameCardMetric) :
  Traced.emitted playerId uuid m (Traced.discardedLoop ctx playerId playerName z pfd)
  = if newInDiscard z uuid && negb (JS.set_has pfd uuid)
       && GameCardMetric_eqb Discarded m
    then 1%nat else 0%nat.
Proof.
  unfold Traced.discardedLoop.
  rewrite (emitted_flat_map_key _ _ _ _ _ nextDiscard_distinct).
  - unfold newInDiscard, JS.map_has, JS.map_get.
    destruct (JS.get (Zones.nextDiscard z) uuid) as [card|]; [|reflexivity].
    cbn [andb].
    destruct (negb (JS.set_has (Zones.prevDiscard z) uuid)); cbn [andb]; [|reflexivity].
    destruct (negb (JS.set_has pfd uuid)); cbn [andb]; [|reflexivity].
    now rewrite emitted_single, String.eqb_refl.
  - intros k c te.
    destruct (negb (JS.set_has (Zones.prevDiscard z) k) && negb (JS.set_has pfd k));
      simpl; [now intros [<-|[]] | contradiction].
Qed.

Lemma emitted_in_drawn (p0 p1 : PlayerStateSummary.t) (uuid : string) (m : GameCardMetric) :
  m <> Drawn ->
  Traced.emitted playerId uuid m (Traced.drawnPart ctx playerId playerName z p0 p1) = 0%nat.
Proof.
  intros Hm. apply emitted_none. intros te Hte. unfold Traced.drawnPart in Hte.
  destruct (0 <? deckDecrease p0 p1)%Z; [|contradiction].
  assert (Hmetric : CardEvent.metric (snd te) = Drawn).
  { destruct (newInHand z p1) as [|c cards].
    - now destruct Hte as [<-|[]].
    - apply in_map_iff in Hte as [card [<- _]]. reflexivity. }
  unfold Traced.isFor. rewrite Hmetric.
  destruct m; try (now rewrite andb_false_r). congruence.
Qed.

(** [playedFromHandToDiscard] after the PLAYED loop: the uuids that left the
    hand and were played by way of the discard pile. *)
Lemma playedFromHandToDiscard_has (uuid : string) :
  JS.set_has (snd (Traced.playedLoop ctx playerId playerName z)) uuid
  = JS.map_has (Zones.leftHand z) uuid
    && negb (newInArena z uuid) && negb (newInRes z uuid) && newInDiscard z uuid.
Proof.
  rewrite Traced_playedLoop_flat_map. cbn [snd].
  match goal with |- ?lhs = ?rhs => destruct rhs eqn:Hrhs end.
  - apply set_has_In. apply in_flat_map.
    apply andb_true_iff in Hrhs as [Hrhs Hd].
    apply andb_true_iff in Hrhs as [Hrhs Hr].
    apply andb_true_iff in Hrhs as [Hleft Ha].
    apply inLeftHand_get in Hleft as [card Hcard].
    exists (uuid, card). split; [now apply get_In|].
    unfold Traced.playedOf, Traced.playedStep.
    apply negb_true_iff in Ha, Hr. rewrite Ha, Hr, Hd.
    destruct (newInDiscard_get uuid Hd) as [card2 ->]. simpl. now left.
  - apply set_has_not_In. intros Hin. apply in_flat_map in Hin as [[k c] [Hk Hin]].
    unfold Traced.playedOf, Traced.playedStep in Hin.
    destruct (newInArena z k) eqn:Ha; [contradiction|].
    destruct (newInRes z k) eqn:Hr; [contradiction|].
    destruct (newInDiscard z k) eqn:Hd; [|contradiction].
    destruct (JS.map_get (Zones.nextDiscard z) k); [|contradiction].
    destruct Hin as [<-|[]].
    assert (Hleft : JS.map_has (Zones.leftHand z) k = true).
    { apply map_has_In. change k with (fst (k, c)). now apply in_map. }
    rewrite Hleft, Ha, Hr, Hd in Hrhs. discriminate.
Qed.

End TracedLoops.

Lemma zones_distinct (p0 p1 : PlayerStateSummary.t) :
  NoDup (map fst (StateDiffer.Zones.leftHand (StateDiffer.zones p0 p1)))
  /\ NoDup (map fst (StateDiffer.Zones.nextDiscard (StateDiffer.zones p0 p1))).
Proof.
  split; simpl.
  - apply NoDup_filter_keys, byUuid_NoDup.
  - apply byUuid_NoDup.
Qed.

Lemma Traced_diffPlayer_parts (ctx : StateDiffer.DiffContext.t) (playerId : string)
    (p0 p1 : PlayerStateSummary.t) :
  Traced.diffPlayer ctx playerId p0 p1
  = fst (Traced.playedLoop ctx playerId (PlayerStateSummary.name p1)
           (StateDiffer.zones p0 p1))
    ++ Traced.resourcedLoop ctx playerId (PlayerStateSummary.name p1)
         (StateDiffer.zones p0 p1)
    ++ Traced.discardedLoop ctx playerId (PlayerStateSummary.name p1)
         (StateDiffer.zones p0 p1)
         (snd (Traced.playedLoop ctx playerId (PlayerStateSummary.name p1)
                 (StateDiffer.zones p0 p1)))
    ++ Traced.drawnPart ctx playerId (PlayerStateSummary.name p1)
         (StateDiffer.zones p0 p1) p0 p1.
Proof.
  unfold Traced.diffPlayer.
  destruct (Traced.playedLoop ctx playerId (PlayerStateSummary.name p1)
              (StateDiffer.zones p0 p1)) as [played pfd].
  reflexivity.
Qed.

(** Forgetting the tags gives the events of the source's loop body. *)
Lemma Traced_diffPlayer_erase (ctx : StateDiffer.DiffContext.t) (playerId : string)
    (p0 p1 : PlayerStateSummary.t) :
  map snd (Traced.diffPlayer ctx playerId p0 p1)
  = StateDiffer.diffPlayer ctx playerId p0 p1.
Proof.
  rewrite Traced_diffPlayer_parts, diffPlayer_parts, !map_app.
  rewrite Traced_playedLoop_flat_map, playedLoop_flat_map. cbn [fst snd].
  f_equal; [|f_equal; [|f_equal]].
  - rewrite map_flat_map. apply flat_map_ext. intros e. apply Traced_playedOf_erase.
  - unfold Traced.resourcedLoop, StateDiffer.resourcedLoop. rewrite map_flat_map.
    apply flat_map_ext. intros [uuid card].
    now destruct (StateDiffer.newInRes (StateDiffer.zones p0 p1) uuid).
  - replace (flat_map (fun e => snd (Traced.playedOf ctx playerId
                (PlayerStateSummary.name p1) (StateDiffer.zones p0 p1) e))
               (StateDiffer.Zones.leftHand (StateDiffer.zones p0 p1)))
      with (flat_map (fun e => snd (StateDiffer.playedOf ctx playerId
                (PlayerStateSummary.name p1) (StateDiffer.zones p0 p1) e))
               (StateDiffer.Zones.leftHand (StateDiffer.zones p0 p1)))
      by (apply flat_map_ext; intros e; symmetry; apply Traced_playedOf_erase).
    unfold Traced.discardedLoop, StateDiffer.discardedLoop. rewrite map_flat_map.
    apply flat_map_ext. intros [uuid card].
    now destruct (negb _ && negb _).
  - unfold Traced.drawnPart, StateDiffer.drawnPart.
    destruct (0 <? StateDiffer.deckDecrease p0 p1)%Z; [|reflexivity].
    destruct (StateDiffer.newInHand (StateDiffer.zones p0 p1) p1) as [|c cards];
      [reflexivity|].
    now rewrite map_map.
Qed.

Lemma Traced_diffSnapshots_erase (prev next : IGameState.t)
    (ctx : StateDiffer.DiffContext.t) :
  map snd (Traced.diffSnapshots prev next ctx) = StateDiffer.diffSnapshots prev next ctx.
Proof.
  unfold Traced.diffSnapshots, StateDiffer.diffSnapshots. rewrite map_flat_map.
  apply flat_map_ext. intros playerId.
  destruct (StateDiffer.skipped ctx playerId); [reflexivity|].
  destruct (JS.get (IGameState.players prev) playerId) as [p0|]; [|reflexivity].
  destruct (JS.get (IGameState.players next) playerId) as [p1|]; [|reflexivity].
  apply Traced_diffPlayer_erase.
Qed.

(** How many events of each kind one player's pass pushes for a uuid. *)
Lemma emitted_diffPlayer (ctx : StateDiffer.DiffContext.t) (playerId : string)
    (p0 p1 : PlayerStateSummary.t) (uuid : string) :
  let z := StateDiffer.zones p0 p1 in
  let left := JS.map_has (StateDiffer.Zones.leftHand z) uuid in
  Traced.emitted playerId uuid Played (Traced.diffPlayer ctx playerId p0 p1)
  = (if left && StateDiffer.playedRoute z uuid then 1 else 0)%nat
  /\ Traced.emitted playerId uuid Resourced (Traced.diffPlayer ctx playerId p0 p1)
     = (if left && StateDiffer.newInRes z uuid then 1 else 0)%nat
  /\ Traced.emitted playerId uuid Discarded (Traced.diffPlayer ctx playerId p0 p1)
     = (if StateDiffer.newInDiscard z uuid
           && negb (left && negb (StateDiffer.newInArena z uuid)
                    && negb (StateDiffer.newInRes z uuid))
        then 1 else 0)%nat.
Proof.
  intros z left.
  destruct (zones_distinct p0 p1) as [HL HD]. fold z in HL, HD.
  rewrite Traced_diffPlayer_parts, !emitted_app. fold z.
  rewrite !(emitted_in_played ctx playerId _ z HL),
          !(emitted_in_resourced ctx playerId _ z HL),
          !(emitted_in_discarded ctx playerId _ z HD),
          !emitted_in_drawn by discriminate.
  rewrite (playedFromHandToDiscard_has ctx playerId _ z). fold left.
  cbn [GameCardMetric_eqb]. rewrite !andb_false_r, !andb_true_r.
  repeat split.
  - destruct (left && StateDiffer.playedRoute z uuid); reflexivity.
  - destruct (left && StateDiffer.newInRes z uuid); reflexivity.
  - destruct left, (StateDiffer.newInArena z uuid), (StateDiffer.newInRes z uuid),
      (StateDiffer.newInDiscard z uuid); reflexivity.
Qed.

Lemma Traced_diffPlayer_playerId (ctx : StateDiffer.DiffContext.t) (playerId : string)
    (p0 p1 : PlayerStateSummary.t) (te : Traced.TEvent) :
  In te (Traced.diffPlayer ctx playerId p0 p1) -> CardEvent.playerId (snd te) = playerId.
Proof.
  intros Hin. apply (in_map snd) in Hin. rewrite Traced_diffPlayer_erase in Hin.
  now apply diffPlayer_events in Hin.
Qed.

(** In a whole call, the events for a player and a uuid are those of the
    player's pass. *)
Lemma emitted_diffSnapshots (prev next : IGameState.t) (ctx : StateDiffer.DiffContext.t)
    (playerId : string) (p0 p1 : PlayerStateSummary.t) (uuid : string) (m : GameCardMetric) :
  NoDup (JS.keys (IGameState.players next)) ->
  StateDiffer.skipped ctx playerId = false ->
  JS.get (IGameState.players prev) playerId = Some p0 ->
  JS.get (IGameState.players next) playerId = Some p1 ->
  Traced.emitted playerId uuid m (Traced.diffSnapshots prev next ctx)
  = Traced.emitted playerId uuid m (Traced.diffPlayer ctx playerId p0 p1).
Proof.
  intros Hnd Hskip H0 H1. unfold Traced.emitted, Traced.diffSnapshots.
  rewrite filter_flat_map.
  rewrite (flat_map_only_key _ playerId _ Hnd).
  - now rewrite set_has_keys_get, Hskip, H0, H1.
  - intros k' Hne.
    destruct (StateDiffer.skipped ctx k'); [reflexivity|].
    destruct (JS.get (IGameState.players prev) k') as [q0|]; [|reflexivity].
    destruct (JS.get (IGameState.players next) k') as [q1|]; [|reflexivity].
    apply filter_none. intros te Hte.
    apply Traced_diffPlayer_playerId in Hte. unfold Traced.isFor. rewrite Hte.
    apply String.eqb_neq in Hne. now rewrite Hne, andb_false_r.
Qed.

Section ZoneTests.
Import StateDiffer.

Variables p0 p1 : PlayerStateSummary.t.
Variable uuid : string.

Lemma leftHand_has :
  JS.map_has (Zones.leftHand (zones p0 p1)) uuid = true
  <-> In uuid (uuidSet (CardPiles.hand (PlayerStateSummary.cardPiles p0)))
      /\ ~ In uuid (uuidSet (CardPiles.hand (PlayerStateSummary.cardPiles p1))).
Proof.
  unfold JS.map_has, JS.map_get. cbn [zones Zones.leftHand].
  rewrite (get_filter_key
             (fun k => negb (JS.set_has
                (uuidSet (CardPiles.hand (PlayerStateSummary.cardPiles p1))) k))).
  rewrite <- byUuid_keys, <- set_has_not_In, <- map_has_In.
  unfold JS.map_has, JS.map_get.
  destruct (JS.set_has _ uuid); cbn [negb].
  - split; [discriminate | intros [_ H]; discriminate].
  - destruct (JS.get _ uuid) as [c|]; [now split | split; [discriminate | now intros [H _]]].
Qed.

Lemma newInArena_true :
  newInArena (zones p0 p1) uuid = true
  <-> In uuid (uuidSet (allArena p1)) /\ ~ In uuid (uuidSet (allArena p0)).
Proof.
  unfold newInArena. cbn [zones Zones.prevArena Zones.nextArena].
  rewrite andb_true_iff, negb_true_iff, set_has_In, set_has_not_In. tauto.
Qed.

Lemma newInRes_true :
  newInRes (zones p0 p1) uuid = true <-> newlyResourced p0 p1 uuid.
Proof.
  unfold newInRes, newlyResourced. cbn [zones Zones.prevRes Zones.nextRes].
  rewrite andb_true_iff, negb_true_iff, set_has_In, set_has_not_In. tauto.
Qed.

Lemma newInDiscard_true :
  newInDiscard (zones p0 p1) uuid = true <-> newlyDiscarded p0 p1 uuid.
Proof.
  unfold newInDiscard, newlyDiscarded. cbn [zones Zones.prevDiscard Zones.nextDiscard].
  rewrite andb_true_iff, negb_true_iff, map_has_In, byUuid_keys, set_has_not_In. tauto.
Qed.

End ZoneTests.

(** What the call emits for one diffed player (present in both snapshots,
    not skipped), whatever the snapshots list: for a uuid that moves from the
    hand of the player to its arena, exactly one played event; no resourced
    event unless the uuid is also new in the resources of the player, and no
    discarded event unless it is also new in its discard pile.  ([NoDup] of
    the keys: the keys of an object are distinct.) *)
Lemma played_once_for_player (prev next : IGameState.t)
    (ctx : StateDiffer.DiffContext.t) (playerId : string)
    (p0 p1 : PlayerStateSummary.t) :
  NoDup (JS.keys (IGameState.players next)) ->
  StateDiffer.skipped ctx playerId = false ->
  JS.get (IGameState.players prev) playerId = Some p0 ->
  JS.get (IGameState.players next) playerId = Some p1 ->
  map snd (Traced.diffSnapshots prev next ctx) = StateDiffer.diffSnapshots prev next ctx
  /\ (forall uuid, movesHandToArena p0 p1 uuid ->
     Traced.emitted playerId uuid Played (Traced.diffSnapshots prev next ctx) = 1%nat
     /\ (~ newlyResourced p0 p1 uuid ->
         Traced.emitted playerId uuid Resourced (Traced.diffSnapshots prev next ctx) = 0%nat)
     /\ (~ newlyDiscarded p0 p1 uuid ->
         Traced.emitted playerId uuid Discarded (Traced.diffSnapshots prev next ctx) = 0%nat))
  /\ (forall uuid,
        (0 < Traced.emitted playerId uuid Played (Traced.diffSnapshots prev next ctx))%nat ->
        (0 < Traced.emitted playerId uuid Discarded (Traced.diffSnapshots prev next ctx))%nat ->
        (In uuid (StateDiffer.uuidSet (StateDiffer.allArena p1))
         /\ ~ In uuid (StateDiffer.uuidSet (StateDiffer.allArena p0)))
        /\ newlyDiscarded p0 p1 uuid).
Proof.
  intros Hnd Hskip H0 H1. split; [apply Traced_diffSnapshots_erase|]. split.
  - intros uuid [Hh0 [Hh1 [Ha1 Ha0]]].
    rewrite !(emitted_diffSnapshots prev next ctx playerId p0 p1 _ _ Hnd Hskip H0 H1).
    destruct (emitted_diffPlayer ctx playerId p0 p1 uuid) as [HP [HR HD]].
    cbv zeta in HP, HR, HD. rewrite HP, HR, HD.
    assert (Hleft : JS.map_has (StateDiffer.Zones.leftHand (StateDiffer.zones p0 p1)) uuid
                    = true) by (apply leftHand_has; now split).
    assert (Harena : StateDiffer.newInArena (StateDiffer.zones p0 p1) uuid = true)
      by (apply newInArena_true; now split).
    unfold StateDiffer.playedRoute. rewrite Hleft, Harena. cbn [andb orb negb].
    split; [reflexivity|]. split.
    + intros Hres. rewrite <- newInRes_true in Hres.
      now destruct (StateDiffer.newInRes (StateDiffer.zones p0 p1) uuid).
    + intros Hdis. rewrite <- newInDiscard_true in Hdis.
      now destruct (StateDiffer.newInDiscard (StateDiffer.zones p0 p1) uuid).
  - intros uuid.
    rewrite !(emitted_diffSnapshots prev next ctx playerId p0 p1 _ _ Hnd Hskip H0 H1).
    destruct (emitted_diffPlayer ctx playerId p0 p1 uuid) as [HP [_ HD]].
    cbv zeta in HP, HD. rewrite HP, HD. unfold StateDiffer.playedRoute.
    rewrite <- newInArena_true, <- newInDiscard_true.
    destruct (JS.map_has _ uuid), (StateDiffer.newInArena _ uuid),
      (StateDiffer.newInRes _ uuid), (StateDiffer.newInDiscard _ uuid);
      cbn [andb orb negb]; intros HlP HlD; try lia; now split.
Qed.









(** The data model is needed: here the next snapshot lists [u1] in the ground
    arena and in the discard pile of Alice at once, and the call emits a
    played event and a discarded event for it. *)
Lemma data_model_needed_for_played_once :
  ~ oneZonePerInstance Scenario.twoZones_next
  /\ movesHandToArena
    (Scenario.player "pA" "Alice" (Scenario.piles [Scenario.u1] [] [] [] []) 30%Z)
    (Scenario.player "pA" "Alice"
       (Scenario.piles [] [] [Scenario.u1] [] [Scenario.u1]) 30%Z)
    "u1"
  /\ StateDiffer.diffSnapshots Scenario.deploy_prev Scenario.twoZones_next Scenario.ctx
     = [StateDiffer.cardEvent Scenario.ctx "A" "Alice" Scenario.u1 Played;
        StateDiffer.cardEvent Scenario.ctx "A" "Alice" Scenario.u1 Discarded]
  /\ Traced.emitted "A" "u1" Played
       (Traced.diffSnapshots Scenario.deploy_prev Scenario.twoZones_next Scenario.ctx) = 1%nat
  /\ Traced.emitted "A" "u1" Discarded
       (Traced.diffSnapshots Scenario.deploy_prev Scenario.twoZones_next Scenario.ctx) = 1%nat.
Proof.
  split; [|split; [|repeat split]].
  - intros Hone.
    destruct (Hone "A"
                (Scenario.player "pA" "Alice"
                   (Scenario.piles [] [] [Scenario.u1] [] [Scenario.u1]) 30%Z)
                ArenaZone "A"
                (Scenario.player "pA" "Alice"
                   (Scenario.piles [] [] [Scenario.u1] [] [Scenario.u1]) 30%Z)
                DiscardZone "u1" eq_refl eq_refl) as [_ Hz];
      [now left | now left | discriminate Hz].
  - unfold movesHandToArena. simpl. intuition discriminate.
Qed.

(** ** The session recorder *)

(** Projections of the field updates. *)
Ltac fields :=
  cbn [GameRecorder.gameId GameRecorder.startedAt GameRecorder.prevState
       GameRecorder.cardEvents GameRecorder.rawLog GameRecorder.players
       GameRecorder.isLimitedFormat GameRecorder.format GameRecorder.roundNumber
       GameRecorder.completed GameRecorder.snapshots GameRecorder.currentRoundLogs
       GameRecorder.currentRoundBaseHpChanges GameRecorder.lastKnownYouHp
       GameRecorder.lastKnownOppHp GameRecorder.prevPhase GameRecorder.localPlayerId
       GameRecorder.set_localPlayerId GameRecorder.set_cardEvents GameRecorder.set_rawLog
       GameRecorder.set_currentRoundLogs GameRecorder.set_currentRoundBaseHpChanges
       GameRecorder.set_roundNumber GameRecorder.set_snapshots
       GameRecorder.set_lastKnownYouHp GameRecorder.set_lastKnownOppHp
       GameRecorder.set_prevPhase GameRecorder.set_prevState GameRecorder.set_completed
       GameRecorder.set_players] in *.

Section RecorderSteps.
Import GameRecorder.

Variable now : string.
Variable r : t.
Variable state : IGameState.t.

(** What the steps of [ingest] leave alone. *)
Lemma resolveLocalPlayer_frame :
  let r' := resolveLocalPlayer r state in
  gameId r' = gameId r /\ completed r' = completed r /\ players r' = players r
  /\ roundNumber r' = roundNumber r /\ snapshots r' = snapshots r
  /\ prevPhase r' = prevPhase r /\ prevState r' = prevState r
  /\ cardEvents r' = cardEvents r.
Proof.
  unfold resolveLocalPlayer.
  destruct (negb (JS.truthy_opt (localPlayerId r)) && JS.truthy (IGameState.playerUpdate state));
    cbv zeta; repeat split.
Qed.

Lemma capturePlayers_frame :
  let r' := capturePlayers r state in
  gameId r' = gameId r /\ completed r' = completed r
  /\ roundNumber r' = roundNumber r /\ snapshots r' = snapshots r
  /\ prevPhase r' = prevPhase r /\ prevState r' = prevState r
  /\ cardEvents r' = cardEvents r /\ localPlayerId r' = localPlayerId r.
Proof.
  unfold capturePlayers. destruct (players r); [cbv zeta; repeat split|].
  destruct (2 <=? List.length (JS.keys (IGameState.players state)))%nat;
    [|cbv zeta; repeat split].
  destruct (JS.get (IGameState.players state) _); [|cbv zeta; repeat split].
  destruct (JS.get (IGameState.players state) _); cbv zeta; repeat split.
Qed.

(** No pair is captured from a snapshot with fewer than two player keys. *)
Lemma capturePlayers_few :
  players r = None ->
  (List.length (JS.keys (IGameState.players state)) < 2)%nat ->
  capturePlayers r state = r.
Proof.
  intros Hp Hlen. unfold capturePlayers. rewrite Hp.
  destruct (Nat.leb_spec 2 (List.length (JS.keys (IGameState.players state))));
    [lia | reflexivity].
Qed.

Lemma accumulateLog_frame :
  let r' := accumulateLog r state in
  gameId r' = gameId r /\ completed r' = completed r /\ players r' = players r
  /\ roundNumber r' = roundNumber r /\ snapshots r' = snapshots r
  /\ prevPhase r' = prevPhase r /\ prevState r' = prevState r
  /\ localPlayerId r' = localPlayerId r
  /\ cardEvents r'
     = cardEvents r
       ++ LogParser.parseLogEntries (gameId r) (JS.Math_max 1 (roundNumber r))
            (IGameState.newMessages state).
Proof.
  unfold accumulateLog.
  destruct (IGameState.newMessages state); cbv zeta; repeat split.
  simpl. now rewrite app_nil_r.
Qed.

Lemma startRound_frame :
  let r' := startRound now r state in
  gameId r' = gameId r /\ completed r' = completed r /\ players r' = players r
  /\ prevPhase r' = prevPhase r /\ prevState r' = prevState r
  /\ cardEvents r' = cardEvents r /\ localPlayerId r' = localPlayerId r
  /\ roundNumber r' = JS.Math_max (roundNumber r + 1) 1.
Proof.
  unfold startRound. cbv zeta.
  destruct (captureSnapshot now _ state _); [|repeat split].
  fields.
  destruct (players r) as [[localPlayer oppPlayer]|] eqn:Hp; fields;
    repeat split; now rewrite ?Hp.
Qed.

Lemma sampleHp_frame :
  let r' := sampleHp r state in
  gameId r' = gameId r /\ completed r' = completed r /\ players r' = players r
  /\ prevPhase r' = prevPhase r /\ prevState r' = prevState r
  /\ cardEvents r' = cardEvents r /\ localPlayerId r' = localPlayerId r
  /\ roundNumber r' = roundNumber r /\ snapshots r' = snapshots r.
Proof.
  unfold sampleHp. cbv zeta.
  destruct (players r) as [[localPlayer oppPlayer]|] eqn:Hp; [|now repeat split].
  destruct (JS.get (IGameState.players state) _); [|repeat split; now rewrite ?Hp].
  destruct (JS.get (IGameState.players state) _); [|repeat split; now rewrite ?Hp].
  destruct (lastKnownYouHp r); [|repeat split; fields; now rewrite ?Hp].
  destruct (negb _ || negb _); repeat split; fields; now rewrite ?Hp.
Qed.

Lemma trackRound_frame :
  let r' := trackRound now r state in
  gameId r' = gameId r /\ completed r' = completed r /\ players r' = players r
  /\ prevState r' = prevState r
  /\ cardEvents r' = cardEvents r /\ localPlayerId r' = localPlayerId r
  /\ prevPhase r' = Some (IGameState.phase state).
Proof.
  unfold trackRound. cbv zeta.
  destruct (PhaseName_eqb (IGameState.phase state) Action
            && negb (isAction (prevPhase r)) && hasPlayers r).
  - destruct startRound_frame as [? [? [? [? [? [? [? ?]]]]]]]. repeat split; assumption.
  - destruct (PhaseName_eqb (IGameState.phase state) Action
              && isAction (prevPhase r) && hasPlayers r).
    + destruct sampleHp_frame as [? [? [? [? [? [? [? [? ?]]]]]]]].
      repeat split; assumption.
    + repeat split.
Qed.

(** The round number after the round detection of a call. *)
Lemma trackRound_roundNumber :
  roundNumber (trackRound now r state)
  = if PhaseName_eqb (IGameState.phase state) Action
       && negb (isAction (prevPhase r)) && hasPlayers r
    then JS.Math_max (roundNumber r + 1) 1
    else roundNumber r.
Proof.
  unfold trackRound. cbv zeta.
  destruct (PhaseName_eqb (IGameState.phase state) Action
            && negb (isAction (prevPhase r)) && hasPlayers r).
  - now destruct startRound_frame as [_ [_ [_ [_ [_ [_ [_ ?]]]]]]].
  - destruct (PhaseName_eqb (IGameState.phase state) Action
              && isAction (prevPhase r) && hasPlayers r); [|reflexivity].
    now destruct sampleHp_frame as [_ [_ [_ [_ [_ [_ [_ [? _]]]]]]]].
Qed.

(** Without a new round the snapshots list stays as it is. *)
Lemma trackRound_snapshots :
  PhaseName_eqb (IGameState.phase state) Action
    && negb (isAction (prevPhase r)) && hasPlayers r = false ->
  snapshots (trackRound now r state) = snapshots r.
Proof.
  intros Hno. unfold trackRound. cbv zeta. rewrite Hno.
  destruct (PhaseName_eqb (IGameState.phase state) Action
            && isAction (prevPhase r) && hasPlayers r); [|reflexivity].
  now destruct sampleHp_frame as [_ [_ [_ [_ [_ [_ [_ [_ ?]]]]]]]].
Qed.

Lemma diffStep_frame :
  let r' := diffStep r state in
  gameId r' = gameId r /\ completed r' = completed r /\ players r' = players r
  /\ roundNumber r' = roundNumber r /\ snapshots r' = snapshots r
  /\ prevPhase r' = prevPhase r /\ localPlayerId r' = localPlayerId r
  /\ prevState r' = Some state
  /\ cardEvents r'
     = cardEvents r
       ++ match prevState r with
          | Some prev =>
              StateDiffer.diffSnapshots prev state
                {| StateDiffer.DiffContext.gameId := gameId r;
                   StateDiffer.DiffContext.roundNumber := roundNumber r;
                   StateDiffer.DiffContext.localPlayerId := localPlayerId r |}
          | None => []
          end.
Proof.
  unfold diffStep. cbv zeta. destruct (prevState r); repeat split.
  simpl. now rewrite app_nil_r.
Qed.

End RecorderSteps.

Section RecorderCall.
Import GameRecorder.

Variable now : string.
Variable r : t.
Variable state : IGameState.t.

(** The recorder after lines 85-199 of a call. *)
Lemma observe_frame :
  let r' := observe now r state in
  gameId r' = gameId r
  /\ completed r' = completed r
  /\ players r' = players (capturePlayers (resolveLocalPlayer r state) state)
  /\ prevPhase r' = Some (IGameState.phase state)
  /\ prevState r' = Some state
  /\ roundNumber r'
     = (if beginsRound r state then JS.Math_max (roundNumber r + 1) 1 else roundNumber r)
  /\ (beginsRound r state = false -> snapshots r' = snapshots r).
Proof.
  unfold observe. cbv zeta.
  set (r1 := resolveLocalPlayer r state).
  set (r2 := capturePlayers r1 state).
  set (r3 := accumulateLog r2 state).
  set (r4 := trackRound now r3 state).
  destruct (resolveLocalPlayer_frame r state) as [A1 [A2 [A3 [A4 [A5 [A6 [A7 A8]]]]]]].
  destruct (capturePlayers_frame r1 state) as [B1 [B2 [B3 [B4 [B5 [B6 [B7 B8]]]]]]].
  destruct (accumulateLog_frame r2 state) as [C1 [C2 [C3 [C4 [C5 [C6 [C7 [C8 C9]]]]]]]].
  destruct (trackRound_frame now r3 state) as [D1 [D2 [D3 [D4 [D5 [D6 D7]]]]]].
  destruct (diffStep_frame r4 state) as [E1 [E2 [E3 [E4 [E5 [E6 [E7 [E8 E9]]]]]]]].
  cbv zeta in *. fold r1 in A1, A2, A3, A4, A5, A6, A7, A8.
  fold r2 in B1, B2, B3, B4, B5, B6, B7, B8.
  fold r3 in C1, C2, C3, C4, C5, C6, C7, C8, C9.
  fold r4 in D1, D2, D3, D4, D5, D6, D7.
  assert (Hcond : PhaseName_eqb (IGameState.phase state) Action
                  && negb (isAction (prevPhase r3)) && hasPlayers r3
                  = beginsRound r state).
  { unfold beginsRound, playersKnown, hasPlayers. fold r1. fold r2.
    now rewrite C3, C6, B5, A6. }
  repeat apply conj.
  - congruence.
  - congruence.
  - congruence.
  - congruence.
  - assumption.
  - rewrite E4. unfold r4. rewrite trackRound_roundNumber, Hcond. now rewrite C4, B3, A4.
  - intros Hno. rewrite E5. unfold r4. rewrite trackRound_snapshots by congruence.
    congruence.
Qed.

(** The events a call appends: those parsed from the log, then those of the
    diff against the previous snapshot when there is one. *)
Lemma observe_cardEvents :
  exists logEvents diffEvents,
    cardEvents (observe now r state) = cardEvents r ++ logEvents ++ diffEvents
    /\ logEvents
       = LogParser.parseLogEntries (gameId r) (JS.Math_max 1 (roundNumber r))
           (IGameState.newMessages state)
    /\ match prevState r with
       | Some prev =>
           exists ctx,
             diffEvents = StateDiffer.diffSnapshots prev state ctx
             /\ StateDiffer.DiffContext.localPlayerId ctx
                = localPlayerId (resolveLocalPlayer r state)
       | None => diffEvents = []
       end.
Proof.
  unfold observe. cbv zeta.
  set (r1 := resolveLocalPlayer r state).
  set (r2 := capturePlayers r1 state).
  set (r3 := accumulateLog r2 state).
  set (r4 := trackRound now r3 state).
  destruct (resolveLocalPlayer_frame r state) as [A1 [A2 [A3 [A4 [A5 [A6 [A7 A8]]]]]]].
  destruct (capturePlayers_frame r1 state) as [B1 [B2 [B3 [B4 [B5 [B6 [B7 B8]]]]]]].
  destruct (accumulateLog_frame r2 state) as [C1 [C2 [C3 [C4 [C5 [C6 [C7 [C8 C9]]]]]]]].
  destruct (trackRound_frame now r3 state) as [D1 [D2 [D3 [D4 [D5 [D6 D7]]]]]].
  destruct (diffStep_frame r4 state) as [E1 [E2 [E3 [E4 [E5 [E6 [E7 [E8 E9]]]]]]]].
  cbv zeta in *. fold r1 in A1, A2, A3, A4, A5, A6, A7, A8.
  fold r2 in B1, B2, B3, B4, B5, B6, B7, B8.
  fold r3 in C1, C2, C3, C4, C5, C6, C7, C8, C9.
  fold r4 in D1, D2, D3, D4, D5, D6, D7.
  eexists. eexists. split; [|split; [reflexivity|]].
  - rewrite E9, D5, C9, B7, A8, B1, A1, B3, A4, <- app_assoc. reflexivity.
  - rewrite D4, C7, B6, A7. destruct (prevState r) as [prev|]; [|reflexivity].
    eexists. split; [reflexivity|].
    cbn [StateDiffer.DiffContext.localPlayerId]. now rewrite D6, C8, B8.
Qed.

(** The events a call appends, with the context of the diff: the call diffs
    after its round detection, with the round number it has then. *)
Lemma observe_cardEvents_eq :
  cardEvents (observe now r state)
  = cardEvents r
    ++ LogParser.parseLogEntries (gameId r) (JS.Math_max 1 (roundNumber r))
         (IGameState.newMessages state)
    ++ match prevState r with
       | Some prev =>
           StateDiffer.diffSnapshots prev state
             {| StateDiffer.DiffContext.gameId := gameId r;
                StateDiffer.DiffContext.roundNumber := roundNumber (observe now r state);
                StateDiffer.DiffContext.localPlayerId
                  := localPlayerId (resolveLocalPlayer r state) |}
       | None => []
       end.
Proof.
  destruct observe_frame as [_ [_ [_ [_ [_ [Hround _]]]]]].
  cbv zeta in Hround. rewrite Hround. clear Hround.
  pose proof (eq_refl (beginsRound r state)) as Hb. unfold beginsRound at 1 in Hb.
  unfold playersKnown, hasPlayers in Hb.
  unfold observe. cbv zeta.
  set (r1 := resolveLocalPlayer r state) in *.
  set (r2 := capturePlayers r1 state) in *.
  set (r3 := accumulateLog r2 state).
  set (r4 := trackRound now r3 state).
  destruct (resolveLocalPlayer_frame r state) as [A1 [A2 [A3 [A4 [A5 [A6 [A7 A8]]]]]]].
  destruct (capturePlayers_frame r1 state) as [B1 [B2 [B3 [B4 [B5 [B6 [B7 B8]]]]]]].
  destruct (accumulateLog_frame r2 state) as [C1 [C2 [C3 [C4 [C5 [C6 [C7 [C8 C9]]]]]]]].
  destruct (trackRound_frame now r3 state) as [D1 [D2 [D3 [D4 [D5 [D6 D7]]]]]].
  destruct (diffStep_frame r4 state) as [E1 [E2 [E3 [E4 [E5 [E6 [E7 [E8 E9]]]]]]]].
  cbv zeta in *. fold r1 in A1, A2, A3, A4, A5, A6, A7, A8.
  fold r2 in B1, B2, B3, B4, B5, B6, B7, B8.
  fold r3 in C1, C2, C3, C4, C5, C6, C7, C8, C9.
  fold r4 in D1, D2, D3, D4, D5, D6, D7.
  assert (Hr4 : roundNumber r4
                = (if beginsRound r state
                   then JS.Math_max (roundNumber r + 1) 1 else roundNumber r)).
  { unfold r4. rewrite trackRound_roundNumber. unfold hasPlayers.
    rewrite C3, C6, B5, A6, C4, B3, A4. now rewrite Hb. }
  rewrite E9, D5, C9, B7, A8, B1, A1, B3, A4, <- app_assoc, D4, C7, B6, A7.
  destruct (prevState r) as [prev|]; [|reflexivity].
  now rewrite D1, C1, B1, A1, Hr4, D6, C8, B8.
Qed.

(** No step of a call writes [startedAt]. *)
Lemma observe_startedAt : startedAt (observe now r state) = startedAt r.
Proof.
  assert (H1 : forall r0, startedAt (resolveLocalPlayer r0 state) = startedAt r0).
  { intros r0. unfold resolveLocalPlayer. now destruct (negb _ && _). }
  assert (H2 : forall r0, startedAt (capturePlayers r0 state) = startedAt r0).
  { intros r0. unfold capturePlayers. destruct (players r0); [reflexivity|].
    destruct (2 <=? _)%nat; [|reflexivity]. cbv zeta.
    destruct (JS.get _ _); [|reflexivity]. now destruct (JS.get _ _). }
  assert (H3 : forall r0, startedAt (accumulateLog r0 state) = startedAt r0).
  { intros r0. unfold accumulateLog. now destruct (IGameState.newMessages state). }
  assert (H4 : forall r0, startedAt (trackRound now r0 state) = startedAt r0).
  { intros r0. unfold trackRound. cbv zeta. fields.
    destruct (_ && _ && _).
    - unfold startRound. cbv zeta.
      destruct (captureSnapshot _ _ _ _); [|reflexivity]. fields.
      now destruct (players r0) as [[lp op]|].
    - destruct (_ && _ && _); [|reflexivity].
      unfold sampleHp.
      destruct (players r0) as [[lp op]|]; [|reflexivity].
      destruct (JS.get _ _); [|reflexivity]. destruct (JS.get _ _); [|reflexivity].
      cbv zeta. destruct (lastKnownYouHp r0); [|reflexivity].
      now destruct (negb _ || negb _). }
  assert (H5 : forall r0, startedAt (diffStep r0 state) = startedAt r0).
  { intros r0. unfold diffStep. cbv zeta. now destruct (prevState r0). }
  unfold observe. cbv zeta. now rewrite H5, H4, H3, H2, H1.
Qed.

Lemma ingest_completed :
  completed r = true -> ingest now r state = Result.mk r true None.
Proof. intros H. unfold ingest. now rewrite H. Qed.

Lemma ingest_other_game :
  completed r = false -> IGameState.id state <> gameId r ->
  ingest now r state = Result.mk r false None.
Proof.
  intros H Hid. unfold ingest. rewrite H.
  apply String.eqb_neq in Hid. now rewrite Hid.
Qed.

Lemma finalize_frame (r0 : t) :
  let r' := fst (finalize now r0 state) in
  gameId r' = gameId r0 /\ completed r' = true /\ players r' = players r0
  /\ roundNumber r' = roundNumber r0 /\ cardEvents r' = cardEvents r0
  /\ prevPhase r' = prevPhase r0
  /\ snapshots r' = snapshots (fst (finalize now r0 state)).
Proof. unfold finalize. cbv zeta. repeat split. Qed.

(** The record [finalize] hands over. *)
Lemma finalize_record (r0 : t) (both : GamePlayer.t * GamePlayer.t) :
  players r0 = Some both ->
  exists record,
    snd (finalize now r0 state) = Some record
    /\ GameRecord.winner record
       = match IGameState.winners state with
         | [w] => Some w
         | _ => None
         end
    /\ GameRecord.rounds record = roundNumber r0
    /\ GameRecord.players record = both
    /\ GameRecord.snapshots record = snapshots (fst (finalize now r0 state)).
Proof.
  intros Hp. unfold finalize. cbv zeta. fields. rewrite Hp.
  eexists. split; [reflexivity|]. repeat split.
Qed.

(** What [finalize] hands over and what it leaves in the recorder: the record
    is made of the fields of the finalized recorder and the clock reading. *)
Lemma finalize_hands_over (r0 : t) (both : GamePlayer.t * GamePlayer.t) :
  players r0 = Some both ->
  let r' := fst (finalize now r0 state) in
  completed r' = true
  /\ players r' = Some both
  /\ startedAt r' = startedAt r0
  /\ snd (finalize now r0 state)
     = Some {| GameRecord.gameId := gameId r';
               GameRecord.startedAt := startedAt r';
               GameRecord.completedAt := now;
               GameRecord.format := format r';
               GameRecord.isLimitedFormat := isLimitedFormat r';
               GameRecord.players := both;
               GameRecord.winner :=
                 match IGameState.winners state with
                 | [w] => Some w
                 | _ => None
                 end;
               GameRecord.rounds := roundNumber r';
               GameRecord.cardEvents := cardEvents r';
               GameRecord.rawLog := rawLog r';
               GameRecord.snapshots := snapshots r' |}.
Proof.
  intros Hp. unfold finalize. cbv zeta. fields. rewrite Hp. repeat split. exact Hp.
Qed.

(** [ingest] on a recorder that is not finalized, for its own game. *)
Lemma ingest_active :
  completed r = false -> IGameState.id state = gameId r ->
  ingest now r state
  = if match IGameState.winners state with [] => false | _ :: _ => true end
       && hasPlayers (observe now r state)
    then Result.mk (fst (finalize now (observe now r state) state)) true
                   (snd (finalize now (observe now r state) state))
    else Result.mk (observe now r state) false None.
Proof.
  intros H Hid. unfold ingest. rewrite H, Hid, String.eqb_refl. cbn [negb]. cbv zeta.
  destruct (IGameState.winners state); [reflexivity|]. cbn [andb].
  destruct (hasPlayers (observe now r state)); [|reflexivity].
  now destruct (finalize now (observe now r state) state).
Qed.

Lemma ingest_startedAt :
  startedAt (Result.recorder (ingest now r state)) = startedAt r.
Proof.
  destruct (completed r) eqn:Hc.
  - now rewrite (ingest_completed Hc).
  - destruct (String.eqb_spec (IGameState.id state) (gameId r)) as [Hid|Hid].
    + rewrite (ingest_active Hc Hid).
      destruct (_ && _); cbn [Result.recorder]; [|apply observe_startedAt].
      unfold finalize. cbv zeta. fields. apply observe_startedAt.
    + now rewrite (ingest_other_game Hc Hid).
Qed.

Lemma hasPlayers_observe :
  hasPlayers (observe now r state) = playersKnown r state.
Proof.
  unfold hasPlayers, playersKnown, hasPlayers.
  destruct observe_frame as [_ [_ [Hp _]]]. cbv zeta in Hp. now rewrite Hp.
Qed.

End RecorderCall.

Lemma run_completed (r : GameRecorder.t) (inputs : list (string * IGameState.t)) :
  GameRecorder.completed r = true -> GameRecorder.run r inputs = (r, []).
Proof.
  intros H. induction inputs as [|[now state] inputs IH]; [reflexivity|].
  cbn [GameRecorder.run]. rewrite (ingest_completed now r state H).
  cbn [GameRecorder.Result.recorder GameRecorder.Result.completion].
  now rewrite IH.
Qed.

(** A call that hands a record to the callback leaves the recorder
    finalized. *)
Lemma completion_finalizes (now : string) (r : GameRecorder.t) (state : IGameState.t)
    (record : GameRecord.t) :
  GameRecorder.Result.completion (GameRecorder.ingest now r state) = Some record ->
  GameRecorder.completed (GameRecorder.Result.recorder (GameRecorder.ingest now r state))
  = true.
Proof.
  destruct (GameRecorder.completed r) eqn:Hc.
  - now rewrite (ingest_completed now r state Hc).
  - destruct (String.eqb_spec (IGameState.id state) (GameRecorder.gameId r)) as [Hid|Hid].
    + rewrite (ingest_active now r state Hc Hid).
      destruct (_ && _); [reflexivity | discriminate].
    + now rewrite (ingest_other_game now r state Hc Hid).
Qed.

Lemma completions_at_most_one (r : GameRecorder.t) (inputs : list (string * IGameState.t)) :
  (List.length (GameRecorder.completions r inputs) <= 1)%nat.
Proof.
  unfold GameRecorder.completions. revert r.
  induction inputs as [|[now state] inputs IH]; intros r; [simpl; lia|].
  cbn [GameRecorder.run].
  destruct (GameRecorder.Result.completion (GameRecorder.ingest now r state))
    as [record|] eqn:Hrec.
  - apply completion_finalizes in Hrec.
    rewrite (run_completed _ inputs Hrec). simpl. lia.
  - specialize (IH (GameRecorder.Result.recorder (GameRecorder.ingest now r state))).
    destruct (GameRecorder.run _ inputs) as [r' records]. exact IH.
Qed.

(** C4. A recorder invokes the completion callback at most once, whatever it
    is fed; and once finalized, a call of [ingest], for any snapshot, returns
    true and leaves the recorder as it was (no event appended, no field
    changed) without invoking the callback, and so does any sequence of
    calls. *)
Theorem completion_at_most_once (r : GameRecorder.t)
    (inputs : list (string * IGameState.t)) (now : string) (state : IGameState.t) :
  (List.length (GameRecorder.completions r inputs) <= 1)%nat
  /\ (GameRecorder.completed r = true ->
      GameRecorder.ingest now r state = GameRecorder.Result.mk r true None
      /\ GameRecorder.after r inputs = r
      /\ GameRecorder.completions r inputs = []).
Proof.
  split; [apply completions_at_most_one|].
  intros H. split; [now apply ingest_completed|].
  unfold GameRecorder.after, GameRecorder.completions.
  now rewrite (run_completed r inputs H).
Qed.

(** Scenario B, second call: the finalized recorder is fed the winning
    snapshot again, and a snapshot of another game. *)
Lemma completion_at_most_once_witness :
  GameRecorder.completed Scenario.finalized = true
  /\ GameRecorder.ingest "t2" Scenario.finalized Scenario.aliceWon
     = GameRecorder.Result.mk Scenario.finalized true None
  /\ GameRecorder.completions Scenario.finalized
       [("t2", Scenario.aliceWon); ("t3", Scenario.state "g2" "" [] Setup [])] = [].
Proof.
  split; [reflexivity|].
  destruct (completion_at_most_once Scenario.finalized
              [("t2", Scenario.aliceWon); ("t3", Scenario.state "g2" "" [] Setup [])]
              "t2" Scenario.aliceWon) as [_ H].
  destruct (H eq_refl) as [H1 [_ H3]]. split; assumption.
Defined.

(** C5. A call on a recorder that is not finalized, for its own game,
    finalizes the recorder and returns true exactly when the winners list of
    the snapshot is not empty and the player pair is known (before the call or
    captured by it); the record it then hands over has the sole entry of the
    winners list as its winner when there is exactly one, and no winner
    otherwise; when it returns false no record is handed over. *)
Theorem finalize_iff_winners_and_pair (now : string) (r : GameRecorder.t)
    (state : IGameState.t) :
  GameRecorder.completed r = false ->
  IGameState.id state = GameRecorder.gameId r ->
  (GameRecorder.Result.returned (GameRecorder.ingest now r state) = true
   <-> IGameState.winners state <> [] /\ GameRecorder.playersKnown r state = true)
  /\ GameRecorder.completed (GameRecorder.Result.recorder (GameRecorder.ingest now r state))
     = GameRecorder.Result.returned (GameRecorder.ingest now r state)
  /\ (GameRecorder.Result.returned (GameRecorder.ingest now r state) = true ->
      exists record,
        GameRecorder.Result.completion (GameRecorder.ingest now r state) = Some record
        /\ GameRecord.winner record
           = match IGameState.winners state with
             | [w] => Some w
             | _ => None
             end)
  /\ (GameRecorder.Result.returned (GameRecorder.ingest now r state) = false ->
      GameRecorder.Result.completion (GameRecorder.ingest now r state) = None).
Proof.
  intros Hc Hid. rewrite (ingest_active now r state Hc Hid), hasPlayers_observe.
  destruct (observe_frame now r state) as [_ [Hcompl [Hplayers _]]]. cbv zeta in *.
  destruct (IGameState.winners state) as [|w ws] eqn:Hw; cbn [andb].
  - split; [split; [discriminate | now intros [H _]]|].
    split; [cbn [GameRecorder.Result.recorder GameRecorder.Result.returned]; congruence|].
    split; [discriminate | reflexivity].
  - destruct (GameRecorder.playersKnown r state) eqn:Hk.
    + split; [split; [intros _; split; [discriminate | reflexivity] | reflexivity]|].
      split; [reflexivity|].
      split; [|discriminate].
      intros _. unfold GameRecorder.playersKnown, GameRecorder.hasPlayers in Hk.
      rewrite <- Hplayers in Hk.
      destruct (GameRecorder.players (GameRecorder.observe now r state))
        as [both|] eqn:Hboth; [|discriminate].
      destruct (finalize_record now state _ both Hboth) as [record [Hrec [Hwin _]]].
      exists record. cbn [GameRecorder.Result.completion].
      split; [assumption|]. now rewrite Hwin, Hw.
    + split; [split; [discriminate | now intros [_ H]]|].
      split; [cbn [GameRecorder.Result.recorder GameRecorder.Result.returned]; congruence|].
      split; [discriminate | reflexivity].
Qed.

(** Scenario B: a fresh recorder is fed the snapshot in which Alice has won. *)
Lemma finalize_iff_winners_and_pair_witness :
  GameRecorder.Result.returned (GameRecorder.ingest "t1" Scenario.fresh Scenario.aliceWon)
  = true
  /\ exists record,
       GameRecorder.Result.completion
         (GameRecorder.ingest "t1" Scenario.fresh Scenario.aliceWon) = Some record
       /\ GameRecord.winner record = Some "Alice".
Proof.
  destruct (finalize_iff_winners_and_pair "t1" Scenario.fresh Scenario.aliceWon
              eq_refl eq_refl) as [Hiff [_ [Hrec _]]].
  assert (Hret : GameRecorder.Result.returned
                   (GameRecorder.ingest "t1" Scenario.fresh Scenario.aliceWon) = true).
  { apply Hiff. split; [discriminate | reflexivity]. }
  split; [exact Hret | exact (Hrec Hret)].
Defined.

(** *** Round tracking *)

(** A call never lowers the round number; a call that begins a round leaves
    it at 1 or more. *)
Lemma ingest_roundNumber (now : string) (r : GameRecorder.t) (state : IGameState.t) :
  (GameRecorder.roundNumber r
   <= GameRecorder.roundNumber
        (GameRecorder.Result.recorder (GameRecorder.ingest now r state)))%Z
  /\ (GameRecorder.completed r = false ->
      IGameState.id state = GameRecorder.gameId r ->
      GameRecorder.beginsRound r state = true ->
      (1 <= GameRecorder.roundNumber
              (GameRecorder.Result.recorder (GameRecorder.ingest now r state)))%Z).
Proof.
  destruct (GameRecorder.completed r) eqn:Hc.
  - rewrite (ingest_completed now r state Hc). simpl. split; [lia | discriminate].
  - destruct (String.eqb_spec (IGameState.id state) (GameRecorder.gameId r)) as [Hid|Hid].
    + rewrite (ingest_active now r state Hc Hid).
      destruct (observe_frame now r state) as [_ [_ [_ [_ [_ [Hround _]]]]]].
      cbv zeta in Hround.
      assert (Hres : GameRecorder.roundNumber
                (GameRecorder.Result.recorder
                   (if match IGameState.winners state with [] => false | _ :: _ => true end
                       && GameRecorder.hasPlayers (GameRecorder.observe now r state)
                    then GameRecorder.Result.mk
                           (fst (GameRecorder.finalize now
                                   (GameRecorder.observe now r state) state))
                           true
                           (snd (GameRecorder.finalize now
                                   (GameRecorder.observe now r state) state))
                    else GameRecorder.Result.mk (GameRecorder.observe now r state)
                           false None))
              = GameRecorder.roundNumber (GameRecorder.observe now r state)).
      { now destruct (_ && _). }
      rewrite Hres, Hround. unfold JS.Math_max.
      destruct (GameRecorder.beginsRound r state); split; intros; try lia; discriminate.
    + rewrite (ingest_other_game now r state Hc Hid). simpl.
      split; [lia | intros _ Hid'; contradiction].
Qed.

Lemma after_cons (r : GameRecorder.t) (now : string) (state : IGameState.t)
    (inputs : list (string * IGameState.t)) :
  GameRecorder.after r ((now, state) :: inputs)
  = GameRecorder.after (GameRecorder.Result.recorder (GameRecorder.ingest now r state))
      inputs.
Proof.
  unfold GameRecorder.after. cbn [GameRecorder.run].
  now destruct (GameRecorder.run _ inputs).
Qed.

Lemma after_roundNumber (r : GameRecorder.t) (inputs : list (string * IGameState.t)) :
  (GameRecorder.roundNumber r <= GameRecorder.roundNumber (GameRecorder.after r inputs))%Z.
Proof.
  revert r. induction inputs as [|[now state] inputs IH]; intros r.
  - unfold GameRecorder.after. simpl. lia.
  - rewrite after_cons.
    pose proof (proj1 (ingest_roundNumber now r state)).
    specialize (IH (GameRecorder.Result.recorder (GameRecorder.ingest now r state))).
    lia.
Qed.

(** C6, as the code has it.  Across any sequence of ingested snapshots the
    round number never decreases; and after a processed snapshot that enters
    the action phase (the previous phase was not action) while the player pair
    is known, it is 1 or more for the rest of the sequence. *)
Theorem round_number_monotone (r : GameRecorder.t) (now : string)
    (state : IGameState.t) (inputs : list (string * IGameState.t)) :
  (GameRecorder.roundNumber r <= GameRecorder.roundNumber (GameRecorder.after r inputs))%Z
  /\ (GameRecorder.completed r = false ->
      IGameState.id state = GameRecorder.gameId r ->
      GameRecorder.beginsRound r state = true ->
      (1 <= GameRecorder.roundNumber
              (GameRecorder.after
                 (GameRecorder.Result.recorder (GameRecorder.ingest now r state))
                 inputs))%Z).
Proof.
  split; [apply after_roundNumber|].
  intros Hc Hid Hb.
  pose proof (proj2 (ingest_roundNumber now r state) Hc Hid Hb).
  pose proof (after_roundNumber
                (GameRecorder.Result.recorder (GameRecorder.ingest now r state)) inputs).
  lia.
Qed.

(** A fresh recorder enters the action phase with two players, then stays in
    it. *)
Lemma round_number_monotone_witness :
  (0 <= GameRecorder.roundNumber
          (GameRecorder.after Scenario.fresh [("t1", Scenario.actionTwoPlayers)]))%Z
  /\ (1 <= GameRecorder.roundNumber
             (GameRecorder.after
                (GameRecorder.Result.recorder
                   (GameRecorder.ingest "t1" Scenario.fresh Scenario.actionTwoPlayers))
                [("t2", Scenario.actionTwoPlayers)]))%Z.
Proof.
  split.
  - exact (proj1 (round_number_monotone Scenario.fresh "t1" Scenario.actionTwoPlayers
                    [("t1", Scenario.actionTwoPlayers)])).
  - exact (proj2 (round_number_monotone Scenario.fresh "t1" Scenario.actionTwoPlayers
                    [("t2", Scenario.actionTwoPlayers)]) eq_refl eq_refl eq_refl).
Defined.

(** C6 as stated fails when the first action-phase snapshot has a single
    player key: both snapshots are processed in the action phase, the pair is
    captured by the second, and the round number is still 0. *)
Lemma round_zero_after_action_snapshots :
  IGameState.phase Scenario.actionOnePlayer = Action
  /\ IGameState.phase Scenario.actionTwoPlayers = Action
  /\ GameRecorder.prevState
       (GameRecorder.after Scenario.fresh [("t1", Scenario.actionOnePlayer)])
     = Some Scenario.actionOnePlayer
  /\ GameRecorder.prevState
       (GameRecorder.after Scenario.fresh
          [("t1", Scenario.actionOnePlayer); ("t2", Scenario.actionTwoPlayers)])
     = Some Scenario.actionTwoPlayers
  /\ GameRecorder.hasPlayers
       (GameRecorder.after Scenario.fresh
          [("t1", Scenario.actionOnePlayer); ("t2", Scenario.actionTwoPlayers)])
     = true
  /\ GameRecorder.roundNumber
       (GameRecorder.after Scenario.fresh
          [("t1", Scenario.actionOnePlayer); ("t2", Scenario.actionTwoPlayers)])
     = 0%Z.
Proof. repeat split. Qed.

(** *** Records without rounds *)

Lemma updateLast_nil (f : RoundSnapshot.t -> RoundSnapshot.t) :
  GameRecorder.updateLast f [] = [].
Proof. reflexivity. Qed.

(** While no round has begun there is no round snapshot: the property holds
    of a new recorder and every call keeps it. *)
Lemma ingest_no_round_no_snapshot (now : string) (r : GameRecorder.t)
    (state : IGameState.t) :
  (GameRecorder.roundNumber r = 0%Z -> GameRecorder.snapshots r = []) ->
  GameRecorder.roundNumber
    (GameRecorder.Result.recorder (GameRecorder.ingest now r state)) = 0%Z ->
  GameRecorder.snapshots
    (GameRecorder.Result.recorder (GameRecorder.ingest now r state)) = [].
Proof.
  intros Hinv.
  destruct (GameRecorder.completed r) eqn:Hc.
  - rewrite (ingest_completed now r state Hc). exact Hinv.
  - destruct (String.eqb_spec (IGameState.id state) (GameRecorder.gameId r)) as [Hid|Hid].
    + rewrite (ingest_active now r state Hc Hid).
      destruct (observe_frame now r state) as [_ [_ [_ [_ [_ [Hround Hsnap]]]]]].
      cbv zeta in Hround, Hsnap.
      assert (Hobs : GameRecorder.roundNumber (GameRecorder.observe now r state) = 0%Z ->
                     GameRecorder.snapshots (GameRecorder.observe now r state) = []).
      { rewrite Hround. unfold JS.Math_max.
        destruct (GameRecorder.beginsRound r state); [lia|].
        intros H0. rewrite (Hsnap eq_refl). now apply Hinv. }
      destruct (_ && _); cbn [GameRecorder.Result.recorder]; [|exact Hobs].
      unfold GameRecorder.finalize. cbv zeta. fields. intros H0.
      now rewrite (Hobs H0).
    + rewrite (ingest_other_game now r state Hc Hid). exact Hinv.
Qed.

Lemma ingest_gameId (now : string) (r : GameRecorder.t) (state : IGameState.t) :
  GameRecorder.gameId (GameRecorder.Result.recorder (GameRecorder.ingest now r state))
  = GameRecorder.gameId r.
Proof.
  destruct (GameRecorder.completed r) eqn:Hc.
  - now rewrite (ingest_completed now r state Hc).
  - destruct (String.eqb_spec (IGameState.id state) (GameRecorder.gameId r)) as [Hid|Hid].
    + rewrite (ingest_active now r state Hc Hid).
      destruct (observe_frame now r state) as [Hg _]. cbv zeta in Hg.
      now destruct (_ && _).
    + now rewrite (ingest_other_game now r state Hc Hid).
Qed.

Lemma after_invariant (r : GameRecorder.t) (inputs : list (string * IGameState.t)) :
  (GameRecorder.roundNumber r = 0%Z -> GameRecorder.snapshots r = []) ->
  GameRecorder.gameId (GameRecorder.after r inputs) = GameRecorder.gameId r
  /\ (GameRecorder.roundNumber (GameRecorder.after r inputs) = 0%Z ->
      GameRecorder.snapshots (GameRecorder.after r inputs) = []).
Proof.
  revert r. induction inputs as [|[now state] inputs IH]; intros r Hinv.
  - unfold GameRecorder.after. simpl. now split.
  - rewrite after_cons.
    destruct (IH (GameRecorder.Result.recorder (GameRecorder.ingest now r state))
                 (ingest_no_round_no_snapshot now r state Hinv)) as [Hg Hs].
    split; [|exact Hs]. now rewrite Hg, ingest_gameId.
Qed.

Lemma after_startedAt (r : GameRecorder.t) (inputs : list (string * IGameState.t)) :
  GameRecorder.startedAt (GameRecorder.after r inputs) = GameRecorder.startedAt r.
Proof.
  revert r. induction inputs as [|[now state] inputs IH]; intros r; [reflexivity|].
  now rewrite after_cons, IH, ingest_startedAt.
Qed.

(** C10. A recorder for [gameId], made at [t0], has been fed any sequence of
    snapshots, is not finalized and has begun no round (its round number is
    0).  A snapshot of its game with a non-empty winners list arrives while
    the player pair is known, and the call does not begin a round itself.
    Then the call finalizes: it returns true and leaves the recorder
    completed, with round number 0 and no round snapshot; and the record it
    hands to the callback is the one of that recorder (its game id, its start
    [t0], the clock reading of the call, its format, its pair, its events and
    log, the winner when the winners list has one name), with [rounds = 0]
    and an empty snapshots list. *)
Theorem record_without_rounds (gameId t0 : string)
    (inputs : list (string * IGameState.t)) (now : string) (state : IGameState.t) :
  GameRecorder.completed (GameRecorder.after (GameRecorder.new gameId t0) inputs) = false ->
  GameRecorder.roundNumber (GameRecorder.after (GameRecorder.new gameId t0) inputs) = 0%Z ->
  IGameState.id state = gameId ->
  IGameState.winners state <> [] ->
  GameRecorder.playersKnown (GameRecorder.after (GameRecorder.new gameId t0) inputs) state
  = true ->
  GameRecorder.beginsRound (GameRecorder.after (GameRecorder.new gameId t0) inputs) state
  = false ->
  let res :=
    GameRecorder.ingest now (GameRecorder.after (GameRecorder.new gameId t0) inputs) state in
  let finalized := GameRecorder.Result.recorder res in
  GameRecorder.Result.returned res = true
  /\ GameRecorder.completed finalized = true
  /\ GameRecorder.roundNumber finalized = 0%Z
  /\ GameRecorder.snapshots finalized = []
  /\ exists both,
       GameRecorder.players finalized = Some both
       /\ GameRecorder.Result.completion res
          = Some {| GameRecord.gameId := gameId;
                    GameRecord.startedAt := t0;
                    GameRecord.completedAt := now;
                    GameRecord.format := GameRecorder.format finalized;
                    GameRecord.isLimitedFormat := GameRecorder.isLimitedFormat finalized;
                    GameRecord.players := both;
                    GameRecord.winner :=
                      match IGameState.winners state with
                      | [w] => Some w
                      | _ => None
                      end;
                    GameRecord.rounds := 0%Z;
                    GameRecord.cardEvents := GameRecorder.cardEvents finalized;
                    GameRecord.rawLog := GameRecorder.rawLog finalized;
                    GameRecord.snapshots := [] |}.
Proof.
  set (r := GameRecorder.after (GameRecorder.new gameId t0) inputs).
  intros Hc Hround Hid Hw Hk Hb. cbv zeta.
  destruct (after_invariant (GameRecorder.new gameId t0) inputs (fun _ => eq_refl))
    as [Hg Hinv]. fold r in Hg, Hinv. cbn [GameRecorder.new GameRecorder.gameId] in Hg.
  pose proof (after_startedAt (GameRecorder.new gameId t0) inputs) as Hst.
  fold r in Hst. cbn [GameRecorder.new GameRecorder.startedAt] in Hst.
  assert (Hid' : IGameState.id state = GameRecorder.gameId r) by congruence.
  rewrite (ingest_active now r state Hc Hid'), hasPlayers_observe, Hk.
  assert (Hwin : match IGameState.winners state with [] => false | _ :: _ => true end
                 = true)
    by (destruct (IGameState.winners state); [contradiction | reflexivity]).
  rewrite Hwin. cbn [andb].
  cbn [GameRecorder.Result.returned GameRecorder.Result.completion
       GameRecorder.Result.recorder].
  destruct (observe_frame now r state) as [Hgo [_ [Hplayers [_ [_ [Hro Hsn]]]]]].
  cbv zeta in Hgo, Hplayers, Hro, Hsn. rewrite Hb in Hro. specialize (Hsn Hb).
  unfold GameRecorder.playersKnown, GameRecorder.hasPlayers in Hk.
  rewrite <- Hplayers in Hk.
  destruct (GameRecorder.players (GameRecorder.observe now r state))
    as [both|] eqn:Hboth; [|discriminate].
  destruct (finalize_hands_over now state _ both Hboth) as [Hdone [Hpair [Hstart Hrec]]].
  cbv zeta in Hdone, Hpair, Hstart, Hrec.
  destruct (finalize_frame now state (GameRecorder.observe now r state))
    as [Hgf [_ [_ [Hrf _]]]]. cbv zeta in Hgf, Hrf.
  assert (Hsnaps : GameRecorder.snapshots
                     (fst (GameRecorder.finalize now (GameRecorder.observe now r state) state))
                   = []).
  { unfold GameRecorder.finalize. cbv zeta. fields. rewrite Hsn, (Hinv Hround).
    reflexivity. }
  split; [reflexivity|]. split; [exact Hdone|]. split; [congruence|].
  split; [exact Hsnaps|]. exists both. split; [exact Hpair|].
  rewrite Hrec, Hsnaps, Hgf, Hgo, Hg, Hstart, observe_startedAt, Hst, Hrf, Hro, Hround.
  reflexivity.
Qed.

(** A fresh recorder is fed a snapshot of the setup phase in which Alice has
    already won. *)
Lemma record_without_rounds_witness :
  let res :=
    GameRecorder.ingest "t1" (GameRecorder.after (GameRecorder.new "g1" "t0") [])
      Scenario.wonInSetup in
  let finalized := GameRecorder.Result.recorder res in
  GameRecorder.Result.returned res = true
  /\ GameRecorder.completed finalized = true
  /\ GameRecorder.roundNumber finalized = 0%Z
  /\ GameRecorder.snapshots finalized = []
  /\ exists both,
       GameRecorder.players finalized = Some both
       /\ GameRecorder.Result.completion res
          = Some {| GameRecord.gameId := "g1";
                    GameRecord.startedAt := "t0";
                    GameRecord.completedAt := "t1";
                    GameRecord.format := GameRecorder.format finalized;
                    GameRecord.isLimitedFormat := GameRecorder.isLimitedFormat finalized;
                    GameRecord.players := both;
                    GameRecord.winner :=
                      match IGameState.winners Scenario.wonInSetup with
                      | [w] => Some w
                      | _ => None
                      end;
                    GameRecord.rounds := 0%Z;
                    GameRecord.cardEvents := GameRecorder.cardEvents finalized;
                    GameRecord.rawLog := GameRecorder.rawLog finalized;
                    GameRecord.snapshots := [] |}.
Proof.
  apply (record_without_rounds "g1" "t0" [] "t1" Scenario.wonInSetup).
  - reflexivity.
  - reflexivity.
  - reflexivity.
  - discriminate.
  - reflexivity.
  - reflexivity.
Defined.

(** *** Calls without a player pair *)

(** The events parsed from the log are [activated] events. *)
Lemma parseLogEntries_activated (gameId : string) (roundNumber : Z)
    (entries : list IChatEntry.t) :
  Forall (fun e => CardEvent.metric e = Activated)
         (LogParser.parseLogEntries gameId roundNumber entries).
Proof.
  apply Forall_forall. intros e He. unfold LogParser.parseLogEntries in He.
  apply in_flat_map in He as [entry [_ He]].
  destruct (IChatEntry.message entry) as [parts|parts]; [|contradiction].
  destruct (negb _); [contradiction|].
  destruct (LogParser.asObject (find LogParser.isPlayerObject parts)); [|contradiction].
  destruct (LogParser.asObject (find LogParser.isCardObject parts)); [|contradiction].
  now destruct He as [<-|[]].
Qed.

(** C3, as the code has it.  A recorder that is not finalized and has no
    player pair is fed a snapshot with fewer than two player keys.  Then the
    call captures no player pair, captures no round snapshot, leaves the round
    number as it is, returns false and hands over no record.  Differencing is
    not tied to the player pair: for a snapshot of the recorder's game the
    call appends the events parsed from the log and then, whenever the
    recorder holds a previous snapshot, the events of the diff against it
    (with the local player as the call resolves it); when it holds none the
    events it appends are log-derived ([activated]) ones only.  A snapshot of
    another game appends nothing. *)
Theorem no_pair_below_two_players (now : string) (r : GameRecorder.t)
    (state : IGameState.t) :
  GameRecorder.completed r = false ->
  GameRecorder.players r = None ->
  (List.length (JS.keys (IGameState.players state)) < 2)%nat ->
  GameRecorder.players (GameRecorder.Result.recorder (GameRecorder.ingest now r state))
  = None
  /\ GameRecorder.snapshots (GameRecorder.Result.recorder (GameRecorder.ingest now r state))
     = GameRecorder.snapshots r
  /\ GameRecorder.roundNumber (GameRecorder.Result.recorder (GameRecorder.ingest now r state))
     = GameRecorder.roundNumber r
  /\ GameRecorder.Result.returned (GameRecorder.ingest now r state) = false
  /\ GameRecorder.Result.completion (GameRecorder.ingest now r state) = None
  /\ (GameRecorder.prevState r = None ->
      exists logEvents,
        GameRecorder.cardEvents
          (GameRecorder.Result.recorder (GameRecorder.ingest now r state))
        = GameRecorder.cardEvents r ++ logEvents
        /\ Forall (fun e => CardEvent.metric e = Activated) logEvents)
  /\ GameRecorder.cardEvents (GameRecorder.Result.recorder (GameRecorder.ingest now r state))
     = (if IGameState.id state =? GameRecorder.gameId r
        then
          GameRecorder.cardEvents r
          ++ LogParser.parseLogEntries (GameRecorder.gameId r)
               (JS.Math_max 1 (GameRecorder.roundNumber r)) (IGameState.newMessages state)
          ++ match GameRecorder.prevState r with
             | Some prev =>
                 StateDiffer.diffSnapshots prev state
                   {| StateDiffer.DiffContext.gameId := GameRecorder.gameId r;
                      StateDiffer.DiffContext.roundNumber := GameRecorder.roundNumber r;
                      StateDiffer.DiffContext.localPlayerId :=
                        GameRecorder.localPlayerId
                          (GameRecorder.resolveLocalPlayer r state) |}
             | None => []
             end
        else GameRecorder.cardEvents r).
Proof.
  intros Hc Hp Hlen.
  destruct (String.eqb_spec (IGameState.id state) (GameRecorder.gameId r)) as [Hid|Hid].
  - assert (Hcap : GameRecorder.players
             (GameRecorder.capturePlayers (GameRecorder.resolveLocalPlayer r state) state)
             = None).
    { destruct (resolveLocalPlayer_frame r state) as [_ [_ [Hp1 _]]]. cbv zeta in Hp1.
      rewrite capturePlayers_few; [congruence | congruence | assumption]. }
    assert (Hk : GameRecorder.playersKnown r state = false).
    { unfold GameRecorder.playersKnown, GameRecorder.hasPlayers. now rewrite Hcap. }
    assert (Hb : GameRecorder.beginsRound r state = false).
    { unfold GameRecorder.beginsRound. now rewrite Hk, andb_false_r. }
    rewrite (ingest_active now r state Hc Hid), hasPlayers_observe, Hk, andb_false_r.
    cbn [GameRecorder.Result.recorder GameRecorder.Result.returned
         GameRecorder.Result.completion].
    destruct (observe_frame now r state) as [_ [_ [Hplayers [_ [_ [Hro Hsn]]]]]].
    cbv zeta in Hplayers, Hro, Hsn. rewrite Hb in Hro.
    split; [congruence|]. split; [now apply Hsn|]. split; [assumption|].
    split; [reflexivity|]. split; [reflexivity|]. split.
    + intros Hprev.
      destruct (observe_cardEvents now r state)
        as [logEvents [diffEvents [Hev [Hlog Hdiff]]]].
      rewrite Hprev in Hdiff. subst diffEvents. rewrite app_nil_r in Hev.
      exists logEvents. split; [assumption|]. rewrite Hlog. apply parseLogEntries_activated.
    + rewrite (observe_cardEvents_eq now r state), Hro. reflexivity.
  - rewrite (ingest_other_game now r state Hc Hid).
    cbn [GameRecorder.Result.recorder GameRecorder.Result.returned
         GameRecorder.Result.completion].
    repeat (split; [solve [assumption | reflexivity]|]). split; [|reflexivity].
    intros _. exists []. split; [now rewrite app_nil_r | constructor].
Qed.

(** Scenario A: one player key throughout.  The first call has no previous
    snapshot and appends nothing; the second has one and appends the played
    event of the diff, and neither captures a pair or a round. *)
Lemma no_pair_below_two_players_witness :
  (GameRecorder.players
     (GameRecorder.Result.recorder
        (GameRecorder.ingest "t1" Scenario.fresh Scenario.deploy_prev)) = None
   /\ GameRecorder.snapshots
        (GameRecorder.Result.recorder
           (GameRecorder.ingest "t1" Scenario.fresh Scenario.deploy_prev)) = []
   /\ GameRecorder.Result.returned
        (GameRecorder.ingest "t1" Scenario.fresh Scenario.deploy_prev) = false
   /\ GameRecorder.cardEvents
        (GameRecorder.Result.recorder
           (GameRecorder.ingest "t1" Scenario.fresh Scenario.deploy_prev)) = [])
  /\ (GameRecorder.prevState (GameRecorder.after Scenario.fresh [("t1", Scenario.deploy_prev)])
      = Some Scenario.deploy_prev
      /\ GameRecorder.players
           (GameRecorder.Result.recorder
              (GameRecorder.ingest "t2"
                 (GameRecorder.after Scenario.fresh [("t1", Scenario.deploy_prev)])
                 Scenario.deploy_next)) = None
      /\ GameRecorder.Result.returned
           (GameRecorder.ingest "t2"
              (GameRecorder.after Scenario.fresh [("t1", Scenario.deploy_prev)])
              Scenario.deploy_next) = false
      /\ GameRecorder.cardEvents
           (GameRecorder.Result.recorder
              (GameRecorder.ingest "t2"
                 (GameRecorder.after Scenario.fresh [("t1", Scenario.deploy_prev)])
                 Scenario.deploy_next))
         = [StateDiffer.cardEvent
              (StateDiffer.DiffContext.mk "g1" 0%Z None) "A" "Alice" Scenario.u1 Played]).
Proof.
  split.
  - destruct (no_pair_below_two_players "t1" Scenario.fresh Scenario.deploy_prev
                eq_refl eq_refl) as [H1 [H2 [_ [H4 [_ [_ H7]]]]]].
    + simpl. lia.
    + split; [exact H1|]. split; [exact H2|]. split; [exact H4|].
      rewrite H7. reflexivity.
  - destruct (no_pair_below_two_players "t2"
                (GameRecorder.after Scenario.fresh [("t1", Scenario.deploy_prev)])
                Scenario.deploy_next eq_refl eq_refl) as [H1 [_ [_ [H4 [_ [_ H7]]]]]].
    + simpl. lia.
    + split; [reflexivity|]. split; [exact H1|]. split; [exact H4|].
      rewrite H7. reflexivity.
Defined.

(** C3 as stated fails twice.  With an unresolved local player and two player
    keys, the call captures the pair (the first key stands in for the local
    player), begins a round and, the winners list being non-empty, returns
    true.  And in Scenario A itself (one player key throughout, no pair, no
    local player) the second call appends the played event of the diff. *)
Lemma unresolved_local_player_still_records :
  GameRecorder.localPlayerId Scenario.fresh = None
  /\ GameRecorder.localPlayerId
       (GameRecorder.Result.recorder
          (GameRecorder.ingest "t1" Scenario.fresh Scenario.aliceWon_unresolved)) = None
  /\ GameRecorder.hasPlayers
       (GameRecorder.Result.recorder
          (GameRecorder.ingest "t1" Scenario.fresh Scenario.aliceWon_unresolved)) = true
  /\ List.length
       (GameRecorder.snapshots
          (GameRecorder.Result.recorder
             (GameRecorder.ingest "t1" Scenario.fresh Scenario.aliceWon_unresolved)))
     = 1%nat
  /\ GameRecorder.Result.returned
       (GameRecorder.ingest "t1" Scenario.fresh Scenario.aliceWon_unresolved) = true
  /\ GameRecorder.localPlayerId
       (GameRecorder.after Scenario.fresh
          [("t1", Scenario.deploy_prev); ("t2", Scenario.deploy_next)]) = None
  /\ GameRecorder.players
       (GameRecorder.after Scenario.fresh
          [("t1", Scenario.deploy_prev); ("t2", Scenario.deploy_next)]) = None
  /\ GameRecorder.cardEvents
       (GameRecorder.after Scenario.fresh
          [("t1", Scenario.deploy_prev); ("t2", Scenario.deploy_next)])
     = [StateDiffer.cardEvent
          (StateDiffer.DiffContext.mk "g1" 0%Z None) "A" "Alice" Scenario.u1 Played].
Proof. repeat split. Qed.

(** ** The JSON codec *)

Section Codec.
Import SocketParser IntJSON.
Local Open Scope string_scope.

Lemma string_append_assoc (a b c : string) : (a ++ b) ++ c = a ++ (b ++ c).
Proof. induction a as [|x a IH]; simpl; [reflexivity | now rewrite IH]. Qed.

Lemma string_length_append (a b : string) :
  String.length (a ++ b) = (String.length a + String.length b)%nat.
Proof. induction a as [|x a IH]; simpl; [reflexivity | now rewrite IH]. Qed.

Lemma json_induction (P : json Z -> Prop) :
  P JNull ->
  (forall b, P (JBool b)) ->
  (forall n, P (JNum n)) ->
  (forall s, P (JStr s)) ->
  (forall l, Forall P l -> P (JArr l)) ->
  (forall l, Forall (fun kv => P (snd kv)) l -> P (JObj l)) ->
  forall v, P v.
Proof.
  intros Hnull Hbool Hnum Hstr Harr Hobj.
  fix IH 1. intros [| b | n | s | items | fields].
  - exact Hnull.
  - apply Hbool.
  - apply Hnum.
  - apply Hstr.
  - apply Harr. induction items as [|x items IHitems]; constructor.
    + apply IH.
    + exact IHitems.
  - apply Hobj. induction fields as [|[k x] fields IHfields]; constructor.
    + apply IH.
    + exact IHfields.
Qed.

Lemma stringify_arr (x : json Z) (l : list (json Z)) :
  stringify (JArr (x :: l)) = "[" ++ stringify x ++ arrTail l.
Proof. reflexivity. Qed.

Lemma stringify_obj (k : string) (x : json Z) (l : list (string * json Z)) :
  stringify (JObj ((k, x) :: l)) = "{" ++ quoteString k ++ ":" ++ stringify x ++ objTail l.
Proof. reflexivity. Qed.

Lemma size_arr (x : json Z) (l : list (json Z)) :
  size (JArr (x :: l)) = S (size x + sizeItems l).
Proof. reflexivity. Qed.

Lemma size_obj (k : string) (x : json Z) (l : list (string * json Z)) :
  size (JObj ((k, x) :: l)) = S (S (size x) + sizeFields l).
Proof. reflexivity. Qed.


Lemma parseChars_escapeChar (c : ascii) (x : string) :
  parseChars (escapeChar c ++ x)
  = match parseChars x with
    | Some (str, r) => Some (String c str, r)
    | None => None
    end.
Proof. destruct c as [[] [] [] [] [] [] [] []]; reflexivity. Qed.

Lemma parseChars_escape (s rest : string) :
  parseChars (escape s ++ String quote rest) = Some (s, rest).
Proof.
  induction s as [|c s IH]; [reflexivity|].
  cbn [escape]. now rewrite string_append_assoc, parseChars_escapeChar, IH.
Qed.

Lemma spanDigits_rest (rest : string) :
  noDigitAhead rest -> spanDigits rest = (EmptyString, rest).
Proof.
  destruct rest as [|c rest]; [reflexivity|]. cbn [noDigitAhead spanDigits].
  now intros ->.
Qed.

Lemma spanDigits_uint (d : Decimal.uint) (rest : string) :
  noDigitAhead rest ->
  spanDigits (NilEmpty.string_of_uint d ++ rest) = (NilEmpty.string_of_uint d, rest).
Proof.
  intros Hrest. induction d as [|d IH|d IH|d IH|d IH|d IH|d IH|d IH|d IH|d IH|d IH];
    cbn [NilEmpty.string_of_uint String.append];
    [now apply spanDigits_rest | ..];
    cbn [spanDigits]; change (isDigit _) with true; cbv iota; now rewrite IH.
Qed.

Lemma spanDigits_uint_zero (d : Decimal.uint) (rest : string) :
  noDigitAhead rest ->
  spanDigits (NilZero.string_of_uint d ++ rest) = (NilZero.string_of_uint d, rest).
Proof.
  intros Hrest. destruct d; try (now apply (spanDigits_uint _ rest)).
  cbn. now rewrite spanDigits_rest.
Qed.

Lemma uint_start (d : Decimal.uint) :
  exists c s, NilZero.string_of_uint d = String c s /\ isDigit c = true.
Proof. destruct d; cbn; eexists; eexists; (split; [reflexivity|reflexivity]). Qed.

Lemma String_of_Z_start (n : Z) :
  exists c s, JS.String_of_Z n = String c s /\ numberStart c = true.
Proof.
  unfold JS.String_of_Z, NilZero.string_of_int.
  destruct (Z.to_int n) as [d|d].
  - destruct (uint_start d) as [c [s [-> Hc]]]. exists c, s. split; [reflexivity|].
    unfold numberStart. now rewrite Hc, orb_true_r.
  - eexists; eexists. split; reflexivity.
Qed.

Lemma not_dash_match {A : Type} (c : ascii) (s : string) (X : string -> A) (Y : A) :
  isDigit c = true ->
  match String c s with
  | String "-" s' => X s'
  | _ => Y
  end = Y.
Proof.
  destruct c as [[] [] [] [] [] [] [] []]; intros H; try reflexivity; discriminate H.
Qed.

Lemma to_int_nonnil (n : Z) : Z.to_int n <> Decimal.Pos Decimal.Nil /\ Z.to_int n <> Decimal.Neg Decimal.Nil.
Proof.
  destruct n as [|p|p]; cbn; split; try discriminate;
    intros [= H]; now apply (DecimalPos.Unsigned.to_uint_nonnil p).
Qed.

Lemma parseNumber_String_of_Z (n : Z) (rest : string) :
  noDigitAhead rest ->
  parseNumber (JS.String_of_Z n ++ rest) = Some (n, rest).
Proof.
  intros Hrest. unfold parseNumber.
  assert (Hspan :
    match JS.String_of_Z n ++ rest with
    | String "-" s' => let '(ds, r) := spanDigits s' in (String "-" ds, r)
    | _ => spanDigits (JS.String_of_Z n ++ rest)
    end = (JS.String_of_Z n, rest)).
  { unfold JS.String_of_Z, NilZero.string_of_int.
    destruct (Z.to_int n) as [d|d].
    - destruct (uint_start d) as [c [s [Hd Hc]]].
      pose proof (spanDigits_uint_zero d rest Hrest) as Hs.
      rewrite Hd in *. cbn [String.append] in *.
      etransitivity; [|exact Hs].
      exact (not_dash_match c (s ++ rest)
               (fun s' => let '(ds, r) := spanDigits s' in (String "-" ds, r))
               (spanDigits (String c (s ++ rest))) Hc).
    - cbn [String.append]. now rewrite spanDigits_uint_zero. }
  rewrite Hspan. unfold JS.String_of_Z at 1.
  destruct (to_int_nonnil n) as [H1 H2].
  rewrite (NilZero.isi _ H1 H2), DecimalZ.of_to, String.eqb_refl. reflexivity.
Qed.


Lemma string_append_nil_r (a : string) : a ++ "" = a.
Proof. induction a as [|x a IH]; simpl; [reflexivity | now rewrite IH]. Qed.

Lemma parseValue_number (fuel : nat) (c : ascii) (r : string) :
  numberStart c = true ->
  parseValue (S fuel) (String c r)
  = match parseNumber (String c r) with
    | Some (n, r') => Some (JNum n, r')
    | None => None
    end.
Proof.
  destruct c as [[] [] [] [] [] [] [] []]; intros H; try discriminate H; reflexivity.
Qed.

Lemma numberStart_not_close (c : ascii) :
  numberStart c = true -> Ascii.eqb c "]" = false.
Proof.
  destruct c as [[] [] [] [] [] [] [] []]; intros H; try discriminate H; reflexivity.
Qed.

Lemma stringify_not_close (v : json Z) (rest : string) :
  startsWith (stringify v ++ rest) "]" = false.
Proof.
  destruct v as [| [] | n | s | [|x l] | [|[k x] l]]; try reflexivity.
  cbn [stringify]. destruct (String_of_Z_start n) as [c [s [-> Hc]]].
  cbn [String.append startsWith]. now apply numberStart_not_close.
Qed.

Lemma noDigitAhead_arrTail (l : list (json Z)) (rest : string) :
  noDigitAhead (arrTail l ++ rest).
Proof. destruct l; reflexivity. Qed.

Lemma noDigitAhead_objTail (l : list (string * json Z)) (rest : string) :
  noDigitAhead (objTail l ++ rest).
Proof. destruct l as [|[k x] l]; reflexivity. Qed.

Lemma parseTail_items (l : list (json Z)) :
  Forall parsesBack l ->
  forall fuel rest, (sizeItems l <= fuel)%nat ->
    parseTail fuel (arrTail l ++ rest) = Some (l, rest).
Proof.
  induction 1 as [|y l Hy _ IH]; intros fuel rest Hfuel.
  - destruct fuel; [cbn in Hfuel; lia | reflexivity].
  - cbn [sizeItems] in Hfuel. destruct fuel as [|fuel]; [lia|].
    cbn [arrTail]. rewrite !string_append_assoc.
    change (parseTail (S fuel) ("," ++ stringify y ++ arrTail l ++ rest))
      with (match parseValue fuel (stringify y ++ arrTail l ++ rest) with
            | Some (v, r) =>
                match parseTail fuel r with
                | Some (vs, r') => Some (v :: vs, r')
                | None => None
                end
            | None => None
            end).
    rewrite (Hy fuel (arrTail l ++ rest)) by (try apply noDigitAhead_arrTail; lia).
    rewrite IH by lia. reflexivity.
Qed.

Lemma parseField_field (k : string) (x : json Z) :
  parsesBack x ->
  forall fuel rest, (S (size x) <= fuel)%nat -> noDigitAhead rest ->
    parseField fuel (quoteString k ++ ":" ++ stringify x ++ rest) = Some ((k, x), rest).
Proof.
  intros Hx fuel rest Hfuel Hrest. destruct fuel as [|fuel]; [lia|].
  unfold quoteString. cbn [String.append]. rewrite string_append_assoc. cbn [String.append].
  change (parseField (S fuel)
            (String quote (escape k ++ String quote (String ":" (stringify x ++ rest)))))
    with (match parseChars (escape k ++ String quote (String ":" (stringify x ++ rest))) with
          | Some (k', String colon r) =>
              if Ascii.eqb colon ":" then
                match parseValue fuel r with
                | Some (v, r') => Some ((k', v), r')
                | None => None
                end
              else None
          | _ => None
          end).
  rewrite parseChars_escape. cbn [Ascii.eqb Bool.eqb andb].
  rewrite (Hx fuel rest) by (assumption || lia). reflexivity.
Qed.

Lemma parseFieldsTail_fields (l : list (string * json Z)) :
  Forall (fun kv => parsesBack (snd kv)) l ->
  forall fuel rest, (sizeFields l <= fuel)%nat ->
    parseFieldsTail fuel (objTail l ++ rest) = Some (l, rest).
Proof.
  induction 1 as [|[k y] l Hy _ IH]; intros fuel rest Hfuel.
  - destruct fuel; [cbn in Hfuel; lia | reflexivity].
  - cbn [sizeFields] in Hfuel. destruct fuel as [|fuel]; [lia|].
    cbn [arrTail objTail snd] in *. rewrite !string_append_assoc.
    change (parseFieldsTail (S fuel)
              ("," ++ quoteString k ++ ":" ++ stringify y ++ objTail l ++ rest))
      with (match parseField fuel (quoteString k ++ ":" ++ stringify y ++ objTail l ++ rest) with
            | Some (kv, r) =>
                match parseFieldsTail fuel r with
                | Some (kvs, r') => Some (kv :: kvs, r')
                | None => None
                end
            | None => None
            end).
    rewrite (parseField_field k y Hy fuel (objTail l ++ rest))
      by (try apply noDigitAhead_objTail; lia).
    rewrite IH by lia. reflexivity.
Qed.

Lemma stringify_parsesBack (v : json Z) : parsesBack v.
Proof.
  induction v as [| b | n | s | l IH | l IH] using json_induction;
    intros fuel rest Hfuel Hrest.
  - destruct fuel; [cbn in Hfuel; lia | reflexivity].
  - destruct fuel; [cbn in Hfuel; lia | now destruct b].
  - destruct fuel as [|fuel]; [cbn in Hfuel; lia|]. cbn [stringify].
    destruct (String_of_Z_start n) as [c [s [Hn Hc]]].
    pose proof (parseNumber_String_of_Z n rest Hrest) as Hnum.
    rewrite Hn in *. cbn [String.append] in *.
    now rewrite (parseValue_number fuel c _ Hc), Hnum.
  - destruct fuel as [|fuel]; [cbn in Hfuel; lia|].
    cbn [stringify]. unfold quoteString. cbn [String.append].
    rewrite string_append_assoc. cbn [String.append].
    change (parseValue (S fuel) (String quote (escape s ++ String quote rest)))
      with (match parseChars (escape s ++ String quote rest) with
            | Some (str, r) => Some (@JStr Z str, r)
            | None => None
            end).
    now rewrite parseChars_escape.
  - destruct l as [|x l].
    + destruct fuel; [cbn in Hfuel; lia | reflexivity].
    + rewrite size_arr in Hfuel. destruct fuel as [|fuel]; [lia|].
      rewrite stringify_arr, !string_append_assoc.
      change (parseValue (S fuel) ("[" ++ stringify x ++ arrTail l ++ rest))
        with (if startsWith (stringify x ++ arrTail l ++ rest) "]"
              then Some (@JArr Z [], slice 1 (stringify x ++ arrTail l ++ rest))
              else
                match parseValue fuel (stringify x ++ arrTail l ++ rest) with
                | Some (v, r) =>
                    match parseTail fuel r with
                    | Some (vs, r') => Some (JArr (v :: vs), r')
                    | None => None
                    end
                | None => None
                end).
      rewrite stringify_not_close.
      inversion IH as [|? ? Hx Hl]; subst.
      rewrite (Hx fuel (arrTail l ++ rest)) by (try apply noDigitAhead_arrTail; lia).
      rewrite (parseTail_items l Hl) by lia. reflexivity.
  - destruct l as [|[k x] l].
    + destruct fuel; [cbn in Hfuel; lia | reflexivity].
    + rewrite size_obj in Hfuel. destruct fuel as [|fuel]; [lia|].
      rewrite stringify_obj, !string_append_assoc.
      change (parseValue (S fuel)
                ("{" ++ quoteString k ++ ":" ++ stringify x ++ objTail l ++ rest))
        with (if startsWith (quoteString k ++ ":" ++ stringify x ++ objTail l ++ rest) "}"
              then Some (@JObj Z [],
                         slice 1 (quoteString k ++ ":" ++ stringify x ++ objTail l ++ rest))
              else
                match parseField fuel
                        (quoteString k ++ ":" ++ stringify x ++ objTail l ++ rest) with
                | Some (kv, r) =>
                    match parseFieldsTail fuel r with
                    | Some (kvs, r') => Some (JObj (kv :: kvs), r')
                    | None => None
                    end
                | None => None
                end).
      change (startsWith (quoteString k ++ ":" ++ stringify x ++ objTail l ++ rest) "}")
        with false. cbv iota.
      inversion IH as [|? ? Hx Hl]; subst. cbn [snd] in Hx.
      rewrite (parseField_field k x Hx fuel (objTail l ++ rest))
        by (try apply noDigitAhead_objTail; lia).
      rewrite (parseFieldsTail_fields l Hl) by lia. reflexivity.
Qed.

Lemma size_le_length (v : json Z) : (size v <= String.length (stringify v))%nat.
Proof.
  induction v as [| b | n | s | l IH | l IH] using json_induction.
  - cbn. lia.
  - destruct b; cbn; lia.
  - cbn [size stringify]. destruct (String_of_Z_start n) as [c [s [-> _]]]. cbn. lia.
  - cbn. lia.
  - destruct l as [|x l]; [cbn; lia|].
    rewrite size_arr, stringify_arr, !string_length_append.
    inversion IH as [|? ? Hx Hl]; subst.
    assert (Htail : (sizeItems l <= String.length (arrTail l))%nat).
    { clear Hx IH. induction Hl as [|y l Hy _ IHl]; [cbn; lia|].
      cbn [sizeItems arrTail]. rewrite !string_length_append. cbn [String.length]. lia. }
    cbn [String.length]. lia.
  - destruct l as [|[k x] l]; [cbn; lia|].
    rewrite size_obj, stringify_obj, !string_length_append.
    inversion IH as [|? ? Hx Hl]; subst. cbn [snd] in Hx.
    assert (Htail : (sizeFields l <= String.length (objTail l))%nat).
    { clear Hx IH. induction Hl as [|[k' y] l Hy _ IHl]; [cbn; lia|].
      cbn [sizeFields objTail snd] in *. rewrite !string_length_append.
      unfold quoteString. cbn [String.length]. lia. }
    unfold quoteString. cbn [String.length]. lia.
Qed.

(** The codec decodes what it encodes. *)
Lemma parse_stringify (v : json Z) : parse (stringify v) = Some v.
Proof.
  unfold parse.
  rewrite <- (string_append_nil_r (stringify v)) at 2.
  rewrite (stringify_parsesBack v); [reflexivity | | exact I].
  pose proof (size_le_length v). lia.
Qed.

End Codec.

(** ** The frame parser *)

Section FrameParser.
Import SocketParser.

Variable num : Type.
Variable Number_toString : num -> string.
Variable JSON_parse : string -> option (json num).

(** C8. A frame whose first character is the transport digit [4] and whose
    second character is neither [2] nor [3] (or is missing) parses to
    [{type:'other'}]: a value, not [null], whatever follows and whatever the
    decoder would do with it. *)
Theorem unknown_session_type_is_other (raw : string) :
  String.get 0 raw = Some "4"%char ->
  String.get 1 raw <> Some "2"%char ->
  String.get 1 raw <> Some "3"%char ->
  parseFrame num Number_toString JSON_parse raw = Some (mkFrame TOther None None).
Proof.
  intros H0 H2 H3. unfold parseFrame.
  destruct raw as [|c rest]; [discriminate|].
  cbn [String.get] in H0. injection H0 as ->.
  cbn [startsWith EIO_MESSAGE negb Ascii.eqb Bool.eqb andb].
  destruct (String.get 1 (String "4" rest)) as [c|].
  - unfold SIO_EVENT, SIO_ACK.
    destruct (Ascii.eqb_spec c "2") as [->|_]; [now contradiction H2|].
    destruct (Ascii.eqb_spec c "3") as [->|_]; [now contradiction H3|].
    reflexivity.
  - reflexivity.
Qed.

(** The ack-id pattern does not match a body that starts with a bracket. *)
Lemma stripAckId_bracket (body : string) :
  startsWith body "[" = true -> stripAckId body = body.
Proof.
  destruct body as [|c body]; [discriminate|]. cbn [startsWith]. intros Hc.
  apply Ascii.eqb_eq in Hc. subst c. reflexivity.
Qed.

(** An event frame without namespace and ack id: the decoded array gives the
    event name and the data. *)
Lemma parseFrame_event_body (body : string) (event : json num) (data : list (json num)) :
  startsWith body "[" = true ->
  JSON_parse body = Some (JArr (event :: data)) ->
  parseFrame num Number_toString JSON_parse ("42" ++ body)
  = Some (mkFrame TEvent (Some (String_of num Number_toString event)) (Some data)).
Proof.
  intros Hbr Hparse. unfold parseFrame.
  cbn [String.append startsWith EIO_MESSAGE Ascii.eqb Bool.eqb andb negb
       String.get SIO_EVENT SIO_ACK slice].
  change (match 1%nat with O => Some "4"%char | S n' => String.get n' (String "2" body) end)
    with (Some "2"%char).
  cbn [Ascii.eqb Bool.eqb andb negb].
  assert (Hslash : startsWith body "/" = false).
  { destruct body as [|c b]; [discriminate|]. cbn [startsWith] in *.
    apply Ascii.eqb_eq in Hbr. now subst c. }
  rewrite Hslash, (stripAckId_bracket body Hbr), Hbr. cbn [negb].
  rewrite Hparse. reflexivity.
Qed.

(** C7. Round trip: the text ["42"] followed by the JSON text of the array
    [[E, P]] parses to [{type:'event', event:E, data:[P]}], for every event
    name [E] and every payload [P] that is JSON-serializable, that is, whose
    array [[E, P]] the sender writes as a text that starts with a bracket and
    that [JSON.parse] decodes back to [[E, P]]. *)
Theorem event_frame_round_trip (JSON_stringify : json num -> string)
    (E : string) (P : json num) :
  startsWith (JSON_stringify (JArr [JStr E; P])) "[" = true ->
  JSON_parse (JSON_stringify (JArr [JStr E; P])) = Some (JArr [JStr E; P]) ->
  parseFrame num Number_toString JSON_parse (encodeEvent JSON_stringify E P)
  = Some (mkFrame TEvent (Some E) (Some [P])).
Proof.
  intros Hbr Hrt. unfold encodeEvent.
  now rewrite (parseFrame_event_body _ (JStr E) [P] Hbr Hrt).
Qed.

End FrameParser.

Lemma unknown_session_type_is_other_witness :
  IntJSON.parseFrame "40" = Some (SocketParser.mkFrame SocketParser.TOther None None)
  /\ IntJSON.parseFrame "4" = Some (SocketParser.mkFrame SocketParser.TOther None None).
Proof.
  split.
  - apply (unknown_session_type_is_other Z JS.String_of_Z IntJSON.parse "40");
      [reflexivity | discriminate | discriminate].
  - apply (unknown_session_type_is_other Z JS.String_of_Z IntJSON.parse "4");
      [reflexivity | discriminate | discriminate].
Defined.

(** The frame of a [gamestate] event, written and read with the codec
    [IntJSON]. *)
Lemma event_frame_round_trip_witness :
  IntJSON.parseFrame
    (SocketParser.encodeEvent IntJSON.stringify "gamestate" Scenario.payload)
  = Some (SocketParser.mkFrame SocketParser.TEvent (Some "gamestate")
            (Some [Scenario.payload])).
Proof.
  apply (event_frame_round_trip Z JS.String_of_Z IntJSON.parse IntJSON.stringify
           "gamestate" Scenario.payload).
  - reflexivity.
  - vm_compute. reflexivity.
Defined.

(** ** Further properties of the recorder *)

(** X4. A snapshot of another game is ignored: the call returns false and
    leaves the recorder as it was. *)
Theorem other_game_is_ignored (now : string) (r : GameRecorder.t) (state : IGameState.t) :
  GameRecorder.completed r = false ->
  IGameState.id state <> GameRecorder.gameId r ->
  GameRecorder.ingest now r state = GameRecorder.Result.mk r false None.
Proof.
  intros Hc Hid. unfold GameRecorder.ingest. rewrite Hc.
  apply String.eqb_neq in Hid. now rewrite Hid.
Qed.

Lemma other_game_is_ignored_witness :
  GameRecorder.ingest "t1" Scenario.fresh (Scenario.state "g2" "A" Scenario.twoPlayers Action [])
  = GameRecorder.Result.mk Scenario.fresh false None.
Proof.
  apply (other_game_is_ignored "t1" Scenario.fresh
           (Scenario.state "g2" "A" Scenario.twoPlayers Action [])).
  - reflexivity.
  - discriminate.
Defined.

Lemma ingest_players_fixed (now : string) (r : GameRecorder.t) (state : IGameState.t)
    (both : GamePlayer.t * GamePlayer.t) :
  GameRecorder.players r = Some both ->
  GameRecorder.players (GameRecorder.Result.recorder (GameRecorder.ingest now r state))
  = Some both.
Proof.
  intros Hp.
  destruct (GameRecorder.completed r) eqn:Hc.
  - now rewrite (ingest_completed now r state Hc).
  - destruct (String.eqb_spec (IGameState.id state) (GameRecorder.gameId r)) as [Hid|Hid].
    + rewrite (ingest_active now r state Hc Hid).
      destruct (observe_frame now r state) as [_ [_ [Hplayers _]]]. cbv zeta in Hplayers.
      assert (Hobs : GameRecorder.players (GameRecorder.observe now r state) = Some both).
      { rewrite Hplayers.
        destruct (resolveLocalPlayer_frame r state) as [_ [_ [Hp1 _]]]. cbv zeta in Hp1.
        unfold GameRecorder.capturePlayers. rewrite Hp1, Hp. congruence. }
      destruct (_ && _); cbn [GameRecorder.Result.recorder]; [|exact Hobs].
      now destruct (finalize_frame now state (GameRecorder.observe now r state))
        as [_ [_ [-> _]]].
    + now rewrite (ingest_other_game now r state Hc Hid).
Qed.

(** X5. The player pair is fixed at its capture: no later call changes it or
    its order. *)
Theorem players_fixed_once_captured (r : GameRecorder.t)
    (inputs : list (string * IGameState.t)) (both : GamePlayer.t * GamePlayer.t) :
  GameRecorder.players r = Some both ->
  GameRecorder.players (GameRecorder.after r inputs) = Some both.
Proof.
  revert r. induction inputs as [|[now state] inputs IH]; intros r Hp.
  - exact Hp.
  - rewrite after_cons. apply IH. now apply ingest_players_fixed.
Qed.

(** The pair is captured from a snapshot that lists Alice first; a later
    snapshot of the running game lists Bob first (a fresh recorder would
    capture (Bob, Alice) from it), and the pair stays (Alice, Bob). *)
Lemma players_fixed_once_captured_witness :
  GameRecorder.completed
    (GameRecorder.after Scenario.fresh [("t1", Scenario.actionTwoPlayers)]) = false
  /\ option_map (fun both => (GamePlayer.name (fst both), GamePlayer.name (snd both)))
       (GameRecorder.players (GameRecorder.after Scenario.fresh [("t2", Scenario.bobFirst)]))
     = Some ("Bob", "Alice")
  /\ option_map (fun both => (GamePlayer.name (fst both), GamePlayer.name (snd both)))
       (GameRecorder.players
          (GameRecorder.after
             (GameRecorder.after Scenario.fresh [("t1", Scenario.actionTwoPlayers)])
             [("t2", Scenario.bobFirst)]))
     = Some ("Alice", "Bob").
Proof.
  split; [reflexivity|]. split; [reflexivity|].
  rewrite (players_fixed_once_captured
             (GameRecorder.after Scenario.fresh [("t1", Scenario.actionTwoPlayers)])
             [("t2", Scenario.bobFirst)]
             (GameRecorder.buildPlayer "A"
                (Scenario.player "pA" "Alice" (Scenario.piles [] [] [] [] []) 50%Z),
              GameRecorder.buildPlayer "B"
                (Scenario.player "pB" "Bob" (Scenario.piles [] [] [] [] []) 50%Z))).
  - reflexivity.
  - reflexivity.
Defined.

(** ** Further properties of the differencer *)





(** X7. Events are pushed only for players that are in both snapshots, and,
    when the context names a local player (a non-empty id), only for that
    player. *)
Theorem diff_events_only_for_diffed_players (prev next : IGameState.t)
    (ctx : StateDiffer.DiffContext.t) (e : CardEvent.t) :
  In e (StateDiffer.diffSnapshots prev next ctx) ->
  In (CardEvent.playerId e) (JS.keys (IGameState.players prev))
  /\ In (CardEvent.playerId e) (JS.keys (IGameState.players next))
  /\ (forall l, StateDiffer.DiffContext.localPlayerId ctx = Some l -> l <> "" ->
        CardEvent.playerId e = l).
Proof.
  intros Hin.
  apply diffSnapshots_event in Hin as [pid [p0 [p1 [Hk [Hskip [H0 [H1 Hin]]]]]]].
  apply diffPlayer_events in Hin as [-> _].
  split; [apply get_In_keys; now exists p0|]. split; [exact Hk|].
  intros l Hl Hne. unfold StateDiffer.skipped in Hskip. rewrite Hl in Hskip.
  unfold JS.truthy in Hskip.
  destruct (String.eqb_spec l ""); [contradiction|].
  cbn [negb andb] in Hskip. apply negb_false_iff in Hskip.
  now apply String.eqb_eq.
Qed.

(** Alice and Bob each deploy a unit; with Alice as the local player the
    call pushes her event only. *)
Lemma diff_events_only_for_diffed_players_witness :
  map CardEvent.playerId
    (StateDiffer.diffSnapshots DifferCases.bothDeploy_prev DifferCases.bothDeploy_next
       Scenario.ctx) = ["A"; "B"]
  /\ StateDiffer.diffSnapshots DifferCases.bothDeploy_prev DifferCases.bothDeploy_next
       DifferCases.localCtx
     = [StateDiffer.cardEvent DifferCases.localCtx "A" "Alice" Scenario.u1 Played]
  /\ CardEvent.playerId
       (StateDiffer.cardEvent DifferCases.localCtx "A" "Alice" Scenario.u1 Played) = "A".
Proof.
  split; [vm_compute; reflexivity|]. split; [vm_compute; reflexivity|].
  destruct (diff_events_only_for_diffed_players DifferCases.bothDeploy_prev
              DifferCases.bothDeploy_next DifferCases.localCtx
              (StateDiffer.cardEvent DifferCases.localCtx "A" "Alice" Scenario.u1 Played))
    as [_ [_ H]].
  - left. vm_compute. reflexivity.
  - apply (H "A"); [reflexivity | discriminate].
Defined.

(** X8. An event card.  A uuid that leaves the hand and is new in the discard
    pile, and is new neither in the arena nor in the resources, is counted as
    played once and not as discarded. *)
Theorem event_card_played_not_discarded (prev next : IGameState.t)
    (ctx : StateDiffer.DiffContext.t) (playerId : string)
    (p0 p1 : PlayerStateSummary.t) (uuid : string) :
  NoDup (JS.keys (IGameState.players next)) ->
  StateDiffer.skipped ctx playerId = false ->
  JS.get (IGameState.players prev) playerId = Some p0 ->
  JS.get (IGameState.players next) playerId = Some p1 ->
  leavesHand p0 p1 uuid ->
  newlyDiscarded p0 p1 uuid ->
  ~ newlyInArena p0 p1 uuid ->
  ~ newlyResourced p0 p1 uuid ->
  Traced.emitted playerId uuid Played (Traced.diffSnapshots prev next ctx) = 1%nat
  /\ Traced.emitted playerId uuid Discarded (Traced.diffSnapshots prev next ctx) = 0%nat
  /\ Traced.emitted playerId uuid Resourced (Traced.diffSnapshots prev next ctx) = 0%nat.
Proof.
  intros Hnd Hskip H0 H1 Hleft Hdis Harena Hres.
  rewrite !(emitted_diffSnapshots prev next ctx playerId p0 p1 _ _ Hnd Hskip H0 H1).
  destruct (emitted_diffPlayer ctx playerId p0 p1 uuid) as [HP [HR HD]].
  cbv zeta in HP, HR, HD. rewrite HP, HR, HD.
  apply leftHand_has in Hleft. apply newInDiscard_true in Hdis.
  unfold newlyInArena in Harena.
  rewrite <- newInArena_true in Harena. rewrite <- newInRes_true in Hres.
  apply not_true_is_false in Harena, Hres.
  unfold StateDiffer.playedRoute. rewrite Hleft, Hdis, Harena, Hres.
  cbn [andb orb negb]. repeat split.
Qed.

Lemma event_card_played_not_discarded_witness :
  Traced.emitted "A" "u1" Played
    (Traced.diffSnapshots Scenario.deploy_prev DifferCases.eventCard_next Scenario.ctx)
  = 1%nat
  /\ Traced.emitted "A" "u1" Discarded
       (Traced.diffSnapshots Scenario.deploy_prev DifferCases.eventCard_next Scenario.ctx)
     = 0%nat
  /\ Traced.emitted "A" "u1" Resourced
       (Traced.diffSnapshots Scenario.deploy_prev DifferCases.eventCard_next Scenario.ctx)
     = 0%nat.
Proof.
  apply (event_card_played_not_discarded Scenario.deploy_prev DifferCases.eventCard_next
           Scenario.ctx "A"
           (Scenario.player "pA" "Alice" (Scenario.piles [Scenario.u1] [] [] [] []) 30%Z)
           (Scenario.player "pA" "Alice" (Scenario.piles [] [] [] [] [Scenario.u1]) 30%Z)
           "u1").
  - simpl. constructor; [intros [] | constructor].
  - reflexivity.
  - reflexivity.
  - reflexivity.
  - unfold leavesHand. simpl. tauto.
  - unfold newlyDiscarded. simpl. tauto.
  - unfold newlyInArena. simpl. tauto.
  - unfold newlyResourced. simpl. tauto.
Defined.

(** X9. A resourced event is pushed for a uuid exactly when the uuid leaves
    the (visible) hand and is new in the resources: once in that case,
    never otherwise, whatever the other zones show. *)
Theorem resourced_only_from_hand (prev next : IGameState.t)
    (ctx : StateDiffer.DiffContext.t) (playerId : string)
    (p0 p1 : PlayerStateSummary.t) (uuid : string) :
  NoDup (JS.keys (IGameState.players next)) ->
  StateDiffer.skipped ctx playerId = false ->
  JS.get (IGameState.players prev) playerId = Some p0 ->
  JS.get (IGameState.players next) playerId = Some p1 ->
  (leavesHand p0 p1 uuid /\ newlyResourced p0 p1 uuid ->
   Traced.emitted playerId uuid Resourced (Traced.diffSnapshots prev next ctx) = 1%nat)
  /\ (~ (leavesHand p0 p1 uuid /\ newlyResourced p0 p1 uuid) ->
      Traced.emitted playerId uuid Resourced (Traced.diffSnapshots prev next ctx) = 0%nat).
Proof.
  intros Hnd Hskip H0 H1.
  rewrite !(emitted_diffSnapshots prev next ctx playerId p0 p1 _ _ Hnd Hskip H0 H1).
  destruct (emitted_diffPlayer ctx playerId p0 p1 uuid) as [_ [HR _]].
  cbv zeta in HR. rewrite HR. unfold leavesHand.
  rewrite <- leftHand_has, <- newInRes_true.
  destruct (JS.map_has _ uuid), (StateDiffer.newInRes _ uuid); cbn [andb];
    split; intros H; try reflexivity; try (now destruct H); exfalso; apply H; now split.
Qed.

Lemma resourced_only_from_hand_witness :
  Traced.emitted "A" "u1" Resourced
    (Traced.diffSnapshots Scenario.deploy_prev DifferCases.resourced_next Scenario.ctx)
  = 1%nat
  /\ Traced.emitted "A" "u1" Resourced
       (Traced.diffSnapshots Scenario.drawTwoSeeOne_prev DifferCases.resourced_next
          Scenario.ctx)
     = 0%nat.
Proof.
  assert (Hnd : NoDup (JS.keys (IGameState.players DifferCases.resourced_next))).
  { simpl. constructor; [intros [] | constructor]. }
  split.
  - apply (resourced_only_from_hand Scenario.deploy_prev DifferCases.resourced_next
             Scenario.ctx "A"
             (Scenario.player "pA" "Alice" (Scenario.piles [Scenario.u1] [] [] [] []) 30%Z)
             (Scenario.player "pA" "Alice" (Scenario.piles [] [Scenario.u1] [] [] []) 30%Z)
             "u1" Hnd eq_refl eq_refl eq_refl).
    unfold leavesHand, newlyResourced. simpl. tauto.
  - apply (resourced_only_from_hand Scenario.drawTwoSeeOne_prev DifferCases.resourced_next
             Scenario.ctx "A"
             (Scenario.player "pA" "Alice" (Scenario.piles [] [] [] [] []) 40%Z)
             (Scenario.player "pA" "Alice" (Scenario.piles [] [Scenario.u1] [] [] []) 30%Z)
             "u1" Hnd eq_refl eq_refl eq_refl).
    unfold leavesHand. simpl. tauto.
Defined.

(** ** What the recorder keeps true between calls *)

Lemma updateLast_map {B : Type} (g : RoundSnapshot.t -> B)
    (f : RoundSnapshot.t -> RoundSnapshot.t) (l : list RoundSnapshot.t) :
  (forall s, g (f s) = g s) ->
  map g (GameRecorder.updateLast f l) = map g l.
Proof.
  intros Hg. induction l as [|s [|s' l] IH]; [reflexivity | cbn; now rewrite Hg |].
  change (GameRecorder.updateLast f (s :: s' :: l))
    with (s :: GameRecorder.updateLast f (s' :: l)).
  cbn [map] in *. now rewrite IH.
Qed.

Lemma updateLast_Forall (P : RoundSnapshot.t -> Prop)
    (f : RoundSnapshot.t -> RoundSnapshot.t) (l : list RoundSnapshot.t) :
  (forall s, P s -> P (f s)) ->
  Forall P l -> Forall P (GameRecorder.updateLast f l).
Proof.
  intros Hf. induction l as [|s [|s' l] IH]; intros H.
  - constructor.
  - inversion H; subst. constructor; [now apply Hf | constructor].
  - change (GameRecorder.updateLast f (s :: s' :: l))
      with (s :: GameRecorder.updateLast f (s' :: l)).
    inversion H; subst. constructor; [assumption | now apply IH].
Qed.

Lemma StronglySorted_snoc (l : list Z) (a : Z) :
  StronglySorted Z.lt l -> Forall (fun x => (x < a)%Z) l ->
  StronglySorted Z.lt (l ++ [a]).
Proof.
  induction l as [|x l IH]; intros Hs Hlt; cbn [app].
  - repeat constructor.
  - inversion Hs; subst. inversion Hlt; subst.
    constructor; [now apply IH|].
    apply Forall_app. split; [assumption | now constructor].
Qed.

(** The fields of an event of [diffSnapshots] that the invariant watches. *)
Lemma diffPlayer_event_fields (ctx : StateDiffer.DiffContext.t) (playerId : string)
    (p0 p1 : PlayerStateSummary.t) (e : CardEvent.t) :
  In e (StateDiffer.diffPlayer ctx playerId p0 p1) ->
  CardEvent.gameId e = StateDiffer.DiffContext.gameId ctx
  /\ CardEvent.roundNumber e = StateDiffer.DiffContext.roundNumber ctx
  /\ (1 <= CardEvent.count e)%Z.
Proof.
  intros Hin.
  rewrite diffPlayer_parts, playedLoop_flat_map in Hin. cbn [fst snd] in Hin.
  rewrite !in_app_iff in Hin. destruct Hin as [Hin|[Hin|[Hin|Hin]]].
  - apply in_flat_map in Hin as [[uuid card] [_ Hin]].
    unfold StateDiffer.playedOf, StateDiffer.playedStep in Hin.
    destruct (StateDiffer.newInArena _ uuid); cbn [fst app] in Hin.
    + destruct Hin as [<-|[]]. cbn. repeat split; lia.
    + destruct (StateDiffer.newInRes _ uuid); cbn [fst] in Hin; [contradiction|].
      destruct (StateDiffer.newInDiscard _ uuid); cbn [fst] in Hin; [|contradiction].
      destruct (JS.map_get _ uuid) as [card2|]; cbn [fst app] in Hin; [|contradiction].
      destruct Hin as [<-|[]]. cbn. repeat split; lia.
  - apply in_flat_map in Hin as [[uuid card] [_ Hin]].
    destruct (StateDiffer.newInRes _ uuid); [|contradiction].
    destruct Hin as [<-|[]]. cbn. repeat split; lia.
  - apply in_flat_map in Hin as [[uuid card] [_ Hin]].
    destruct (negb _ && negb _); [|contradiction].
    destruct Hin as [<-|[]]. cbn. repeat split; lia.
  - unfold StateDiffer.drawnPart in Hin.
    destruct (Z.ltb_spec 0 (StateDiffer.deckDecrease p0 p1)); [|contradiction].
    destruct (StateDiffer.newInHand _ p1) as [|c cards].
    + destruct Hin as [<-|[]]. cbn. repeat split; lia.
    + apply in_map_iff in Hin as [card [<- _]]. cbn. repeat split; lia.
Qed.

Lemma parseLogEntries_event_fields (gameId : string) (roundNumber : Z)
    (entries : list IChatEntry.t) (e : CardEvent.t) :
  In e (LogParser.parseLogEntries gameId roundNumber entries) ->
  CardEvent.gameId e = gameId /\ CardEvent.roundNumber e = roundNumber
  /\ CardEvent.count e = 1%Z.
Proof.
  unfold LogParser.parseLogEntries. intros Hin.
  apply in_flat_map in Hin as [entry [_ Hin]].
  destruct (IChatEntry.message entry) as [parts|parts]; [|contradiction].
  cbv zeta in Hin. destruct (negb _); [contradiction|].
  destruct (LogParser.asObject (find LogParser.isPlayerObject parts)); [|contradiction].
  destruct (LogParser.asObject (find LogParser.isCardObject parts)); [|contradiction].
  destruct Hin as [<-|[]]. now cbn.
Qed.

Section InvariantSteps.
Import GameRecorder RecorderInvariant.

Variable now : string.
Variable state : IGameState.t.

Lemma eventOk_weaken (g : string) (n m : Z) (l : list CardEvent.t) :
  (n <= m)%Z -> Forall (eventOk g n) l -> Forall (eventOk g m) l.
Proof.
  intros Hle. apply Forall_impl. intros e [? [? ?]]. repeat split; try assumption; lia.
Qed.

Lemma snapshotsOk_weaken (n m : Z) (l : list RoundSnapshot.t) :
  (n <= m)%Z -> snapshotsOk n l -> snapshotsOk m l.
Proof.
  intros Hle [Hs [Hr Hh]]. repeat split; try assumption.
  revert Hr. apply Forall_impl. intros; lia.
Qed.

Lemma holds_resolveLocalPlayer (r : t) : holds r -> holds (resolveLocalPlayer r state).
Proof.
  unfold resolveLocalPlayer. now destruct (negb _ && _).
Qed.

Lemma holds_capturePlayers (r : t) : holds r -> holds (capturePlayers r state).
Proof.
  intros H. unfold capturePlayers.
  destruct (players r) eqn:Hp; [exact H|].
  destruct (2 <=? _)%nat; [|exact H]. cbv zeta.
  destruct (JS.get (IGameState.players state) _) as [pl|]; [|exact H].
  destruct (JS.get (IGameState.players state) _) as [po|]; [|exact H].
  destruct H as [H1 [H2 [H3 [H4 H5]]]].
  unfold holds. fields. repeat split; try assumption; try apply H3.
  intros both [= <-]. reflexivity.
Qed.

Lemma holds_accumulateLog (r : t) : holds r -> holds (accumulateLog r state).
Proof.
  intros H. unfold accumulateLog.
  destruct (IGameState.newMessages state) as [|m ms]; [exact H|].
  destruct H as [H1 [H2 [H3 [H4 H5]]]].
  unfold holds. fields. repeat split; try assumption; try apply H3.
  apply Forall_app. split; [assumption|].
  apply Forall_forall. intros e He.
  apply parseLogEntries_event_fields in He as [Hg [Hr Hc]].
  unfold eventOk, JS.Math_max in *. rewrite Hg, Hr, Hc. repeat split; lia.
Qed.

Lemma baseHp_nonneg (p : PlayerStateSummary.t) : (0 <= baseHp p)%Z.
Proof. unfold baseHp, JS.Math_max. lia. Qed.

Lemma holds_startRound (r : t) : holds r -> holds (startRound now r state).
Proof.
  intros [H1 [H2 [[H3 [H3' H3'']] [H4 H5]]]].
  unfold startRound. cbv zeta.
  set (upd := updateLast _ (snapshots r)).
  assert (Hround : JS.Math_max (roundNumber r + 1) 1 = (roundNumber r + 1)%Z)
    by (unfold JS.Math_max; lia).
  assert (Hupd : snapshotsOk (roundNumber r) upd).
  { unfold upd. repeat split.
    - now rewrite updateLast_map.
    - apply updateLast_Forall; [|assumption]. now intros s.
    - apply updateLast_Forall; [|assumption]. intros s _. exact H4. }
  destruct (captureSnapshot now _ state _) as [snap|] eqn:Hsnap.
  - assert (Hs : RoundSnapshot.round snap = (roundNumber r + 1)%Z
                 /\ RoundSnapshot.baseHpChanges snap = []).
    { unfold captureSnapshot in Hsnap. fields.
      destruct (players r) as [[lp op]|]; [|discriminate].
      destruct (JS.get _ (GamePlayer.id lp)); [|discriminate].
      destruct (JS.get _ (GamePlayer.id op)); [|discriminate].
      injection Hsnap as <-. cbn. now rewrite Hround. }
    destruct Hs as [Hs1 Hs2].
    assert (Hall : holds
              (set_snapshots (upd ++ [snap])
                 (set_roundNumber (JS.Math_max (roundNumber r + 1) 1)
                    (set_currentRoundBaseHpChanges []
                       (set_currentRoundLogs [] (set_snapshots upd r)))))).
    { unfold holds. fields. rewrite Hround.
      destruct Hupd as [U1 [U2 U3]].
      split; [lia|]. split; [apply (eventOk_weaken _ (Z.max 1 (roundNumber r))); [lia | assumption]|].
      split; [|split; [constructor | assumption]].
      repeat split.
      - rewrite map_app. cbn [map]. apply StronglySorted_snoc; [assumption|].
        apply Forall_map. revert U2. apply Forall_impl. intros; lia.
      - apply Forall_app. split.
        + revert U2. apply Forall_impl. intros; lia.
        + constructor; [lia | constructor].
      - apply Forall_app. split; [assumption|].
        constructor; [rewrite Hs2; constructor | constructor]. }
    fields.
    destruct (players r) as [[lp op]|] eqn:Hp; fields; [|exact Hall].
    destruct Hall as [A1 [A2 [A3 [A4 A5]]]].
    unfold holds. fields. repeat split; try assumption; try apply A3.
  - unfold holds. fields. rewrite Hround.
    split; [lia|]. split; [apply (eventOk_weaken _ (Z.max 1 (roundNumber r))); [lia | assumption]|].
    split; [apply (snapshotsOk_weaken (roundNumber r)); [lia | assumption]|].
    split; [constructor | assumption].
Qed.

Lemma holds_sampleHp (r : t) : holds r -> holds (sampleHp r state).
Proof.
  intros H. unfold sampleHp.
  destruct (players r) as [[lp op]|] eqn:Hp; [|exact H].
  destruct (JS.get _ (GamePlayer.id lp)) as [ls|]; [|exact H].
  destruct (JS.get _ (GamePlayer.id op)) as [os|]; [|exact H].
  cbv zeta. destruct H as [H1 [H2 [H3 [H4 H5]]]].
  destruct (lastKnownYouHp r).
  - destruct (negb _ || negb _); unfold holds; fields; rewrite ?Hp;
      repeat split; try assumption; try apply H3; try (now rewrite <- Hp; apply H5).
    apply Forall_app. split; [assumption|].
    constructor; [split; apply baseHp_nonneg | constructor].
  - unfold holds; fields; rewrite ?Hp;
      repeat split; try assumption; try apply H3; try (now rewrite <- Hp; apply H5).
Qed.

Lemma holds_trackRound (r : t) : holds r -> holds (trackRound now r state).
Proof.
  intros H. unfold trackRound. cbv zeta.
  assert (Hset : forall r0, holds r0 -> holds (set_prevPhase (Some (IGameState.phase state)) r0)).
  { intros r0 H0. exact H0. }
  apply Hset.
  destruct (_ && _ && _); [now apply holds_startRound|].
  destruct (_ && _ && _); [now apply holds_sampleHp | exact H].
Qed.

Lemma holds_diffStep (r : t) : holds r -> holds (diffStep r state).
Proof.
  intros H. unfold diffStep. cbv zeta.
  destruct (prevState r) as [prev|]; [|exact H].
  destruct H as [H1 [H2 [H3 [H4 H5]]]].
  unfold holds. fields. repeat split; try assumption; try apply H3.
  apply Forall_app. split; [assumption|].
  apply Forall_forall. intros e He.
  apply diffSnapshots_event in He as [pid [p0 [p1 [_ [_ [_ [_ He]]]]]]].
  apply diffPlayer_event_fields in He as [Hg [Hr Hc]].
  unfold eventOk. rewrite Hg, Hr. cbn. repeat split; lia.
Qed.

Lemma holds_observe (r : t) : holds r -> holds (observe now r state).
Proof.
  intros H. unfold observe. cbv zeta.
  now apply holds_diffStep, holds_trackRound, holds_accumulateLog,
    holds_capturePlayers, holds_resolveLocalPlayer.
Qed.

Lemma finalize_ok (r : t) :
  holds r ->
  holds (fst (finalize now r state))
  /\ forall record, snd (finalize now r state) = Some record ->
       GameRecord.gameId record = gameId r /\ recordOk record.
Proof.
  intros [H1 [H2 [[H3 [H3' H3'']] [H4 H5]]]].
  unfold finalize. cbv zeta. fields.
  set (upd := updateLast _ (snapshots r)).
  assert (Hupd : snapshotsOk (roundNumber r) upd).
  { unfold upd. repeat split.
    - now rewrite updateLast_map.
    - apply updateLast_Forall; [|assumption]. now intros s.
    - apply updateLast_Forall; [|assumption]. intros s Hs. cbn.
      destruct (currentRoundBaseHpChanges r) eqn:Hc; [assumption|].
      apply Forall_app. now split. }
  cbn [fst snd]. split.
  - unfold holds. fields. repeat split; try assumption; apply Hupd.
  - intros record Hrec. destruct (players r) as [both|] eqn:Hp; [|discriminate].
    injection Hrec as <-. unfold recordOk. cbn. repeat split; try assumption; try apply Hupd.
    now apply H5.
Qed.

Lemma holds_ingest (r : t) :
  holds r ->
  holds (Result.recorder (ingest now r state))
  /\ forall record, Result.completion (ingest now r state) = Some record ->
       GameRecord.gameId record = gameId r /\ recordOk record.
Proof.
  intros H. destruct (completed r) eqn:Hc.
  - rewrite (ingest_completed now r state Hc).
    cbn [Result.recorder Result.completion]. split; [assumption | discriminate].
  - destruct (String.eqb_spec (IGameState.id state) (gameId r)) as [Hid|Hid].
    + rewrite (ingest_active now r state Hc Hid).
      pose proof (holds_observe r H) as Ho.
      destruct (observe_frame now r state) as [Hg _]. cbv zeta in Hg.
      revert Ho Hg. generalize (observe now r state). intros o Ho Hg.
      destruct (finalize_ok _ Ho) as [Hf Hrec].
      destruct (_ && _); cbn [Result.recorder Result.completion];
        [|split; [assumption | discriminate]].
      split; [assumption|]. intros record Hr. rewrite <- Hg. now apply Hrec.
    + rewrite (ingest_other_game now r state Hc Hid).
      cbn [Result.recorder Result.completion]. split; [assumption | discriminate].
Qed.

End InvariantSteps.

Lemma holds_new (gameId t0 : string) : RecorderInvariant.holds (GameRecorder.new gameId t0).
Proof.
  unfold RecorderInvariant.holds. cbn. repeat split; try constructor; try lia.
  discriminate.
Qed.

Lemma completions_cons (r : GameRecorder.t) (now : string) (state : IGameState.t)
    (inputs : list (string * IGameState.t)) :
  GameRecorder.completions r ((now, state) :: inputs)
  = match GameRecorder.Result.completion (GameRecorder.ingest now r state) with
    | Some record =>
        record
        :: GameRecorder.completions
             (GameRecorder.Result.recorder (GameRecorder.ingest now r state)) inputs
    | None =>
        GameRecorder.completions
          (GameRecorder.Result.recorder (GameRecorder.ingest now r state)) inputs
    end.
Proof.
  unfold GameRecorder.completions. cbn [GameRecorder.run].
  now destruct (GameRecorder.run _ inputs).
Qed.


Lemma completions_ok (r : GameRecorder.t) (inputs : list (string * IGameState.t))
    (record : GameRecord.t) :
  RecorderInvariant.holds r ->
  In record (GameRecorder.completions r inputs) ->
  GameRecord.gameId record = GameRecorder.gameId r /\ RecorderInvariant.recordOk record.
Proof.
  revert r.
  induction inputs as [|[now state] inputs IH]; intros r H Hin; [contradiction|].
  rewrite completions_cons in Hin.
  destruct (holds_ingest now state r H) as [Hnext Hrec].
  specialize (IH (GameRecorder.Result.recorder (GameRecorder.ingest now r state)) Hnext).
  rewrite ingest_gameId in IH. revert Hin Hrec IH.
  generalize (GameRecorder.ingest now r state). intros res Hin Hrec IH.
  destruct (GameRecorder.Result.completion res) as [rec|].
  - destruct Hin as [<-|Hin]; [now apply Hrec | now apply IH].
  - now apply IH.
Qed.

(** X10. Every card event of a record that a recorder hands over carries the
    game id of the record, a count of 1 or more, and a round number between 0
    and the number of rounds of the record (1 when the record has no round). *)
Theorem record_events_well_formed (gameId t0 : string)
    (inputs : list (string * IGameState.t)) (record : GameRecord.t) :
  In record (GameRecorder.completions (GameRecorder.new gameId t0) inputs) ->
  GameRecord.gameId record = gameId
  /\ forall e, In e (GameRecord.cardEvents record) ->
       CardEvent.gameId e = gameId
       /\ (1 <= CardEvent.count e)%Z
       /\ (0 <= CardEvent.roundNumber e <= Z.max 1 (GameRecord.rounds record))%Z.
Proof.
  intros Hin.
  destruct (completions_ok _ inputs record (holds_new gameId t0) Hin)
    as [Hg [_ [Hev _]]].
  cbn in Hg. split; [exact Hg|]. intros e He.
  rewrite Forall_forall in Hev. specialize (Hev e He). rewrite Hg in Hev. exact Hev.
Qed.

(** The record of [RecorderCases.oneRound]. *)
Lemma record_events_well_formed_witness :
  exists record,
    GameRecorder.completions Scenario.fresh RecorderCases.oneRound = [record]
    /\ map (fun e => (CardEvent.cardId e, CardEvent.metric e, CardEvent.roundNumber e))
         (GameRecord.cardEvents record) = [("han-solo", Played, 1%Z)]
    /\ GameRecord.gameId record = "g1"
    /\ forall e, In e (GameRecord.cardEvents record) ->
         CardEvent.gameId e = "g1"
         /\ (1 <= CardEvent.count e)%Z
         /\ (0 <= CardEvent.roundNumber e <= Z.max 1 (GameRecord.rounds record))%Z.
Proof.
  destruct (GameRecorder.completions Scenario.fresh RecorderCases.oneRound)
    as [|record [|other rest]] eqn:Hrun;
    [vm_compute in Hrun; discriminate Hrun | | vm_compute in Hrun; discriminate Hrun].
  exists record. split; [reflexivity|]. split.
  - vm_compute in Hrun. injection Hrun as <-. vm_compute. reflexivity.
  - apply (record_events_well_formed "g1" "t0" RecorderCases.oneRound record).
    change (GameRecorder.new "g1" "t0") with Scenario.fresh. rewrite Hrun. now left.
Defined.

(** X11. The round snapshots of a record are in strictly increasing round
    order, at most one per round, with rounds between 1 and the number of
    rounds of the record. *)
Theorem record_snapshots_ordered (gameId t0 : string)
    (inputs : list (string * IGameState.t)) (record : GameRecord.t) :
  In record (GameRecorder.completions (GameRecorder.new gameId t0) inputs) ->
  StronglySorted Z.lt (map RoundSnapshot.round (GameRecord.snapshots record))
  /\ (forall s, In s (GameRecord.snapshots record) ->
        (1 <= RoundSnapshot.round s <= GameRecord.rounds record)%Z).
Proof.
  intros Hin.
  destruct (completions_ok _ inputs record (holds_new gameId t0) Hin)
    as [_ [_ [_ [[Hs [Hr _]] _]]]].
  split; [exact Hs|]. now apply Forall_forall.
Qed.

Lemma record_snapshots_ordered_witness :
  exists record,
    GameRecorder.completions Scenario.fresh RecorderCases.oneRound = [record]
    /\ GameRecord.rounds record = 1%Z
    /\ StronglySorted Z.lt (map RoundSnapshot.round (GameRecord.snapshots record))
    /\ (forall s, In s (GameRecord.snapshots record) ->
          (1 <= RoundSnapshot.round s <= GameRecord.rounds record)%Z).
Proof.
  destruct (GameRecorder.completions Scenario.fresh RecorderCases.oneRound)
    as [|record [|other rest]] eqn:Hrun;
    [vm_compute in Hrun; discriminate Hrun | | vm_compute in Hrun; discriminate Hrun].
  exists record. split; [reflexivity|]. split.
  - vm_compute in Hrun. injection Hrun as <-. vm_compute. reflexivity.
  - apply (record_snapshots_ordered "g1" "t0" RecorderCases.oneRound record).
    change (GameRecorder.new "g1" "t0") with Scenario.fresh. rewrite Hrun. now left.
Defined.

(** X12. The limited-format flag of a record is set exactly when the smaller
    of the two starting decks has 35 cards or fewer. *)
Theorem record_limited_iff_small_deck (gameId t0 : string)
    (inputs : list (string * IGameState.t)) (record : GameRecord.t) :
  In record (GameRecorder.completions (GameRecorder.new gameId t0) inputs) ->
  GameRecord.isLimitedFormat record = true
  <-> (Z.min (GamePlayer.deckSize (fst (GameRecord.players record)))
             (GamePlayer.deckSize (snd (GameRecord.players record))) <= 35)%Z.
Proof.
  intros Hin.
  destruct (completions_ok _ inputs record (holds_new gameId t0) Hin)
    as [_ [_ [_ [_ Hl]]]].
  unfold RecorderInvariant.limitedOk, GameRecorder.LIMITED_DECK_SIZE_THRESHOLD in Hl.
  rewrite Hl. apply Z.leb_le.
Qed.

(** Alice's deck has 30 cards when the pair is captured: the record is of the
    limited format. *)
Lemma record_limited_iff_small_deck_witness :
  exists record,
    GameRecorder.completions Scenario.fresh RecorderCases.oneRound = [record]
    /\ map GamePlayer.deckSize [fst (GameRecord.players record); snd (GameRecord.players record)]
       = [30%Z; 50%Z]
    /\ (GameRecord.isLimitedFormat record = true
        <-> (Z.min (GamePlayer.deckSize (fst (GameRecord.players record)))
                   (GamePlayer.deckSize (snd (GameRecord.players record))) <= 35)%Z).
Proof.
  destruct (GameRecorder.completions Scenario.fresh RecorderCases.oneRound)
    as [|record [|other rest]] eqn:Hrun;
    [vm_compute in Hrun; discriminate Hrun | | vm_compute in Hrun; discriminate Hrun].
  exists record. split; [reflexivity|]. split.
  - vm_compute in Hrun. injection Hrun as <-. vm_compute. reflexivity.
  - apply (record_limited_iff_small_deck "g1" "t0" RecorderCases.oneRound record).
    change (GameRecorder.new "g1" "t0") with Scenario.fresh. rewrite Hrun. now left.
Defined.

(** *** The raw log *)

Section RecorderLog.
Import GameRecorder.

Variable now : string.
Variable r : t.
Variable state : IGameState.t.






End RecorderLog.







(** *** The player pair *)

Lemma find_other (ids : list string) (localId : string) :
  NoDup ids -> (2 <= List.length ids)%nat ->
  exists o, find (fun id => negb (id =? localId)) ids = Some o
            /\ o <> localId /\ In o ids.
Proof.
  intros Hnd Hlen.
  destruct (find (fun id => negb (id =? localId)) ids) as [o|] eqn:Hf.
  - apply find_some in Hf as [Hin Hne]. exists o.
    apply negb_true_iff, String.eqb_neq in Hne. now repeat split.
  - exfalso. destruct ids as [|a [|b ids]]; cbn in Hlen; try lia.
    assert (Ha : a = localId).
    { pose proof (find_none _ _ Hf a (or_introl eq_refl)) as H. cbn in H.
      now apply negb_false_iff, String.eqb_eq in H. }
    assert (Hb : b = localId).
    { pose proof (find_none _ _ Hf b (or_intror (or_introl eq_refl))) as H. cbn in H.
      now apply negb_false_iff, String.eqb_eq in H. }
    inversion Hnd; subst. apply H1. now left.
Qed.

(** X14. Capture of the player pair.  A call on a recorder without a pair, with
    a state of its game that has two or more player keys, captures a pair of
    two different keys of the state; the first is the local player when the
    recorder has resolved one (a non-empty id) that is a key of the state, and
    the first key of the state otherwise. *)
Theorem local_player_first (now : string) (r : GameRecorder.t) (state : IGameState.t) :
  GameRecorder.completed r = false ->
  IGameState.id state = GameRecorder.gameId r ->
  GameRecorder.players r = None ->
  NoDup (JS.keys (IGameState.players state)) ->
  (2 <= List.length (JS.keys (IGameState.players state)))%nat ->
  let r' := GameRecorder.Result.recorder (GameRecorder.ingest now r state) in
  exists you opp,
    GameRecorder.players r' = Some (you, opp)
    /\ GamePlayer.id you <> GamePlayer.id opp
    /\ In (GamePlayer.id you) (JS.keys (IGameState.players state))
    /\ In (GamePlayer.id opp) (JS.keys (IGameState.players state))
    /\ (forall l, GameRecorder.localPlayerId r' = Some l -> l <> "" ->
          In l (JS.keys (IGameState.players state)) -> GamePlayer.id you = l)
    /\ ((forall l, GameRecorder.localPlayerId r' = Some l -> l <> "" ->
           ~ In l (JS.keys (IGameState.players state))) ->
        Some (GamePlayer.id you) = hd_error (JS.keys (IGameState.players state))).
Proof.
  intros Hc Hid Hp Hnd Hlen r'.
  assert (Hplayers : GameRecorder.players r'
            = GameRecorder.players
                (GameRecorder.capturePlayers (GameRecorder.resolveLocalPlayer r state) state)).
  { unfold r'. rewrite (ingest_active now r state Hc Hid).
    destruct (observe_frame now r state) as [_ [_ [Hpl _]]]. cbv zeta in Hpl.
    destruct (_ && _); cbn [GameRecorder.Result.recorder]; [|exact Hpl].
    destruct (finalize_frame now state (GameRecorder.observe now r state))
      as [_ [_ [Hf _]]]. cbv zeta in Hf. congruence. }
  assert (Hlocal : GameRecorder.localPlayerId r'
            = GameRecorder.localPlayerId (GameRecorder.resolveLocalPlayer r state)).
  { unfold r'. rewrite (ingest_active now r state Hc Hid).
    assert (Ho : GameRecorder.localPlayerId (GameRecorder.observe now r state)
                 = GameRecorder.localPlayerId (GameRecorder.resolveLocalPlayer r state)).
    { unfold GameRecorder.observe. cbv zeta.
      destruct (diffStep_frame
                  (GameRecorder.trackRound now
                     (GameRecorder.accumulateLog
                        (GameRecorder.capturePlayers
                           (GameRecorder.resolveLocalPlayer r state) state) state) state)
                  state) as [_ [_ [_ [_ [_ [_ [E _]]]]]]].
      destruct (trackRound_frame now
                  (GameRecorder.accumulateLog
                     (GameRecorder.capturePlayers
                        (GameRecorder.resolveLocalPlayer r state) state) state)
                  state) as [_ [_ [_ [_ [_ [D _]]]]]].
      destruct (accumulateLog_frame
                  (GameRecorder.capturePlayers
                     (GameRecorder.resolveLocalPlayer r state) state)
                  state) as [_ [_ [_ [_ [_ [_ [_ [C _]]]]]]]].
      destruct (capturePlayers_frame (GameRecorder.resolveLocalPlayer r state) state)
        as [_ [_ [_ [_ [_ [_ [_ B]]]]]]].
      cbv zeta in *. congruence. }
    destruct (_ && _); cbn [GameRecorder.Result.recorder]; [|exact Ho].
    unfold GameRecorder.finalize. cbv zeta. cbn [fst]. fields. exact Ho. }
  rewrite Hplayers, Hlocal. clear Hplayers Hlocal r'.
  set (r1 := GameRecorder.resolveLocalPlayer r state).
  assert (Hp1 : GameRecorder.players r1 = None).
  { destruct (resolveLocalPlayer_frame r state) as [_ [_ [H _]]]. cbv zeta in H.
    unfold r1. congruence. }
  unfold GameRecorder.capturePlayers. rewrite Hp1.
  set (ids := JS.keys (IGameState.players state)) in *.
  destruct (Nat.leb_spec 2 (List.length ids)) as [_|]; [|lia]. cbv zeta.
  set (localId := GameRecorder.chooseLocalId r1 state ids).
  assert (Hfirst : exists a rest, ids = a :: rest).
  { destruct ids as [|a rest]; [cbn in Hlen; lia | now exists a, rest]. }
  destruct Hfirst as [a [rest Hids]].
  assert (Hchoose :
            In localId ids
            /\ (forall l, GameRecorder.localPlayerId r1 = Some l -> l <> "" ->
                  In l ids -> localId = l)
            /\ ((forall l, GameRecorder.localPlayerId r1 = Some l -> l <> "" ->
                   ~ In l ids) -> localId = a)).
  { unfold localId, GameRecorder.chooseLocalId.
    destruct (GameRecorder.localPlayerId r1) as [l|] eqn:Hl.
    - unfold JS.truthy. destruct (String.eqb_spec l "") as [->|Hne]; cbn [negb andb].
      + rewrite Hids. cbn [nth]. split; [now left|]. split; [intros ? [= <-] ?; contradiction|].
        reflexivity.
      + destruct (JS.get (IGameState.players state) l) as [p|] eqn:Hget.
        * assert (Hin : In l ids) by (apply get_In_keys; now exists p).
          split; [exact Hin|]. split; [now intros ? [= <-]|].
          intros H. exfalso. exact (H l eq_refl Hne Hin).
        * rewrite Hids. cbn [nth]. split; [now left|]. split; [|reflexivity].
          intros ? [= <-] _ Hin. rewrite <- Hids in Hin.
          apply get_In_keys in Hin as [v Hv]. congruence.
    - rewrite Hids. cbn [nth]. split; [now left|]. split; [discriminate | reflexivity]. }
  destruct Hchoose as [Hin [Hres Hfst]].
  destruct (find_other ids localId Hnd Hlen) as [o [Hfind [Hne Hino]]].
  rewrite Hfind. cbn [JS.nullish].
  apply get_In_keys in Hin as [pl Hpl]. apply get_In_keys in Hino as [po Hpo].
  rewrite Hpl, Hpo. fields.
  exists (GameRecorder.buildPlayer localId pl), (GameRecorder.buildPlayer o po).
  cbn [GameRecorder.buildPlayer GamePlayer.id].
  split; [reflexivity|]. split; [congruence|].
  split; [apply get_In_keys; now exists pl|].
  split; [apply get_In_keys; now exists po|].
  split; [exact Hres|].
  intros H. rewrite Hids. cbn [hd_error]. f_equal. now apply Hfst.
Qed.

(** Bob is the local player and Alice's key comes first: the pair is
    (Bob, Alice). *)
Lemma local_player_first_witness :
  JS.keys (IGameState.players RecorderCases.bobLocal) = ["A"; "B"]
  /\ exists you opp,
       GameRecorder.players
         (GameRecorder.Result.recorder
            (GameRecorder.ingest "t1" Scenario.fresh RecorderCases.bobLocal))
       = Some (you, opp)
       /\ GamePlayer.id you <> GamePlayer.id opp
       /\ GamePlayer.id you = "B".
Proof.
  split; [reflexivity|].
  destruct (local_player_first "t1" Scenario.fresh RecorderCases.bobLocal)
    as [you [opp [Hp [Hne [_ [_ [Hlocal _]]]]]]].
  - reflexivity.
  - reflexivity.
  - reflexivity.
  - simpl. constructor; [intros [H|[]]; discriminate H|].
    constructor; [intros [] | constructor].
  - simpl. lia.
  - exists you, opp. split; [exact Hp|]. split; [exact Hne|].
    apply Hlocal; [vm_compute; reflexivity | discriminate | simpl; tauto].
Defined.

(** ** Further properties of the frame parser *)

Section FrameShapes.
Import SocketParser.

Variable num : Type.
Variable Number_toString : num -> string.
Variable JSON_parse : string -> option (json num).

Lemma prefix_comma (c : ascii) (s : string) :
  String.prefix "," (String c s) = Ascii.eqb "," c.
Proof.
  cbn [String.prefix]. destruct (Ascii.ascii_dec "," c) as [<-|Hc].
  - now destruct s.
  - symmetry. now apply Ascii.eqb_neq.
Qed.

Lemma index_comma (ns rest : string) :
  String.index 0 "," ns = None ->
  String.index 0 "," (ns ++ String "," rest) = Some (String.length ns).
Proof.
  induction ns as [|c ns IH]; intros Hno.
  - cbn [String.append]. unfold String.index. now rewrite prefix_comma.
  - cbn [String.append String.length].
    change (String.index 0 "," (String c (ns ++ String "," rest)))
      with (if String.prefix "," (String c (ns ++ String "," rest)) then Some 0%nat
            else match String.index 0 "," (ns ++ String "," rest) with
                 | Some n0 => Some (S n0)
                 | None => None
                 end).
    change (String.index 0 "," (String c ns))
      with (if String.prefix "," (String c ns) then Some 0%nat
            else match String.index 0 "," ns with
                 | Some n0 => Some (S n0)
                 | None => None
                 end) in Hno.
    rewrite prefix_comma in *.
    destruct (Ascii.eqb "," c); [discriminate|].
    destruct (String.index 0 "," ns) eqn:Hi; [discriminate|].
    now rewrite IH.
Qed.

Lemma slice_append (a b : string) : slice (String.length a) (a ++ b) = b.
Proof. induction a as [|c a IH]; [now destruct b | exact IH]. Qed.

(** X15. The namespace is transparent.  A frame with a namespace ([/ns,] after
    the two type characters, [ns] without a comma) parses like the frame
    without it, when what follows the comma does not itself start with a
    slash. *)
Theorem namespace_is_transparent (t : ascii) (ns body : string) :
  String.index 0 "," ns = None ->
  startsWith body "/" = false ->
  parseFrame num Number_toString JSON_parse
    (String "4" (String t ("/" ++ ns ++ "," ++ body)))
  = parseFrame num Number_toString JSON_parse (String "4" (String t body)).
Proof.
  intros Hns Hbody. unfold parseFrame.
  cbn [startsWith EIO_MESSAGE Ascii.eqb Bool.eqb andb negb].
  change (String.get 1 (String "4" (String t ("/" ++ ns ++ "," ++ body))))
    with (Some t).
  change (String.get 1 (String "4" (String t body))) with (Some t).
  destruct (negb _ && negb _); [reflexivity|].
  change (slice 2 (String "4" (String t ("/" ++ ns ++ "," ++ body))))
    with (String "/" (ns ++ String "," body)).
  change (slice 2 (String "4" (String t body))) with body.
  rewrite Hbody. cbn [startsWith Ascii.eqb Bool.eqb andb].
  assert (Hidx : String.index 0 "," (String "/" (ns ++ String "," body))
                 = Some (S (String.length ns))).
  { change (String.index 0 "," (String "/" (ns ++ String "," body)))
      with (if String.prefix "," (String "/" (ns ++ String "," body)) then Some 0%nat
            else match String.index 0 "," (ns ++ String "," body) with
                 | Some n0 => Some (S n0)
                 | None => None
                 end).
    rewrite prefix_comma. cbn [Ascii.eqb Bool.eqb andb].
    now rewrite index_comma. }
  rewrite Hidx.
  replace (slice (S (String.length ns) + 1) (String "/" (ns ++ String "," body)))
    with body; [reflexivity|].
  rewrite Nat.add_1_r. cbn [slice].
  change (String "," body) with (("," ++ body)%string).
  rewrite <- (slice_append (ns ++ ",")%string body) at 1.
  rewrite <- string_append_assoc.
  rewrite string_length_append. cbn [String.length]. now rewrite Nat.add_1_r.
Qed.

Lemma dropDigits_digits (ackId rest : string) :
  allDigits ackId = true ->
  dropDigits (ackId ++ String "[" rest) = String "[" rest.
Proof.
  unfold allDigits. induction ackId as [|c ackId IH]; intros H.
  - reflexivity.
  - cbn [list_ascii_of_string forallb] in H. apply andb_prop in H as [Hc H].
    cbn [String.append dropDigits]. rewrite Hc. now apply IH.
Qed.

Lemma stripAckId_digits (ackId rest : string) :
  allDigits ackId = true ->
  stripAckId (ackId ++ String "[" rest) = String "[" rest.
Proof.
  intros H. destruct ackId as [|c ackId]; [reflexivity|].
  unfold stripAckId. cbn [String.append].
  change (String c (ackId ++ String "[" rest))
    with ((String c ackId ++ String "[" rest)%string).
  rewrite (dropDigits_digits _ rest H).
  unfold allDigits in H. cbn [list_ascii_of_string forallb] in H.
  apply andb_prop in H as [-> _]. reflexivity.
Qed.

Lemma digits_no_slash (ackId rest : string) :
  allDigits ackId = true ->
  startsWith (ackId ++ String "[" rest) "/" = false.
Proof.
  destruct ackId as [|c ackId]; [reflexivity|].
  unfold allDigits. cbn [list_ascii_of_string forallb String.append startsWith].
  intros H. apply andb_prop in H as [Hc _].
  destruct (Ascii.eqb_spec c "/") as [->|]; [discriminate | reflexivity].
Qed.

(** X16. The ack id is transparent.  A frame with an ack id (decimal digits
    between the two type characters and the opening bracket of the array)
    parses like the frame without it, whatever the decoder. *)
Theorem ack_id_is_transparent (t : ascii) (ackId body : string) :
  allDigits ackId = true ->
  startsWith body "[" = true ->
  parseFrame num Number_toString JSON_parse (String "4" (String t (ackId ++ body)))
  = parseFrame num Number_toString JSON_parse (String "4" (String t body)).
Proof.
  intros Hd Hb. destruct body as [|c rest]; [discriminate Hb|].
  cbn [startsWith] in Hb. apply Ascii.eqb_eq in Hb. subst c.
  unfold parseFrame.
  cbn [startsWith EIO_MESSAGE Ascii.eqb Bool.eqb andb negb].
  change (String.get 1 (String "4" (String t (ackId ++ String "[" rest))))
    with (Some t).
  change (String.get 1 (String "4" (String t (String "[" rest)))) with (Some t).
  destruct (negb _ && negb _); [reflexivity|].
  change (slice 2 (String "4" (String t (ackId ++ String "[" rest))))
    with ((ackId ++ String "[" rest)%string).
  change (slice 2 (String "4" (String t (String "[" rest)))) with (String "[" rest).
  rewrite (digits_no_slash ackId rest Hd), (stripAckId_digits ackId rest Hd).
  reflexivity.
Qed.


End FrameShapes.

(** A game-state event in the namespace [/game], on the codec [IntJSON]. *)
Lemma namespace_is_transparent_witness :
  IntJSON.parseFrame
    ("42/game,"
     ++ IntJSON.stringify
          (SocketParser.JArr [SocketParser.JStr "gamestate"; Scenario.payload]))
  = Some (SocketParser.mkFrame SocketParser.TEvent (Some "gamestate")
            (Some [Scenario.payload])).
Proof.
  unfold IntJSON.parseFrame.
  change ("42/game,"
          ++ IntJSON.stringify
               (SocketParser.JArr [SocketParser.JStr "gamestate"; Scenario.payload]))%string
    with (String "4" (String "2"
            ("/" ++ "game" ++ ","
             ++ IntJSON.stringify
                  (SocketParser.JArr [SocketParser.JStr "gamestate"; Scenario.payload]))))%string.
  rewrite (namespace_is_transparent Z JS.String_of_Z IntJSON.parse "2" "game"
             (IntJSON.stringify
                (SocketParser.JArr [SocketParser.JStr "gamestate"; Scenario.payload]))).
  - vm_compute. reflexivity.
  - reflexivity.
  - reflexivity.
Defined.

(** The acknowledgement 12 of the array [[7]], on the codec [IntJSON]. *)
Lemma ack_id_is_transparent_witness :
  IntJSON.parseFrame "4312[7]"
  = Some (SocketParser.mkFrame SocketParser.TAck None (Some [SocketParser.JNum 7%Z])).
Proof.
  unfold IntJSON.parseFrame.
  change "4312[7]" with (String "4" (String "3" ("12" ++ "[7]")))%string.
  rewrite (ack_id_is_transparent Z JS.String_of_Z IntJSON.parse "3" "12" "[7]").
  - vm_compute. reflexivity.
  - reflexivity.
  - reflexivity.
Defined.

(** ** The content script *)

Section ContentScript.
Import Content.

Lemma map_delete_keys {V : Type} (m : list (string * V)) (k k' : string) :
  In k' (map fst (map_delete m k)) <-> k' <> k /\ In k' (map fst m).
Proof.
  unfold map_delete. rewrite !in_map_iff. split.
  - intros [[a v] [<- Hin]]. apply filter_In in Hin as [Hin Hne]. cbn [fst] in *.
    apply negb_true_iff, String.eqb_neq in Hne. split; [exact Hne|].
    now exists (a, v).
  - intros [Hne [[a v] [<- Hin]]]. exists (a, v). split; [reflexivity|].
    apply filter_In. split; [exact Hin|]. cbn [fst] in *.
    now apply negb_true_iff, String.eqb_neq.
Qed.

Lemma map_delete_In {V : Type} (m : list (string * V)) (k a : string) (v : V) :
  In (a, v) (map_delete m k) -> a <> k /\ In (a, v) m.
Proof.
  unfold map_delete. intros Hin. apply filter_In in Hin as [Hin Hne]. cbn [fst] in *.
  now apply negb_true_iff, String.eqb_neq in Hne.
Qed.

Lemma map_delete_has {V : Type} (m : list (string * V)) (k : string) :
  JS.map_has (map_delete m k) k = false.
Proof.
  destruct (JS.map_has (map_delete m k) k) eqn:H; [|reflexivity].
  apply map_has_In, map_delete_keys in H. now destruct H.
Qed.

Lemma map_delete_NoDup {V : Type} (m : list (string * V)) (k : string) :
  NoDup (map fst m) -> NoDup (map fst (map_delete m k)).
Proof. apply NoDup_filter_keys. Qed.

Lemma map_set_In {V : Type} (m : list (string * V)) (k : string) (v : V)
    (a : string) (w : V) :
  NoDup (map fst m) ->
  In (a, w) (JS.map_set m k v) -> (a = k /\ w = v) \/ (a <> k /\ In (a, w) m).
Proof.
  induction m as [|[k' v'] m IH]; cbn [JS.map_set map fst]; intros Hnd.
  - intros [[= <- <-]|[]]. now left.
  - inversion Hnd as [|x l Hnotin Hnd']; subst.
    destruct (String.eqb_spec k' k) as [->|Hne].
    + intros [[= <- <-]|Hin]; [now left|]. right. split; [|now right].
      intros ->. apply Hnotin. apply in_map_iff. now exists (k, w).
    + intros [[= <- <-]|Hin].
      * right. split; [exact Hne | now left].
      * destruct (IH Hnd' Hin) as [H|[H1 H2]]; [now left | right; split; [exact H1 | now right]].
Qed.


(** A call of [ingest] on a recorder that is not finalized leaves it
    finalized exactly when it returns true, and calls back only then. *)
Lemma ingest_returned (now : string) (r : GameRecorder.t) (state : IGameState.t) :
  GameRecorder.completed r = false ->
  GameRecorder.completed (GameRecorder.Result.recorder (GameRecorder.ingest now r state))
  = GameRecorder.Result.returned (GameRecorder.ingest now r state)
  /\ (GameRecorder.Result.returned (GameRecorder.ingest now r state) = false ->
      GameRecorder.Result.completion (GameRecorder.ingest now r state) = None).
Proof.
  intros Hc.
  destruct (String.eqb_spec (IGameState.id state) (GameRecorder.gameId r)) as [Hid|Hid].
  - rewrite (ingest_active now r state Hc Hid).
    destruct (observe_frame now r state) as [_ [Hco _]]. cbv zeta in Hco.
    destruct (_ && _);
      cbn [GameRecorder.Result.recorder GameRecorder.Result.returned
           GameRecorder.Result.completion].
    + split; [|discriminate].
      now destruct (finalize_frame now state (GameRecorder.observe now r state))
        as [_ [? _]].
    + split; [congruence | reflexivity].
  - rewrite (ingest_other_game now r state Hc Hid).
    cbn [GameRecorder.Result.recorder GameRecorder.Result.returned
         GameRecorder.Result.completion]. now split.
Qed.

Lemma feed_ok (now : string) (c : t) (state : IGameState.t) :
  registryOk c -> registryOk (fst (feed now c state)).
Proof.
  intros [Hnd Hall]. unfold feed. cbv zeta.
  destruct (JS.map_get (recorders c) (IGameState.id state)) as [recorder|] eqn:Hget;
    [|now split].
  cbn [fst set_recorders].
  apply get_In in Hget. destruct (Hall _ _ Hget) as [Hg Hc].
  destruct (ingest_returned now recorder state Hc) as [Hret _].
  assert (Hheld : registryOk
            (set_recorders
               (JS.map_set (recorders c) (IGameState.id state)
                  (GameRecorder.Result.recorder (GameRecorder.ingest now recorder state)))
               c)
          \/ GameRecorder.Result.returned (GameRecorder.ingest now recorder state) = true).
  { destruct (GameRecorder.Result.returned (GameRecorder.ingest now recorder state));
      [now right|]. left. split; cbn [recorders set_recorders].
    - now apply map_set_NoDup.
    - intros k rec Hin. apply map_set_In in Hin as [[-> ->]|[_ Hin]]; [|now apply Hall|exact Hnd].
      split; [now rewrite ingest_gameId | exact Hret]. }
  destruct (GameRecorder.Result.returned (GameRecorder.ingest now recorder state)) eqn:Hr.
  - split; cbn [recorders set_recorders].
    + apply map_delete_NoDup. now apply map_set_NoDup.
    + intros k rec Hin. apply map_delete_In in Hin as [Hne Hin].
      apply map_set_In in Hin as [[-> _]|[_ Hin]]; [contradiction|now apply Hall|exact Hnd].
  - destruct Hheld as [H|H]; [exact H | discriminate].
Qed.

Lemma onGameState_ok (t0 now : string) (c : t) (state : IGameState.t) :
  registryOk c -> registryOk (fst (onGameState t0 now c state)).
Proof.
  intros Hok. unfold onGameState. cbv zeta.
  destruct (JS.map_has (recorders c) (IGameState.id state)).
  - destruct (JS.map_get (recorders c) (IGameState.id state)) as [rec|];
      [|now apply feed_ok].
    destruct (GameRecorder.completed rec); [|now apply feed_ok].
    destruct Hok as [Hnd Hall]. split; cbn [fst recorders set_recorders].
    + now apply map_delete_NoDup.
    + intros k r Hin. apply map_delete_In in Hin as [_ Hin]. now apply Hall.
  - destruct (IGameState.winners state); [|exact Hok].
    destruct (negb (trackingEnabled c)); [exact Hok|].
    apply feed_ok. destruct Hok as [Hnd Hall]. split; cbn [recorders set_recorders].
    + now apply map_set_NoDup.
    + intros k r Hin. apply map_set_In in Hin as [[-> ->]|[_ Hin]];
        [now split | now apply Hall | exact Hnd].
Qed.

Lemma step_ok (c : t) (e : Event) : registryOk c -> registryOk (fst (step c e)).
Proof.
  destruct e as [enabled|mode|t0 now state]; cbn [step fst]; intros H;
    [exact H | exact H | now apply onGameState_ok].
Qed.

Lemma run_ok (c : t) (events : list Event) :
  registryOk c -> registryOk (fst (run c events)).
Proof.
  revert c. induction events as [|e events IH]; intros c H; [exact H|].
  cbn [run]. pose proof (step_ok c e H) as H1.
  destruct (step c e) as [c1 sent]. cbn [fst] in H1.
  specialize (IH c1 H1). destruct (run c1 events) as [c2 more]. exact IH.
Qed.

(** X17. The map of recorders.  Whatever the content script receives (game
    states, changes of the two settings), every recorder it holds is stored
    under the id of its own game and is not finalized, and no game id is held
    twice: a recorder is dropped in the call that finalizes it.  So the
    recorder that the listener finds for a game state is never completed, and
    its branch [if (rec.isCompleted)] is never taken. *)
Theorem recorders_never_hold_a_completed_game (events : list Event) :
  registryOk (fst (run initial events))
  /\ forall (state : IGameState.t) (rec : GameRecorder.t),
       JS.map_get (recorders (fst (run initial events))) (IGameState.id state) = Some rec ->
       GameRecorder.gameId rec = IGameState.id state
       /\ GameRecorder.completed rec = false.
Proof.
  assert (Hok : registryOk (fst (run initial events))).
  { apply run_ok. split; [constructor | intros k rec []]. }
  split; [exact Hok|]. intros state rec Hget.
  apply get_In in Hget. now apply Hok.
Qed.

Lemma feed_sent (now : string) (c : t) (state : IGameState.t) (record : GameRecord.t) :
  snd (feed now c state) = Some record ->
  JS.map_has (recorders (fst (feed now c state))) (IGameState.id state) = false
  /\ trackingEnabled c = true.
Proof.
  unfold feed. cbv zeta.
  destruct (JS.map_get (recorders c) (IGameState.id state)) as [recorder|];
    [|discriminate].
  cbn [fst snd set_recorders recorders].
  destruct (GameRecorder.Result.completion (GameRecorder.ingest now recorder state))
    as [rec0|] eqn:Hcomp; [|discriminate].
  intros Hsent.
  assert (Hret : GameRecorder.Result.returned (GameRecorder.ingest now recorder state)
                 = true).
  { destruct (GameRecorder.completed recorder) eqn:Hc.
    - rewrite (ingest_completed now recorder state Hc) in Hcomp. discriminate.
    - destruct (ingest_returned now recorder state Hc) as [_ Hno].
      destruct (GameRecorder.Result.returned _); [reflexivity|].
      rewrite Hno in Hcomp by reflexivity. discriminate. }
  rewrite Hret. split; [apply map_delete_has|].
  unfold handleGameComplete in Hsent.
  destruct (trackingEnabled c); [reflexivity | discriminate].
Qed.


Lemma feed_keys (now : string) (c : t) (state : IGameState.t) (k : string) :
  In k (map fst (recorders (fst (feed now c state)))) -> In k (map fst (recorders c)).
Proof.
  unfold feed. cbv zeta.
  destruct (JS.map_get (recorders c) (IGameState.id state)) as [recorder|] eqn:Hget;
    [|trivial].
  cbn [fst set_recorders recorders].
  assert (Hk : In (IGameState.id state) (map fst (recorders c))).
  { apply get_In in Hget. apply in_map_iff.
    exists (IGameState.id state, recorder). now split. }
  destruct (GameRecorder.Result.returned _); intros Hin.
  - apply map_delete_keys in Hin as [_ Hin].
    apply map_set_keys in Hin as [->|Hin]; assumption.
  - apply map_set_keys in Hin as [->|Hin]; assumption.
Qed.

(** X19. Tracking switched off.  While [trackingEnabled] is false the handling
    of a game state sends no record and creates no recorder (a recorder made
    earlier still ingests, and its record is discarded at completion). *)
Theorem tracking_disabled_sends_nothing (t0 now : string) (c : t) (state : IGameState.t) :
  trackingEnabled c = false ->
  snd (onGameState t0 now c state) = None
  /\ forall k, In k (map fst (recorders (fst (onGameState t0 now c state)))) ->
       In k (map fst (recorders c)).
Proof.
  intros Hoff.
  assert (Hfeed : snd (feed now c state) = None).
  { destruct (snd (feed now c state)) as [record|] eqn:H; [|reflexivity].
    apply feed_sent in H as [_ H]. congruence. }
  unfold onGameState. cbv zeta.
  destruct (JS.map_has (recorders c) (IGameState.id state)).
  - destruct (JS.map_get (recorders c) (IGameState.id state)) as [rec|].
    + destruct (GameRecorder.completed rec).
      * cbn [fst snd set_recorders recorders]. split; [reflexivity|].
        intros k Hin. now apply map_delete_keys in Hin.
      * split; [exact Hfeed | apply feed_keys].
    + split; [exact Hfeed | apply feed_keys].
  - destruct (IGameState.winners state); [|now split].
    rewrite Hoff. cbn [negb]. now split.
Qed.

End ContentScript.


(** Tracking is switched off while the recorder of [g1] is live: the state in
    which Alice has won sends nothing (with tracking on it sends the record),
    and a state of a new game creates no recorder. *)
Lemma tracking_disabled_sends_nothing_witness :
  (exists record,
     snd (Content.onGameState "t2" "t3" ContentCases.playing Scenario.aliceWon)
     = Some record)
  /\ snd (Content.onGameState "t2" "t3" ContentCases.switchedOff Scenario.aliceWon) = None
  /\ map fst
       (Content.recorders
          (fst (Content.onGameState "t2" "t3" ContentCases.switchedOff
                  ContentCases.otherGame)))
     = ["g1"].
Proof.
  split; [vm_compute; eexists; reflexivity|].
  split.
  - apply (tracking_disabled_sends_nothing "t2" "t3" ContentCases.switchedOff
             Scenario.aliceWon).
    reflexivity.
  - vm_compute. reflexivity.
Defined.

(** ** The base HP chart of a recorded game *)

Section HpSeries.
Import Dashboard.

Lemma snapshotHp_nonneg (p : PlayerSnapshot.t) : (0 <= snapshotHp p)%Z.
Proof. unfold snapshotHp, JS.Math_max. lia. Qed.

Lemma seriesStep_ok (s : Series.t) (snap : RoundSnapshot.t) :
  Forall RecorderInvariant.hpOk (RoundSnapshot.baseHpChanges snap) ->
  seriesOk s -> seriesOk (seriesStep s snap).
Proof.
  intros Hhp [Hlen [Hy [Ho [Hs Hm]]]]. unfold seriesOk, seriesStep.
  cbn [Series.youValues Series.oppValues Series.roundMarkers].
  rewrite !length_app, !length_map. cbn [List.length]. repeat split.
  - lia.
  - apply Forall_app. split; [apply Forall_app; split;
      [exact Hy | constructor; [apply snapshotHp_nonneg | constructor]]|].
    apply Forall_map. revert Hhp. apply Forall_impl. now intros c [? ?].
  - apply Forall_app. split; [apply Forall_app; split;
      [exact Ho | constructor; [apply snapshotHp_nonneg | constructor]]|].
    apply Forall_map. revert Hhp. apply Forall_impl. now intros c [? ?].
  - rewrite map_app. cbn [map fst]. apply StronglySorted_snoc; [exact Hs|].
    apply Forall_map. revert Hm. apply Forall_impl. intros; lia.
  - apply Forall_app. split.
    + revert Hm. apply Forall_impl. intros; lia.
    + constructor; [cbn [fst]; lia | constructor].
Qed.

Lemma buildBaseHpSeries_from (snaps : list RoundSnapshot.t) (s : Series.t) :
  Forall (fun snap => Forall RecorderInvariant.hpOk (RoundSnapshot.baseHpChanges snap))
         snaps ->
  seriesOk s ->
  seriesOk (fold_left seriesStep snaps s)
  /\ map snd (Series.roundMarkers (fold_left seriesStep snaps s))
     = map snd (Series.roundMarkers s)
       ++ map (fun snap => ("R" ++ JS.String_of_Z (RoundSnapshot.round snap))%string) snaps.
Proof.
  revert s. induction snaps as [|snap snaps IH]; intros s Hall Hs; cbn [fold_left map].
  - now rewrite app_nil_r.
  - inversion Hall as [|? ? Hsnap Hrest]; subst.
    destruct (IH (seriesStep s snap)) as [Hok Hlab];
      [assumption | now apply seriesStep_ok|].
    split; [exact Hok|]. rewrite Hlab. cbn [seriesStep Series.roundMarkers].
    rewrite map_app, <- app_assoc. reflexivity.
Qed.

(** X20. The base HP chart of a recorded game.  For the snapshots of a record
    that a recorder hands over, [buildBaseHpSeries] gives two series of the
    same length without a negative value, and one marker per snapshot,
    labelled [R] and the round of the snapshot, at strictly increasing
    positions inside the series. *)
Theorem base_hp_series_of_record (gameId t0 : string)
    (inputs : list (string * IGameState.t)) (record : GameRecord.t) :
  In record (GameRecorder.completions (GameRecorder.new gameId t0) inputs) ->
  let s := buildBaseHpSeries (GameRecord.snapshots record) in
  List.length (Series.youValues s) = List.length (Series.oppValues s)
  /\ (forall v, In v (Series.youValues s ++ Series.oppValues s) -> (0 <= v)%Z)
  /\ map snd (Series.roundMarkers s)
     = map (fun snap => ("R" ++ JS.String_of_Z (RoundSnapshot.round snap))%string)
           (GameRecord.snapshots record)
  /\ StronglySorted Z.lt (map fst (Series.roundMarkers s))
  /\ (forall m, In m (Series.roundMarkers s) ->
        (0 <= fst m < Z.of_nat (List.length (Series.youValues s)))%Z).
Proof.
  intros Hin.
  destruct (completions_ok _ inputs record (holds_new gameId t0) Hin)
    as [_ [_ [_ [[_ [_ Hhp]] _]]]].
  cbv zeta. unfold buildBaseHpSeries.
  destruct (buildBaseHpSeries_from (GameRecord.snapshots record)
              {| Series.youValues := []; Series.oppValues := [];
                 Series.roundMarkers := [] |} Hhp)
    as [[Hlen [Hy [Ho [Hs Hm]]]] Hlabels].
  { repeat split; constructor. }
  split; [exact Hlen|]. split.
  - intros v Hv. apply in_app_iff in Hv as [Hv|Hv];
      [rewrite Forall_forall in Hy; now apply Hy | rewrite Forall_forall in Ho; now apply Ho].
  - split; [exact Hlabels|]. split; [exact Hs|]. now apply Forall_forall.
Qed.

End HpSeries.

(** The chart of [ChartCases.oneHit]: the round start and the hit. *)
Lemma base_hp_series_of_record_witness :
  exists record,
    GameRecorder.completions Scenario.fresh ChartCases.oneHit = [record]
    /\ Dashboard.buildBaseHpSeries (GameRecord.snapshots record)
       = {| Dashboard.Series.youValues := [30%Z; 30%Z];
            Dashboard.Series.oppValues := [30%Z; 26%Z];
            Dashboard.Series.roundMarkers := [(0%Z, "R1")] |}
    /\ StronglySorted Z.lt
         (map fst
            (Dashboard.Series.roundMarkers
               (Dashboard.buildBaseHpSeries (GameRecord.snapshots record)))).
Proof.
  destruct (GameRecorder.completions Scenario.fresh ChartCases.oneHit)
    as [|record [|other rest]] eqn:Hrun;
    [vm_compute in Hrun; discriminate Hrun | | vm_compute in Hrun; discriminate Hrun].
  exists record. split; [reflexivity|]. split.
  - vm_compute in Hrun. injection Hrun as <-. vm_compute. reflexivity.
  - destruct (base_hp_series_of_record "g1" "t0" ChartCases.oneHit record)
      as [_ [_ [_ [Hsorted _]]]].
    + change (GameRecorder.new "g1" "t0") with Scenario.fresh. rewrite Hrun. now left.
    + exact Hsorted.
Defined.

(** ** Card image addresses *)

Section CardImages.
Import CardUtils.

Lemma append_cancel_l (p a b : string) : (p ++ a = p ++ b)%string -> a = b.
Proof. induction p as [|c p IH]; cbn; [trivial | intros [= H]; now apply IH]. Qed.

Lemma append_cancel_r (a b s : string) : (a ++ s = b ++ s)%string -> a = b.
Proof.
  revert b. induction a as [|c a IH]; intros b H.
  - destruct b as [|d b]; [reflexivity|]. exfalso.
    apply (f_equal String.length) in H. cbn in H.
    rewrite string_length_append in H. lia.
  - destruct b as [|d b].
    + exfalso. apply (f_equal String.length) in H. cbn in H.
      rewrite string_length_append in H. lia.
    + cbn in H. injection H as -> H. f_equal. now apply IH.
Qed.

Lemma to_uint_no_leading_zero (p : positive) (u : Decimal.uint) :
  Pos.to_uint p <> Decimal.D0 u.
Proof.
  intros H.
  pose proof (DecimalPos.Unsigned.to_of (Pos.to_uint p)) as Hn.
  rewrite DecimalPos.Unsigned.of_to in Hn. cbn [N.to_uint] in Hn.
  pose proof (DecimalPos.Unsigned.to_uint_nonzero p) as Hnz.
  unfold Decimal.unorm in Hn.
  destruct (Decimal.nzhead (Pos.to_uint p)) eqn:Hh;
    try (rewrite Hn in H; discriminate H).
  - rewrite Hn in Hnz. now apply Hnz.
  - now apply DecimalFacts.nzhead_nonzero in Hh.
Qed.

Lemma String_of_Z_no_leading_zero (n : Z) :
  n <> 0%Z ->
  exists c s, JS.String_of_Z n = String c s /\ c <> "0"%char.
Proof.
  intros Hn. unfold JS.String_of_Z, NilZero.string_of_int.
  destruct n as [|p|p]; [contradiction| |]; cbn [Z.to_int].
  - pose proof (to_uint_no_leading_zero p) as Hz.
    pose proof (DecimalPos.Unsigned.to_uint_nonnil p) as Hnil.
    destruct (Pos.to_uint p); cbn [NilZero.string_of_uint];
      try (eexists; eexists; split; [reflexivity | discriminate]).
    + contradiction.
    + exfalso. now apply (Hz u).
  - eexists; eexists. split; [reflexivity | discriminate].
Qed.

Lemma String_of_Z_inj (n m : Z) : JS.String_of_Z n = JS.String_of_Z m -> n = m.
Proof.
  unfold JS.String_of_Z. intros H.
  apply (f_equal NilZero.int_of_string) in H.
  destruct (to_int_nonnil n) as [Hn1 Hn2]. destruct (to_int_nonnil m) as [Hm1 Hm2].
  rewrite !NilZero.isi in H by assumption. injection H as H.
  apply (f_equal Z.of_int) in H. now rewrite !DecimalZ.of_to in H.
Qed.

Lemma padStart_inj (s1 s2 : string) (c1 c2 : ascii) (r1 r2 : string) :
  s1 = String c1 r1 -> c1 <> "0"%char ->
  s2 = String c2 r2 -> c2 <> "0"%char ->
  padStart 3 "0" s1 = padStart 3 "0" s2 -> s1 = s2.
Proof.
  intros -> H1 -> H2. unfold padStart. cbn [String.length].
  destruct r1 as [|a1 [|b1 t1]], r2 as [|a2 [|b2 t2]];
    cbn [String.length Nat.sub repeat string_of_list_ascii String.append];
    intros H; try exact H; try (injection H; intros; subst; congruence).
Qed.

(** X21. Card image addresses.  [cardImageUrl] gives no address exactly when
    there is no set id, its set is empty or its number is 0; and two card
    numbers of a set never share an address. *)
Theorem card_image_url_per_number (set : string) (n m : Z) :
  (cardImageUrl (Some (set, n)) = None <-> set = "" \/ n = 0%Z)
  /\ (cardImageUrl (Some (set, n)) <> None ->
      cardImageUrl (Some (set, n)) = cardImageUrl (Some (set, m)) -> n = m).
Proof.
  unfold cardImageUrl, JS.truthy. split.
  - destruct (String.eqb_spec set "") as [->|Hs]; cbn [negb orb]; [now split; [left|]|].
    destruct (Z.eqb_spec n 0) as [->|Hn]; [now split; [right|]|].
    split; [discriminate | now intros [|]].
  - destruct (String.eqb_spec set "") as [->|Hs]; cbn [negb orb]; [contradiction|].
    destruct (Z.eqb_spec n 0) as [->|Hn]; [contradiction|]. intros _.
    destruct (Z.eqb_spec m 0) as [->|Hm]; [discriminate|]. cbv zeta. intros [= H].
    apply (append_cancel_l set) in H.
    apply (append_cancel_l "/standard/large/") in H. apply append_cancel_r in H.
    destruct (String_of_Z_no_leading_zero n Hn) as [c1 [r1 [E1 H1]]].
    destruct (String_of_Z_no_leading_zero m Hm) as [c2 [r2 [E2 H2]]].
    apply String_of_Z_inj. exact (padStart_inj _ _ c1 c2 r1 r2 E1 H1 E2 H2 H).
Qed.

End CardImages.

(** ** The database *)

Section Stores.
Import Db.

Lemma compare_refl (k : string) : String.compare k k = Eq.
Proof.
  pose proof (String.compare_antisym k k) as H.
  destruct (String.compare k k); [reflexivity | discriminate | discriminate].
Qed.

Lemma compare_Eq (k k' : string) : String.compare k k' = Eq <-> k = k'.
Proof.
  split; [apply String.compare_eq_iff | intros ->; apply compare_refl].
Qed.

Lemma get_put_same {V : Type} (s : Store V) (k : string) (v : V) :
  get (put s k v) k = Some v.
Proof.
  unfold get. induction s as [|[k' v'] s IH]; cbn [put JS.get].
  - now rewrite String.eqb_refl.
  - destruct (String.compare k k') eqn:Hc; cbn [JS.get].
    + now rewrite String.eqb_refl.
    + now rewrite String.eqb_refl.
    + destruct (String.eqb_spec k' k) as [->|_]; [|exact IH].
      rewrite compare_refl in Hc. discriminate.
Qed.

Lemma get_put_other {V : Type} (s : Store V) (k k' : string) (v : V) :
  k' <> k -> get (put s k v) k' = get s k'.
Proof.
  intros Hne. unfold get. induction s as [|[a w] s IH]; cbn [put JS.get].
  - destruct (String.eqb_spec k k'); [congruence | reflexivity].
  - destruct (String.compare k a) eqn:Hc; cbn [JS.get].
    + apply compare_Eq in Hc. subst a.
      destruct (String.eqb_spec k k'); [congruence | reflexivity].
    + destruct (String.eqb_spec k k'); [congruence | reflexivity].
    + now rewrite IH.
Qed.

Lemma keys_put {V : Type} (s : Store V) (k k' : string) (v : V) :
  In k' (getAllKeys (put s k v)) <-> k' = k \/ In k' (getAllKeys s).
Proof.
  unfold getAllKeys. induction s as [|[a w] s IH]; cbn [put map fst In].
  - intuition congruence.
  - destruct (String.compare k a) eqn:Hc; cbn [map fst In].
    + apply compare_Eq in Hc. subst a. intuition congruence.
    + intuition congruence.
    + rewrite IH. intuition congruence.
Qed.

Lemma get_delete_same {V : Type} (s : Store V) (k : string) :
  get (delete s k) k = None.
Proof.
  unfold get, delete.
  rewrite (get_filter_key (fun a => negb (a =? k)) s k).
  now rewrite String.eqb_refl.
Qed.

Lemma get_delete_other {V : Type} (s : Store V) (k k' : string) :
  k' <> k -> get (delete s k) k' = get s k'.
Proof.
  intros Hne. unfold get, delete.
  rewrite (get_filter_key (fun a => negb (a =? k)) s k').
  apply String.eqb_neq in Hne. now rewrite Hne.
Qed.

Lemma by_game_without (events : list CardEvent.t) (g other : string) :
  other <> g ->
  by_game (filter (fun e => negb (CardEvent.gameId e =? g)) events) other
  = by_game events other.
Proof.
  intros Hne. unfold by_game. induction events as [|e events IH]; [reflexivity|].
  cbn [filter]. destruct (String.eqb_spec (CardEvent.gameId e) g) as [He|He]; cbn [negb filter].
  - rewrite IH. destruct (String.eqb_spec (CardEvent.gameId e) other); [congruence | reflexivity].
  - now rewrite IH.
Qed.

Lemma by_game_app (a b : list CardEvent.t) (g : string) :
  by_game (a ++ b) g = by_game a g ++ by_game b g.
Proof. apply filter_app. Qed.

(** X22. A saved record is read back.  After [saveGameRecord], [getGameDetail]
    at the id of the record returns its header (the fields of the record but
    the events, the log and the snapshots), its raw log and, as card events,
    the events stored earlier under that game id followed by those events of
    the record that carry its game id; [getSnapshots] returns its
    snapshots. *)
Theorem saved_record_read_back (db : Db.t) (record : GameRecord.t) :
  getGameDetail (saveGameRecord db record) (GameRecord.gameId record)
  = Some {| GameDetail.header := headerOf record;
            GameDetail.cardEvents :=
              by_game (card_events db) (GameRecord.gameId record)
              ++ by_game (GameRecord.cardEvents record) (GameRecord.gameId record);
            GameDetail.rawLog := GameRecord.rawLog record |}
  /\ getSnapshots (saveGameRecord db record) (GameRecord.gameId record)
     = GameRecord.snapshots record.
Proof.
  unfold getGameDetail, getSnapshots, saveGameRecord.
  cbn [games card_events raw_logs game_snapshots].
  now rewrite !get_put_same, by_game_app.
Qed.

(** X23. A deleted game is gone, and only it.  After [deleteGame] the game has
    no header, no card event and no snapshot left, and what the database
    holds of any other game reads as before. *)
Theorem deleted_game_is_gone (db : Db.t) (gameId : string) :
  getGameDetail (deleteGame db gameId) gameId = None
  /\ getSnapshots (deleteGame db gameId) gameId = []
  /\ by_game (card_events (deleteGame db gameId)) gameId = []
  /\ forall other, other <> gameId ->
       getGameDetail (deleteGame db gameId) other = getGameDetail db other
       /\ getSnapshots (deleteGame db gameId) other = getSnapshots db other.
Proof.
  unfold getGameDetail, getSnapshots, deleteGame.
  cbn [games card_events raw_logs game_snapshots].
  rewrite !get_delete_same. split; [reflexivity|]. split; [reflexivity|]. split.
  - unfold by_game. apply filter_none. intros e He.
    apply filter_In in He as [_ He]. now apply negb_true_iff in He.
  - intros other Hne. rewrite !(get_delete_other _ _ _ Hne). split; [|reflexivity].
    destruct (get (games db) other); [|reflexivity]. do 2 f_equal.
    now apply by_game_without.
Qed.

Lemma importGame_counts (events : list CardEvent.t)
    (rawLogs : list (string * list IChatEntry.t))
    (snapshots : list (string * list RoundSnapshot.t))
    (st : ImportState.t') (game : StoredGame.t) :
  (ImportState.imported (importGame events rawLogs snapshots st game)
   + ImportState.skipped (importGame events rawLogs snapshots st game)
   = ImportState.imported st + ImportState.skipped st + 1)%Z.
Proof.
  unfold importGame. cbv zeta.
  destruct (JS.set_has _ _); cbn [ImportState.imported ImportState.skipped]; lia.
Qed.

Lemma importGame_inv (events : list CardEvent.t)
    (rawLogs : list (string * list IChatEntry.t))
    (snapshots : list (string * list RoundSnapshot.t))
    (st0 st : ImportState.t') (game : StoredGame.t) :
  importInv st0 st ->
  importInv st0 (importGame events rawLogs snapshots st game)
  /\ In (StoredGame.gameId game)
        (ImportState.existingKeys (importGame events rawLogs snapshots st game)).
Proof.
  intros [Hkeys [Hmono Hsame]]. unfold importGame, importInv. cbv zeta.
  destruct (JS.set_has (ImportState.existingKeys st) (StoredGame.gameId game)) eqn:Hhas.
  - cbn [ImportState.db ImportState.existingKeys]. split; [now split|].
    now apply set_has_In.
  - apply set_has_not_In in Hhas.
    cbn [ImportState.db ImportState.existingKeys games card_events]. split.
    + split; [|split].
      * intros k. rewrite in_app_iff, keys_put, Hkeys. cbn [In]. intuition congruence.
      * intros k Hk. apply in_app_iff. left. now apply Hmono.
      * intros k Hk.
        assert (Hne : k <> StoredGame.gameId game).
        { intros ->. apply Hhas. now apply Hmono. }
        destruct (Hsame k Hk) as [Hg He].
        rewrite (get_put_other _ _ _ _ Hne), by_game_app, Hg, He. split; [reflexivity|].
        rewrite <- app_nil_r. f_equal.
        unfold by_game. apply filter_none. intros e Hin.
        apply filter_In in Hin as [_ Hin]. apply String.eqb_eq in Hin. rewrite Hin.
        apply String.eqb_neq. congruence.
    + apply in_app_iff. right. now left.
Qed.

Lemma importInv_refl (st : ImportState.t') :
  (forall k, In k (ImportState.existingKeys st)
             <-> In k (getAllKeys (games (ImportState.db st)))) ->
  importInv st st.
Proof. intros H. split; [exact H|]. split; [trivial | now split]. Qed.

Lemma importGames_from (events : list CardEvent.t)
    (rawLogs : list (string * list IChatEntry.t))
    (snapshots : list (string * list RoundSnapshot.t))
    (games : list StoredGame.t) (st0 st : ImportState.t') :
  importInv st0 st ->
  let res := fold_left (importGame events rawLogs snapshots) games st in
  importInv st0 res
  /\ (ImportState.imported res + ImportState.skipped res
      = ImportState.imported st + ImportState.skipped st + Z.of_nat (List.length games))%Z
  /\ (forall g, In g games ->
        In (StoredGame.gameId g) (ImportState.existingKeys res)).
Proof.
  revert st0 st. induction games as [|game games IH]; intros st0 st Hinv; cbn [fold_left].
  - cbv zeta. split; [exact Hinv|]. split; [cbn; lia | intros g []].
  - destruct (importGame_inv events rawLogs snapshots st0 st game Hinv) as [Hinv' Hin].
    pose proof (IH _ _ Hinv') as [H1 [H2 H3]]. cbv zeta in *.
    split; [exact H1|]. split.
    + rewrite H2, importGame_counts. cbn [List.length]. lia.
    + intros g [<-|Hg]; [|now apply H3].
      destruct Hinv' as [Hkeys' _].
      destruct (IH _ _ (importInv_refl _ Hkeys')) as [[_ [Hmono _]] _].
      now apply Hmono.
Qed.

(** A turn of the loop on a game whose key is known changes the counts
    only. *)
Lemma importGames_all_known (events : list CardEvent.t)
    (rawLogs : list (string * list IChatEntry.t))
    (snapshots : list (string * list RoundSnapshot.t))
    (games : list StoredGame.t) (st : ImportState.t') :
  (forall g, In g games -> In (StoredGame.gameId g) (ImportState.existingKeys st)) ->
  fold_left (importGame events rawLogs snapshots) games st
  = {| ImportState.db := ImportState.db st;
       ImportState.existingKeys := ImportState.existingKeys st;
       ImportState.imported := ImportState.imported st;
       ImportState.skipped :=
         (ImportState.skipped st + Z.of_nat (List.length games))%Z |}.
Proof.
  revert st. induction games as [|game games IH]; intros st Hall; cbn [fold_left].
  - cbn [List.length Z.of_nat]. rewrite Z.add_0_r. now destruct st.
  - unfold importGame at 2. cbv zeta.
    assert (Hhas : JS.set_has (ImportState.existingKeys st) (StoredGame.gameId game) = true).
    { apply set_has_In. apply Hall. now left. }
    rewrite Hhas, IH.
    + cbn [ImportState.db ImportState.existingKeys ImportState.imported
           ImportState.skipped List.length]. f_equal. lia.
    + cbn [ImportState.existingKeys]. intros g Hg. apply Hall. now right.
Qed.

(** X24. Merging an export.  [importGames] counts every game of the list once,
    as imported or as skipped; it leaves the header and the card events of
    every game that the database already held as they were; and importing the
    same list again imports nothing: every game is skipped and the database
    stays as it is. *)
Theorem import_skips_known_games (db : Db.t) (games : list StoredGame.t)
    (events : list CardEvent.t) (rawLogs : list (string * list IChatEntry.t))
    (snapshots : list (string * list RoundSnapshot.t)) :
  let res := importGames db games events rawLogs snapshots in
  let again := importGames (ImportState.db res) games events rawLogs snapshots in
  (ImportState.imported res + ImportState.skipped res = Z.of_nat (List.length games))%Z
  /\ (forall k, In k (getAllKeys (Db.games db)) ->
        get (Db.games (ImportState.db res)) k = get (Db.games db) k
        /\ by_game (card_events (ImportState.db res)) k = by_game (card_events db) k)
  /\ ImportState.db again = ImportState.db res
  /\ ImportState.imported again = 0%Z
  /\ ImportState.skipped again = Z.of_nat (List.length games).
Proof.
  cbv zeta. unfold importGames.
  set (st0 := {| ImportState.db := db;
                 ImportState.existingKeys := getAllKeys (Db.games db);
                 ImportState.imported := 0%Z;
                 ImportState.skipped := 0%Z |}).
  assert (Hinv0 : importInv st0 st0) by (apply importInv_refl; now intros k).
  destruct (importGames_from events rawLogs snapshots games st0 st0 Hinv0)
    as [[Hkeys [_ Hsame]] [Hcount Hknown]]. cbv zeta in *.
  set (res := fold_left (importGame events rawLogs snapshots) games st0) in *.
  split; [rewrite Hcount; cbn; lia|]. split; [exact Hsame|].
  rewrite importGames_all_known.
  - cbn [ImportState.db ImportState.imported ImportState.skipped]. now repeat split.
  - cbn [ImportState.existingKeys]. intros g Hg. apply Hkeys. now apply Hknown.
Qed.

End Stores.

Section Sorting.
Import Db.

Context {A : Type} (cmp : A -> A -> Z).

Lemma insertSorted_perm (x : A) (l : list A) : Permutation (insertSorted cmp x l) (x :: l).
Proof.
  induction l as [|y l IH]; cbn [insertSorted]; [reflexivity|].
  destruct (cmp y x <=? 0)%Z; [|reflexivity].
  rewrite IH. apply perm_swap.
Qed.

Lemma Array_sort_from_perm (l acc : list A) :
  Permutation (fold_left (fun sorted x => insertSorted cmp x sorted) l acc) (acc ++ l).
Proof.
  revert acc. induction l as [|x l IH]; intros acc; cbn [fold_left].
  - now rewrite app_nil_r.
  - rewrite IH, insertSorted_perm. apply Permutation_middle.
Qed.

Lemma Array_sort_perm (l : list A) : Permutation (Array_sort cmp l) l.
Proof. unfold Array_sort. now rewrite Array_sort_from_perm. Qed.

End Sorting.

Section Matchups.
Import Db.

Variable num : Type.
Variable Number_of : Z -> num.
Variable divide : Z -> Z -> num.

Let byTotal (a b : MatchupRow.t num) : Z :=
  (MatchupRow.totalGames b - MatchupRow.totalGames a)%Z.

Let descending (a b : MatchupRow.t num) : Prop :=
  (MatchupRow.totalGames b <= MatchupRow.totalGames a)%Z.

Lemma insertSorted_descending (x : MatchupRow.t num) (l : list (MatchupRow.t num)) :
  StronglySorted descending l -> StronglySorted descending (insertSorted byTotal x l).
Proof.
  induction l as [|y l IH]; intros Hs; cbn [insertSorted].
  - repeat constructor.
  - inversion Hs as [|? ? Hs' Hall]; subst.
    unfold byTotal at 1. destruct (Z.leb_spec (MatchupRow.totalGames x - MatchupRow.totalGames y) 0).
    + constructor; [now apply IH|].
      apply (Permutation_Forall (x := x :: l)).
      * symmetry. apply insertSorted_perm.
      * constructor; [unfold descending; lia | exact Hall].
    + constructor; [exact Hs|]. constructor; [unfold descending; lia|].
      revert Hall. apply Forall_impl. unfold descending. intros; lia.
Qed.

Lemma Array_sort_descending (l : list (MatchupRow.t num)) :
  StronglySorted descending (Array_sort byTotal l).
Proof.
  unfold Array_sort.
  assert (H : forall acc, StronglySorted descending acc ->
            StronglySorted descending
              (fold_left (fun sorted x => insertSorted byTotal x sorted) l acc)).
  { induction l as [|x l IH]; intros acc Hacc; cbn [fold_left]; [exact Hacc|].
    apply IH. now apply insertSorted_descending. }
  apply H. constructor.
Qed.

Lemma totalGamesOf_perm (a b : list (MatchupRow.t num)) :
  Permutation a b -> totalGamesOf a = totalGamesOf b.
Proof.
  unfold totalGamesOf. induction 1; cbn [map fold_right]; lia.
Qed.

Lemma totalGamesOf_app (a b : list (MatchupRow.t num)) :
  totalGamesOf (a ++ b) = (totalGamesOf a + totalGamesOf b)%Z.
Proof.
  unfold totalGamesOf. induction a as [|x a IH]; cbn [app map fold_right]; lia.
Qed.

Lemma totalGamesOf_cons (x : MatchupRow.t num) (l : list (MatchupRow.t num)) :
  totalGamesOf (x :: l) = (MatchupRow.totalGames x + totalGamesOf l)%Z.
Proof. reflexivity. Qed.

(** The rows of the map are balanced (the three results add up to the games
    counted, which are one or more). *)
Let balanced (row : MatchupRow.t num) : Prop :=
  (MatchupRow.wins row + MatchupRow.losses row + MatchupRow.draws row
   = MatchupRow.totalGames row)%Z
  /\ (1 <= MatchupRow.totalGames row)%Z
  /\ (0 <= MatchupRow.wins row)%Z /\ (0 <= MatchupRow.losses row)%Z
  /\ (0 <= MatchupRow.draws row)%Z.

Let rowsOf (m : list (string * MatchupRow.t num)) : list (MatchupRow.t num) :=
  map snd m.

Lemma map_set_rows_new (m : list (string * MatchupRow.t num)) (k : string)
    (v : MatchupRow.t num) :
  JS.map_get m k = None ->
  JS.map_set m k v = m ++ [(k, v)].
Proof.
  unfold JS.map_get. induction m as [|[k' v'] m IH]; cbn [JS.get JS.map_set app];
    [reflexivity|].
  destruct (k' =? k); [discriminate|]. intros H. now rewrite IH.
Qed.

Lemma map_set_rows_old (m : list (string * MatchupRow.t num)) (k : string)
    (old v : MatchupRow.t num) :
  JS.map_get m k = Some old ->
  exists before rest,
    m = before ++ (k, old) :: rest /\ JS.map_set m k v = before ++ (k, v) :: rest.
Proof.
  unfold JS.map_get. induction m as [|[k' v'] m IH]; cbn [JS.get JS.map_set];
    [discriminate|].
  destruct (String.eqb_spec k' k) as [->|Hne].
  - intros [= ->]. now exists [], m.
  - intros H. destruct (IH H) as [before [rest [-> ->]]].
    now exists ((k', v') :: before), rest.
Qed.

Lemma countGame_balanced (g : StoredGame.t) (you : GamePlayer.t)
    (row : MatchupRow.t num) :
  (MatchupRow.wins row + MatchupRow.losses row + MatchupRow.draws row
   = MatchupRow.totalGames row)%Z ->
  (0 <= MatchupRow.totalGames row)%Z ->
  (0 <= MatchupRow.wins row)%Z -> (0 <= MatchupRow.losses row)%Z ->
  (0 <= MatchupRow.draws row)%Z ->
  balanced (countGame num g you row)
  /\ MatchupRow.totalGames (countGame num g you row)
     = (MatchupRow.totalGames row + 1)%Z.
Proof.
  intros Hsum Ht Hw Hl Hd. unfold countGame, balanced.
  destruct (StoredGame.winner g) as [w|]; [destruct (w =? GamePlayer.name you)|];
    cbn; repeat split; lia.
Qed.

Lemma matchupStep_inv (playerName : option string)
    (m : list (string * MatchupRow.t num)) (g : StoredGame.t) :
  Forall balanced (rowsOf m) ->
  Forall balanced (rowsOf (matchupStep num Number_of playerName m g))
  /\ totalGamesOf (rowsOf (matchupStep num Number_of playerName m g))
     = (totalGamesOf (rowsOf m) + if counted playerName g then 1 else 0)%Z.
Proof.
  intros Hall. unfold matchupStep, counted.
  destruct (youOf playerName g) as [you|]; [|split; [exact Hall | lia]].
  destruct (oppOf playerName g) as [opp|]; [|split; [exact Hall | lia]].
  cbv zeta.
  set (key := (GamePlayer.leaderId you ++ "|" ++ GamePlayer.leaderId opp)%string).
  destruct (JS.map_get m key) as [row|] eqn:Hget.
  - rewrite Hget.
    destruct (map_set_rows_old m key row (countGame num g you row) Hget)
      as [before [rest [-> ->]]].
    unfold rowsOf in *. rewrite map_app in *. cbn [map snd] in *.
    apply Forall_app in Hall as [Hb Hr]. inversion Hr as [|? ? Hrow Hrest]; subst.
    destruct Hrow as [Hsum [Ht [Hw [Hl Hd]]]].
    destruct (countGame_balanced g you row Hsum ltac:(lia) Hw Hl Hd) as [Hbal Htot].
    split.
    + apply Forall_app. split; [exact Hb|]. now constructor.
    + rewrite ?map_app. cbn [map snd].
      rewrite !totalGamesOf_app, !totalGamesOf_cons, Htot. lia.
  - rewrite (map_set_rows_new m key _ Hget).
    assert (Hnew : JS.map_get (m ++ [(key, newRow num Number_of you opp)]) key
                   = Some (newRow num Number_of you opp)).
    { rewrite <- (map_set_rows_new m key _ Hget). unfold JS.map_get.
      clear. induction m as [|[k' v'] m IH]; cbn [JS.map_set JS.get].
      - now rewrite String.eqb_refl.
      - destruct (String.eqb_spec k' key) as [->|Hne]; cbn [JS.get].
        + now rewrite String.eqb_refl.
        + apply String.eqb_neq in Hne. now rewrite Hne. }
    rewrite Hnew.
    destruct (map_set_rows_old _ key _ (countGame num g you (newRow num Number_of you opp))
                Hnew) as [before [rest [Heq ->]]].
    assert (Hshape : before = m /\ rest = []).
    { clear - Heq Hget. revert before Heq.
      induction m as [|[k' v'] m IH]; intros before Heq.
      - destruct before as [|b before]; [now injection Heq as <-|].
        destruct before; discriminate.
      - unfold JS.map_get in Hget. cbn [JS.get] in Hget.
        destruct (String.eqb_spec k' key) as [|Hne]; [discriminate|].
        destruct before as [|b before]; cbn [app] in Heq.
        + injection Heq as Hk _. congruence.
        + injection Heq as <- Heq. destruct (IH Hget before Heq) as [-> ->]. now split. }
    destruct Hshape as [-> ->].
    destruct (countGame_balanced g you (newRow num Number_of you opp))
      as [Hbal Htot]; try (cbn; lia).
    unfold rowsOf in *. rewrite map_app. cbn [map snd]. split.
    + apply Forall_app. split; [exact Hall | now constructor].
    + rewrite totalGamesOf_app, totalGamesOf_cons, Htot.
      cbn [newRow MatchupRow.totalGames totalGamesOf map fold_right]. lia.
Qed.

Lemma matchup_fold_inv (playerName : option string) (games : list StoredGame.t)
    (m : list (string * MatchupRow.t num)) :
  Forall balanced (rowsOf m) ->
  Forall balanced (rowsOf (fold_left (matchupStep num Number_of playerName) games m))
  /\ totalGamesOf (rowsOf (fold_left (matchupStep num Number_of playerName) games m))
     = (totalGamesOf (rowsOf m)
        + Z.of_nat (List.length (filter (counted playerName) games)))%Z.
Proof.
  revert m. induction games as [|g games IH]; intros m Hall; cbn [fold_left filter].
  - split; [exact Hall | cbn; lia].
  - destruct (matchupStep_inv playerName m g Hall) as [H1 H2].
    destruct (IH _ H1) as [H3 H4]. split; [exact H3|].
    rewrite H4, H2. destruct (counted playerName g); cbn [List.length]; lia.
Qed.

(** X25. The match-up table.  In every row of [getMatchupStats] the wins, the
    losses and the draws add up to the total of the row, which is 1 or more;
    the totals of the rows add up to the number of visible games of the
    format in which both players are found; and the rows come in descending
    order of their totals. *)
Theorem matchup_rows_add_up (db : Db.t) (formatFilter : string)
    (playerName : option string) :
  let rows := getMatchupStats num Number_of divide db formatFilter playerName in
  (forall row, In row rows ->
     (MatchupRow.wins row + MatchupRow.losses row + MatchupRow.draws row
      = MatchupRow.totalGames row)%Z
     /\ (1 <= MatchupRow.totalGames row)%Z)
  /\ totalGamesOf rows
     = Z.of_nat (List.length (filter (counted playerName) (visibleGames db formatFilter)))
  /\ StronglySorted
       (fun a b => (MatchupRow.totalGames b <= MatchupRow.totalGames a)%Z) rows.
Proof.
  cbv zeta. unfold getMatchupStats. cbv zeta.
  destruct (matchup_fold_inv playerName (visibleGames db formatFilter) [])
    as [Hall Hsum]; [constructor|].
  set (m := fold_left (matchupStep num Number_of playerName)
              (visibleGames db formatFilter) []) in *.
  pose proof (Array_sort_perm
                (fun a b : MatchupRow.t num =>
                   (MatchupRow.totalGames b - MatchupRow.totalGames a)%Z)
                (map (fun e => withWinRate num Number_of divide (snd e)) m))
    as Hperm.
  split; [|split].
  - intros row Hin. apply (Permutation_in _ Hperm) in Hin.
    apply in_map_iff in Hin as [[k r] [<- Hin]]. cbn [snd withWinRate MatchupRow.wins
      MatchupRow.losses MatchupRow.draws MatchupRow.totalGames].
    rewrite Forall_forall in Hall. apply (in_map snd) in Hin.
    destruct (Hall r Hin) as [? [? _]]. now split.
  - rewrite (totalGamesOf_perm _ _ Hperm). cbn in Hsum. rewrite <- Hsum.
    unfold totalGamesOf, rowsOf. rewrite !map_map. reflexivity.
  - exact (Array_sort_descending _).
Qed.

End Matchups.

Section Formats.
Import Db.

(** X26. A format set by hand.  After [updateGameFormat] on a stored game, the
    game passes the statistics filter of the chosen format and neither of the
    two others; its other fields are as they were. *)
Theorem updated_format_passes_one_filter (db : Db.t) (gameId : string)
    (mode : FormatMode) (game : StoredGame.t) :
  get (games db) gameId = Some game ->
  StoredGame.gameId game = gameId ->
  exists game',
    get (games (updateGameFormat db gameId mode)) gameId = Some game'
    /\ (forall m, passesFormat (filterOf m) game' = true <-> m = mode)
    /\ StoredGame.hidden game' = StoredGame.hidden game
    /\ StoredGame.players game' = StoredGame.players game
    /\ StoredGame.winner game' = StoredGame.winner game.
Proof.
  intros Hget Hid. unfold updateGameFormat. rewrite Hget, Hid.
  destruct mode; cbn [set_games games]; rewrite get_put_same; eexists;
    (split; [reflexivity|]); (split; [|now repeat split]);
    intros [| |]; cbn; split; intros H; congruence.
Qed.

End Formats.

(** The recorded game, of the limited format by its deck sizes, is set to
    eternal by hand: it then counts as eternal only. *)
Lemma updated_format_passes_one_filter_witness :
  exists game game',
    Db.get (Db.games DbCases.saved) "g1" = Some game
    /\ Db.passesFormat "limited" game = true
    /\ Db.get (Db.games (Db.updateGameFormat DbCases.saved "g1" ModeEternal)) "g1"
       = Some game'
    /\ Db.passesFormat "eternal" game' = true
    /\ Db.passesFormat "limited" game' = false
    /\ Db.passesFormat "premier" game' = false
    /\ Db.StoredGame.winner game' = Some "Alice".
Proof.
  destruct (Db.get (Db.games DbCases.saved) "g1") as [game|] eqn:Hget;
    [|vm_compute in Hget; discriminate Hget].
  assert (Hgame : Db.StoredGame.gameId game = "g1"
                  /\ Db.passesFormat "limited" game = true
                  /\ Db.StoredGame.winner game = Some "Alice").
  { vm_compute in Hget. injection Hget as <-. repeat split. }
  destruct Hgame as [Hid [Hlim Hwin]].
  destruct (updated_format_passes_one_filter DbCases.saved "g1" ModeEternal game Hget Hid)
    as [game' [Hget' [Hpass [_ [_ Hwin']]]]].
  exists game, game'. split; [reflexivity|]. split; [exact Hlim|]. split; [exact Hget'|].
  split; [now apply (Hpass ModeEternal)|].
  split.
  - destruct (Db.passesFormat "limited" game') eqn:H; [|reflexivity].
    apply (Hpass ModeLimited) in H. discriminate H.
  - split.
    + destruct (Db.passesFormat "premier" game') eqn:H; [|reflexivity].
      apply (Hpass ModePremier) in H. discriminate H.
    + now rewrite Hwin'.
Defined.

Section CardStatistics.
Import Db.

Variable num : Type.
Variable Number_of : Z -> num.
Variable divide : Z -> Z -> num.

Lemma GameCardMetric_eqb_eq (a b : GameCardMetric) :
  GameCardMetric_eqb a b = true <-> a = b.
Proof. destruct a, b; cbn; split; congruence. Qed.








End CardStatistics.
